(** * telegrambot: the call dispatcher, the update poller and the text helpers

    A shallow embedding of the parts of github.com/nickname76/telegrambot
    that carry behaviour (telegrambot.go, telegrambotTools.go, the
    FileReader methods and the SendMessage / GetUpdates wrappers), followed
    by the properties proved about them.

    Conventions of the embedding:
    - a Go [string] is a [string] (a sequence of bytes), [len] counts bytes;
    - Go's [int], [int64] and [time.Duration] are [Z] values, and every
      arithmetic operation of the source wraps to 64 bits ([wrap64]);
    - a run-time panic is the [Panics] outcome, a normal return [Returns];
    - a Go pointer to a mutable struct is a location in a store;
    - an [error] is its message, [nil] is [None];
    - code outside the repository (jsoniter, mime/multipart, sort.Sort,
      strings.TrimSpace, the HTTP transport) is a parameter. *)

From Stdlib Require Import ZArith Lia Ascii String.
From stdpp Require Import base tactics option list strings gmap sorting.

Local Open Scope Z_scope.

(** ** Outcomes of Go code that may panic *)

(** [Unfinished] is the outcome of a loop of the model whose fuel ran out
    before the loop of the source returned. *)
Inductive outcome (A : Type) : Type :=
| Returns (a : A)
| Panics (msg : string)
| Unfinished.
Arguments Returns {A} a.
Arguments Panics {A} msg.
Arguments Unfinished {A}.

Definition obind {A B} (o : outcome A) (k : A -> outcome B) : outcome B :=
  match o with
  | Returns a => k a
  | Panics m => Panics m
  | Unfinished => Unfinished
  end.

Notation "x <~ o ; k" := (obind o (fun x => k))
  (at level 100, o at next level, right associativity, only parsing).

(** ** 64-bit integers *)

Definition minInt : Z := - 2 ^ 63.
Definition maxInt : Z := 2 ^ 63 - 1.

(** The value an [int] / [int64] computation has after it wraps around. *)
Definition wrap64 (z : Z) : Z := (z + 2 ^ 63) mod 2 ^ 64 - 2 ^ 63.

(** ** Slices *)

(** [a[i]]: panics when [i] is out of range. *)
Definition indexAt {A} (a : list A) (i : nat) : outcome A :=
  match a !! i with
  | Some x => Returns x
  | None => Panics "index out of range"
  end.

(** ** Go's [strings] package and string slicing *)

Module GoStrings.

Definition len (s : string) : Z := Z.of_nat (String.length s).

Fixpoint takeS (n : nat) (s : string) : string :=
  match n, s with
  | S n', String c s' => String c (takeS n' s')
  | _, _ => EmptyString
  end.

Fixpoint dropS (n : nat) (s : string) : string :=
  match n, s with
  | S n', String _ s' => dropS n' s'
  | _, _ => s
  end.

(** [s[lo:hi]]: panics unless [0 <= lo <= hi <= len(s)]. *)
Definition slice (s : string) (lo hi : Z) : outcome string :=
  if bool_decide (0 <= lo /\ lo <= hi /\ hi <= len s)
  then Returns (takeS (Z.to_nat (hi - lo)) (dropS (Z.to_nat lo) s))
  else Panics "slice bounds out of range".

(** [s[lo:]] is [s[lo:len(s)]]. *)
Definition sliceFrom (s : string) (lo : Z) : outcome string :=
  slice s lo (len s).

(** [s[:hi]] is [s[0:hi]]. *)
Definition sliceTo (s : string) (hi : Z) : outcome string :=
  slice s 0 hi.

Fixpoint HasPrefix (s prefix : string) : bool :=
  match prefix, s with
  | EmptyString, _ => true
  | String c p, String d s' => if decide (c = d) then HasPrefix s' p else false
  | String _ _, EmptyString => false
  end.

(** Position of the first instance of [substr] in [s], if any. *)
Fixpoint indexNat (s substr : string) : option nat :=
  if HasPrefix s substr then Some 0%nat
  else match s with
       | EmptyString => None
       | String _ s' => S <$> indexNat s' substr
       end.

(** [strings.Index]: -1 when [substr] does not occur. *)
Definition Index (s substr : string) : Z :=
  match indexNat s substr with
  | Some i => Z.of_nat i
  | None => -1
  end.

(** [strings.Count] for a non-empty [substr]: non-overlapping instances. *)
Fixpoint countLoop (fuel : nat) (s substr : string) : Z :=
  match fuel with
  | O => 0
  | S fuel' =>
      match indexNat s substr with
      | None => 0
      | Some m => 1 + countLoop fuel' (dropS (m + String.length substr) s) substr
      end
  end.

Definition Count (s substr : string) : Z :=
  countLoop (String.length s) s substr.

(** The loop of [genSplit]: [k] is the number of cuts still allowed
    ([n - 1 - i] in the source). *)
Fixpoint genSplit_loop (k : nat) (s sep : string) : list string :=
  match k with
  | O => [s]
  | S k' =>
      match indexNat s sep with
      | None => [s]
      | Some m =>
          takeS m s :: genSplit_loop k' (dropS (m + String.length sep) s) sep
      end
  end.

(** [strings.SplitN(s, sep, n)] for a non-empty [sep] (the [explode] path
    taken for [sep = ""] is not part of this model: the repository only
    splits at the one-byte separator). *)
Definition SplitN (s sep : string) (n : Z) : list string :=
  if decide (n = 0) then []
  else
    let n1 := if decide (n < 0) then Count s sep + 1 else n in
    let n2 := if decide (n1 > len s + 1) then len s + 1 else n1 in
    genSplit_loop (Z.to_nat (n2 - 1)) s sep.

End GoStrings.

(** ** telegrambotTools.go: callback data *)

(** The separator byte ["\x00"]. *)
Definition NUL : string := String Ascii.zero EmptyString.

Definition CompileCbQryData (command args : string) : string :=
  if decide (args = "") then command
  else command +:+ NUL +:+ args.

Definition DecompileCbQryData (cbQryData : string) : outcome (string * string) :=
  let data := GoStrings.SplitN cbQryData NUL 2 in
  command <~ indexAt data 0;
  if decide (length data = 2%nat)
  then (args <~ indexAt data 1; Returns (command, args))
  else Returns (command, "").

(** ** Messages and their entities (the fields the helpers read) *)

Definition MessageEntityTypeMention : string := "mention".
Definition MessageEntityTypeBotCommand : string := "bot_command".

Module MessageEntity.
Record t : Type := mk {
  Type_ : string;
  Offset : Z;
  Length : Z
}.
End MessageEntity.

Module Message.
Record t : Type := mk {
  Text : string;
  Entities : list MessageEntity.t;
  Caption : string;
  CaptionEntities : list MessageEntity.t
}.
Definition zero : t := mk "" [] "" [].
End Message.

(** ** telegrambotTools.go: ParseMessageCommand *)

Section ParseMessageCommand.

(** [strings.TrimSpace] (Unicode aware in Go) is kept abstract. *)
Variable TrimSpace : string -> string.

(** The [switch] that picks the text and its entities; [None] is the
    [default: return] branch. *)
Definition commandText (msg : Message.t) : option (string * list MessageEntity.t) :=
  if decide (Message.Text msg <> "") then
    Some (Message.Text msg, Message.Entities msg)
  else if decide (Message.Caption msg <> "") then
    Some (Message.Caption msg, Message.CaptionEntities msg)
  else None.

(** The [for _, entity := range textEntities] loop. *)
Fixpoint commandLoop (text : string) (textEntities : list MessageEntity.t)
  : outcome (string * string) :=
  match textEntities with
  | [] => Returns ("", "")
  | entity :: rest =>
      if decide (MessageEntity.Type_ entity <> MessageEntityTypeBotCommand
                 \/ MessageEntity.Offset entity <> 0)
      then commandLoop text rest
      else
        command <~ GoStrings.slice text 1 (MessageEntity.Length entity);
        let usernameIndex := GoStrings.Index command "@" in
        command' <~ (if decide (usernameIndex <> -1)
                     then GoStrings.sliceTo command usernameIndex
                     else Returns command);
        tail <~ GoStrings.sliceFrom text (MessageEntity.Length entity);
        Returns (command', TrimSpace tail)
  end.

Definition ParseMessageCommand (msg : Message.t) : outcome (string * string) :=
  match commandText msg with
  | None => Returns ("", "")
  | Some (text, textEntities) => commandLoop text textEntities
  end.

End ParseMessageCommand.

(** ** Errors and results of library calls *)

Definition error : Type := string.

(** [fmt.Errorf(prefix + "%w", err)]. *)
Definition Errorf (prefix : string) (err : error) : error := prefix +:+ err.

(** A library call that yields either a value or an error. *)
Inductive result (A : Type) : Type :=
| Ok (a : A)
| Err (e : error).
Arguments Ok {A} a.
Arguments Err {A} e.

(** ** File references (InputFile, FileID, FileURL, FileReader) *)

(** An [io.Reader]: the bytes it still yields, then EOF ([None]) or a read
    error. *)
Inductive io_Reader : Type :=
| mkReader (content : string) (failure : option error).

Module FileReader.
Record t : Type := mk {
  Name : string;
  Reader : option io_Reader;
  fieldname : string
}.
Definition zero : t := mk "" None "".
End FileReader.

#[export] Instance FileReader_inhabited : Inhabited FileReader.t :=
  populate FileReader.zero.

(** A value of interface type [InputFile] that is not the nil interface:
    one of the three implementations. A [*FileReader] is the address of a
    [FileReader] in the store, or the nil pointer; an address the store
    has nothing at holds the zero [FileReader]. *)
Inductive InputFile : Type :=
| FileID (id : string)
| FileURL (url : string)
| FileReaderRef (p : nat)
| FileReaderNil.

(** The mutable state the encoder works on: the [FileReader] objects, the
    position in the [math/rand] stream, and the boundaries handed out to
    the multipart writers created so far. *)
Record Store : Type := mkStore {
  heap : gmap nat FileReader.t;
  mathRand : nat -> ascii;
  randPos : nat;
  boundaryOf : nat -> string;
  writers : nat
}.

Definition setHeap (h : gmap nat FileReader.t) (st : Store) : Store :=
  mkStore h (mathRand st) (randPos st) (boundaryOf st) (writers st).

(** [rand.Read(b)] with [len(b) = n]: the next [n] bytes of the stream. *)
Definition rand_Read (n : nat) (st : Store) : list ascii * Store :=
  (mathRand st <$> seq (randPos st) n,
   mkStore (heap st) (mathRand st) (randPos st + n)%nat (boundaryOf st) (writers st)).

Definition hexDigit (n : N) : ascii :=
  match n with
  | 0%N => "0" | 1%N => "1" | 2%N => "2" | 3%N => "3"
  | 4%N => "4" | 5%N => "5" | 6%N => "6" | 7%N => "7"
  | 8%N => "8" | 9%N => "9" | 10%N => "a" | 11%N => "b"
  | 12%N => "c" | 13%N => "d" | 14%N => "e" | _ => "f"
  end%char.

(** [hex.EncodeToString]. *)
Fixpoint hex_EncodeToString (b : list ascii) : string :=
  match b with
  | [] => EmptyString
  | c :: b' =>
      String (hexDigit (N.div (N_of_ascii c) 16))
        (String (hexDigit (N.modulo (N_of_ascii c) 16)) (hex_EncodeToString b'))
  end.

Definition checkFieldname (p : nat) (st : Store) : Store :=
  let fr := heap st !!! p in
  if decide (FileReader.fieldname fr <> "") then st
  else
    let '(b, st1) := rand_Read 6 st in
    setHeap (<[p := FileReader.mk (FileReader.Name fr) (FileReader.Reader fr)
                      (hex_EncodeToString b)]> (heap st1)) st1.

(** [func (fr *FileReader) multipartFormFile()], the receiver being the
    reader at address [p]. *)
Definition FileReader_multipartFormFile (p : nat) (st : Store)
  : (string * string * option io_Reader) * Store :=
  let st1 := checkFieldname p st in
  let fr := heap st1 !!! p in
  ((FileReader.fieldname fr, FileReader.Name fr, FileReader.Reader fr), st1).

(** [inputFile.multipartFormFile()], a call through the [InputFile]
    interface. With a nil [*FileReader] in the interface the method is
    entered and checkFieldname dereferences the nil receiver. *)
Definition multipartFormFile (f : InputFile) (st : Store)
  : outcome ((string * string * option io_Reader) * Store) :=
  match f with
  | FileID _ => Returns (("", "", None), st)
  | FileURL _ => Returns (("", "", None), st)
  | FileReaderRef p => Returns (FileReader_multipartFormFile p st)
  | FileReaderNil => Panics "invalid memory address or nil pointer dereference"
  end.

(** The double quote character. *)
Definition dquote : string := String (ascii_of_nat 34) EmptyString.

(** The [MarshalJSON] method of [FileReader] (pointer receiver), the
    receiver being the reader at address [p]. *)
Definition MarshalJSON (p : nat) (st : Store) : (string * option error) * Store :=
  let st1 := checkFieldname p st in
  ((dquote +:+ "attach://" +:+ FileReader.fieldname (heap st1 !!! p) +:+ dquote,
    None), st1).

(** ** The response envelope *)

Module ResponseParameters.
Record t : Type := mk {
  MigrateToChatID : Z;
  RetryAfter : Z
}.
End ResponseParameters.

Module Response.
Record t : Type := mk {
  OK : bool;
  ErrorCode : Z;
  Description : string;
  Parameters : option ResponseParameters.t
}.
End Response.

(** ** The JSON codec (jsoniter), one instance per Go type *)

(** [jsoniterCfg.Marshal(requestData)]: it may call [MarshalJSON] on the
    file readers it meets, hence the store. *)
Class Marshaler (A : Type) : Type :=
  jsonMarshal : A -> Store -> result string * Store.

(** [jsoniterCfg.Unmarshal(respBody, &Response{Result: resultDest})]: the
    envelope, and the destination after the result was decoded into it. *)
Class Unmarshaler (R : Type) : Type :=
  jsonUnmarshal : string -> R -> result Response.t * R.

(** ** Request bodies *)

(** One part of a multipart form, as written through [multipart.Writer]. *)
Inductive Part : Type :=
| FormField (name value : string)
| FormFile (fieldname filename content : string).

(** The encoded request: the JSON bytes, or the parts of a multipart form
    (its byte encoding by mime/multipart is kept symbolic). *)
Inductive Body : Type :=
| RawBody (bytes : string)
| MultipartBody (boundary : string) (parts : list Part).

(** What the dispatcher does to the outside world, in order. *)
Inductive Event : Type :=
| EvRequest (method url : string) (headers : gmap string string) (body : Body)
| EvSleep (d : Z).

(** [time.Second], in nanoseconds. *)
Definition Second : Z := 1000000000.

(** [time.Second * time.Duration(n)]. *)
Definition seconds (n : Z) : Z := wrap64 (Second * n).

(** ** telegrambot.go: the API object and the world it acts on *)

(** [T] is the state of whatever is behind the pluggable transport. *)
Record API (T : Type) : Type := mkAPI {
  Token : string;
  EndpointURL : string;
  HttpDoRequest :
    string -> string -> gmap string string -> Body -> T -> result string * T
}.
Arguments mkAPI {T} _ _ _.
Arguments Token {T} _.
Arguments EndpointURL {T} _.
Arguments HttpDoRequest {T} _ _ _ _ _ _.

Record World (T : Type) : Type := mkWorld {
  files : Store;
  net : T;
  trace : list Event
}.
Arguments mkWorld {T} _ _ _.
Arguments files {T} _.
Arguments net {T} _.
Arguments trace {T} _.

Definition setFiles {T} (st : Store) (w : World T) : World T :=
  mkWorld st (net w) (trace w).

(** The transport calls of a trace. *)
Definition isRequest (e : Event) : bool :=
  match e with
  | EvRequest _ _ _ _ => true
  | EvSleep _ => false
  end.

Definition requestsOf (tr : list Event) : list Event := filter isRequest tr.

(** ** telegrambot.go: filterInputFilesNeedingUpload *)

(** The [for _, inputFile := range inputFiles] loop; a [nil] interface
    value is [None], and it is the only entry that [inputFile == nil]
    skips. *)
Fixpoint filterLoop (inputFiles : list (option InputFile))
    (filteredInputFiles : list InputFile) (st : Store)
  : outcome (list InputFile * Store) :=
  match inputFiles with
  | [] => Returns (filteredInputFiles, st)
  | None :: rest => filterLoop rest filteredInputFiles st
  | Some inputFile :: rest =>
      called <~ multipartFormFile inputFile st;
      let '((_, _, reader), st1) := called in
      match reader with
      | Some _ => filterLoop rest (filteredInputFiles ++ [inputFile]) st1
      | None => filterLoop rest filteredInputFiles st1
      end
  end.

(** A [nil] slice is [None]. *)
Definition filterInputFilesNeedingUpload
    (inputFiles : option (list (option InputFile))) (st : Store)
  : outcome (option (list InputFile) * Store) :=
  match inputFiles with
  | None => Returns (None, st)
  | Some l =>
      filtered <~ filterLoop l [] st;
      let '(r, st1) := filtered in Returns (Some r, st1)
  end.

(** [len] of a possibly [nil] slice. *)
Definition sliceLen {A} (s : option (list A)) : nat :=
  match s with
  | None => 0%nat
  | Some l => length l
  end.

Definition sliceElems {A} (s : option (list A)) : list A :=
  match s with
  | None => []
  | Some l => l
  end.

(** ** telegrambot.go: the multipart branch of makeAPICall *)

(** [multipart.NewWriter]: the writer gets a fresh random boundary. *)
Definition NewWriter (st : Store) : string * Store :=
  (boundaryOf st (writers st),
   mkStore (heap st) (mathRand st) (randPos st) (boundaryOf st) (S (writers st))).

(** [io.Copy(filew, reader)]: everything the reader yields goes into the
    part; the reader of the file reference is left drained. *)
Definition io_Copy (inputFile : InputFile) (reader : io_Reader) (st : Store)
  : (string * option error) * Store :=
  match reader with
  | mkReader content failure =>
      ((content, failure),
       match inputFile with
       | FileReaderRef p =>
           let fr := heap st !!! p in
           setHeap (<[p := FileReader.mk (FileReader.Name fr)
                             (Some (mkReader "" failure))
                             (FileReader.fieldname fr)]> (heap st)) st
       | _ => st
       end)
  end.

(** The [for _, inputFile := range inputFilesToUpload] loop; [parts] is
    what the writer holds so far. Writing to the in-memory buffer does not
    fail, reading from the caller's reader may. *)
Fixpoint writeFormFiles (inputFilesToUpload : list InputFile)
    (parts : list Part) (st : Store)
  : outcome (result (list Part) * Store) :=
  match inputFilesToUpload with
  | [] => Returns (Ok parts, st)
  | inputFile :: rest =>
      called <~ multipartFormFile inputFile st;
      let '((fieldname, filename, reader), st1) := called in
      match reader with
      | None => Panics "invalid memory address or nil pointer dereference"
      | Some r =>
          let '((content, failure), st2) := io_Copy inputFile r st1 in
          match failure with
          | Some err => Returns (Err (Errorf "makeAPICall: " err), st2)
          | None =>
              writeFormFiles rest (parts ++ [FormFile fieldname filename content]) st2
          end
      end
  end.

Section Dispatcher.

Context {T : Type}.

(** [iter.ReadMapCB] over the JSON with [i.ReadAny().ToString()]: the
    top-level fields with their values as strings, in order. *)
Variable jsonFields : string -> list (string * string).

(** The encoding step: content type and body, or the error returned. *)
Definition encodeRequest {A : Type} {MA : Marshaler A} (requestData : A)
    (inputFiles : option (list (option InputFile))) (st : Store)
  : outcome (result (string * Body) * Store) :=
  let '(marshalled, st1) := jsonMarshal requestData st in
  match marshalled with
  | Err err => Returns (Err (Errorf "makeAPICall: " err), st1)
  | Ok requestDataJSON =>
      filtered <~ filterInputFilesNeedingUpload inputFiles st1;
      let '(inputFilesToUpload, st2) := filtered in
      if decide (sliceLen inputFilesToUpload = 0%nat) then
        Returns (Ok ("application/json", RawBody requestDataJSON), st2)
      else
        let '(boundary, st3) := NewWriter st2 in
        let fields := (fun kv => FormField kv.1 kv.2) <$> jsonFields requestDataJSON in
        written <~ writeFormFiles (sliceElems inputFilesToUpload) fields st3;
        match written with
        | (Err err, st4) => Returns (Err err, st4)
        | (Ok parts, st4) =>
            Returns (Ok ("multipart/form-data; boundary=" +:+ boundary,
                         MultipartBody boundary parts), st4)
        end
  end.

(** The [loop: for { ... }] of makeAPICall. Each iteration issues one
    transport call; [fuel] bounds the iterations of the model only. *)
Fixpoint dispatchLoop (fuel : nat) (api : API T) (reqURL reqContentType : string)
    (reqBody : Body) {R : Type} {UR : Unmarshaler R} (resultDest : R) (w : World T)
  : outcome ((Z * option error) * R * World T) :=
  match fuel with
  | O => Unfinished
  | S fuel' =>
      let headers : gmap string string := {[ "Content-Type" := reqContentType ]} in
      let '(sent, net1) := HttpDoRequest api "POST" reqURL headers reqBody (net w) in
      let w1 := mkWorld (files w) net1
                  (trace w ++ [EvRequest "POST" reqURL headers reqBody]) in
      match sent with
      | Err err => Returns ((0, Some (Errorf "makeAPICall: " err)), resultDest, w1)
      | Ok respBody =>
          let '(decoded, dest1) := jsonUnmarshal respBody resultDest in
          match decoded with
          | Err err => Returns ((0, Some (Errorf "makeAPICall: " err)), dest1, w1)
          | Ok apiResp =>
              let failed :=
                Returns ((0, Some (Errorf "makeAPICall - telegram bot api error: "
                                     (Response.Description apiResp))), dest1, w1) in
              if negb (Response.OK apiResp) then
                match Response.Parameters apiResp with
                | Some apiRespParams =>
                    if decide (ResponseParameters.MigrateToChatID apiRespParams <> 0) then
                      Returns ((ResponseParameters.MigrateToChatID apiRespParams, None),
                               dest1, w1)
                    else if decide (ResponseParameters.RetryAfter apiRespParams <> 0) then
                      dispatchLoop fuel' api reqURL reqContentType reqBody dest1
                        (mkWorld (files w1) (net w1)
                           (trace w1 ++
                            [EvSleep (seconds (ResponseParameters.RetryAfter apiRespParams))]))
                    else failed
                | None => failed
                end
              else Returns ((0, None), dest1, w1)
          end
      end
  end.

Definition makeAPICall (fuel : nat) (api : API T) (method : string)
    {A : Type} {MA : Marshaler A} (requestData : A)
    (inputFiles : option (list (option InputFile)))
    {R : Type} {UR : Unmarshaler R} (resultDest : R) (w : World T)
  : outcome ((Z * option error) * R * World T) :=
  let reqURL := EndpointURL api +:+ Token api +:+ "/" +:+ method in
  encoded <~ encodeRequest requestData inputFiles (files w);
  match encoded with
  | (Err err, st1) => Returns ((0, Some err), resultDest, setFiles st1 w)
  | (Ok (reqContentType, reqBody), st1) =>
      dispatchLoop fuel api reqURL reqContentType reqBody resultDest (setFiles st1 w)
  end.

End Dispatcher.

(** ** The endpoint wrappers used below: SendMessage and GetUpdates *)

(** The implementations of the [ChatIDOrUsername] interface. *)
Inductive ChatIDOrUsername : Type :=
| ChatID (id : Z)
| Username (name : string).

(** [SendMessageParams] ([ReplyMarkup], an interface the wrapper never
    reads, is left out). *)
Module SendMessageParams.
Record t : Type := mk {
  ChatID : ChatIDOrUsername;
  Text : string;
  ParseMode : string;
  Entities : list MessageEntity.t;
  DisableWebPagePreview : bool;
  DisableNotification : bool;
  ProtectContent : bool;
  ReplyToMessageID : Z;
  AllowSendingWithoutReply : bool
}.
(** [params.ChatID = id] *)
Definition setChatID (id : ChatIDOrUsername) (p : t) : t :=
  mk id (Text p) (ParseMode p) (Entities p) (DisableWebPagePreview p)
     (DisableNotification p) (ProtectContent p) (ReplyToMessageID p)
     (AllowSendingWithoutReply p).
End SendMessageParams.

(** [Update]: the sequence identifier and, of the payload variants, the
    message. *)
Module Update.
Record t : Type := mk {
  UpdateID : Z;
  Message : option Message.t
}.
End Update.

Module GetUpdatesParams.
Record t : Type := mk {
  Offset : Z;
  Limit : Z;
  Timeout : Z;
  AllowedUpdates : list string
}.
(** [params.Offset = offset] *)
Definition setOffset (offset : Z) (p : t) : t :=
  mk offset (Limit p) (Timeout p) (AllowedUpdates p).
End GetUpdatesParams.

Section Wrappers.

Context {T : Type}.
Variable jsonFields : string -> list (string * string).
Context {MSend : Marshaler SendMessageParams.t} {UMessage : Unmarshaler Message.t}.
Context {MGet : Marshaler GetUpdatesParams.t} {UUpdates : Unmarshaler (list Update.t)}.

(** [params] is a pointer in the source: the wrapper's assignment to
    [params.ChatID] is visible to the caller, so the parameters come back
    with the result. *)
Definition SendMessage (fuel : nat) (api : API T) (params : SendMessageParams.t)
    (w : World T)
  : outcome ((option Message.t * option error) * SendMessageParams.t * World T) :=
  let msg := Message.zero in
  first <~ makeAPICall jsonFields fuel api "sendMessage" params None msg w;
  let '((migrateToChatID, err), msg1, w1) := first in
  match err with
  | Some e =>
      if decide (migrateToChatID <> 0) then
        let params' := SendMessageParams.setChatID (ChatID migrateToChatID) params in
        second <~ makeAPICall jsonFields fuel api "sendMessage" params' None msg1 w1;
        let '((_, err2), msg2, w2) := second in
        match err2 with
        | Some e2 => Returns ((None, Some (Errorf "SendMessage: " e2)), params', w2)
        | None => Returns ((Some msg2, None), params', w2)
        end
      else Returns ((None, Some (Errorf "SendMessage: " e)), params, w1)
  | None => Returns ((Some msg1, None), params, w1)
  end.

(** A [nil] slice of updates is the empty list. *)
Definition GetUpdates (fuel : nat) (api : API T) (params : GetUpdatesParams.t)
    (w : World T)
  : outcome ((list Update.t * option error) * World T) :=
  let updates : list Update.t := [] in
  called <~ makeAPICall jsonFields fuel api "getUpdates" params None updates w;
  let '((_, err), updates1, w1) := called in
  match err with
  | Some e => Returns (([], Some (Errorf "GetUpdates: " e)), w1)
  | None => Returns ((updates1, None), w1)
  end.

End Wrappers.

(** ** telegrambotTools.go: the update poller *)

(** [updatesSortInterface.Less] *)
Definition updatesLess (a b : Update.t) : bool :=
  bool_decide (Update.UpdateID a < Update.UpdateID b).

(** What the poller owns: its copy of the parameters (the cursor is
    [params.Offset]), the world, the state of the caller's handler, and the
    record of the handler invocations made so far. *)
Record Poller (T H : Type) : Type := mkPoller {
  params : GetUpdatesParams.t;
  world : World T;
  handler : H;
  delivered : list (option Update.t * option error)
}.
Arguments mkPoller {T H} _ _ _ _.
Arguments params {T H} _.
Arguments world {T H} _.
Arguments handler {T H} _.
Arguments delivered {T H} _.

Section UpdatePoller.

Context {T H : Type}.
Variable jsonFields : string -> list (string * string).
Context {MGet : Marshaler GetUpdatesParams.t} {UUpdates : Unmarshaler (list Update.t)}.

(** [sort.Sort] on a slice with the given [Less]. *)
Variable sort_Sort : forall A : Type, (A -> A -> bool) -> list A -> list A.

(** The caller's handler; it gets each update by value. *)
Variable receiver : option Update.t -> option error -> H -> H.

Definition SortUpdates (updates : list Update.t) : list Update.t :=
  sort_Sort Update.t updatesLess updates.

(** [receiver(update, err)] *)
Definition deliver (update : option Update.t) (err : option error)
    (st : Poller T H) : Poller T H :=
  mkPoller (params st) (world st) (receiver update err (handler st))
    (delivered st ++ [(update, err)]).

(** The function handed to [repeater.StartRepeater]: one poll cycle. The
    batch is a list of updates: the elements of the decoded [[]*Update]
    are taken to be non-nil (a JSON null among them, which the code would
    hand to the handler or dereference, is not represented). *)
Definition pollCycle (fuel : nat) (api : API T) (st : Poller T H)
  : outcome (Poller T H) :=
  fetched <~ GetUpdates jsonFields fuel api (params st) (world st);
  let '((updates, err), w1) := fetched in
  let st1 := mkPoller (params st) w1 (handler st) (delivered st) in
  match err with
  | Some e => Returns (deliver None (Some e) st1)
  | None =>
      if decide (length updates = 0%nat) then Returns st1
      else
        let updates' := SortUpdates updates in
        let st2 := foldl (fun s update => deliver (Some update) None s) st1 updates' in
        last <~ indexAt updates' (length updates' - 1);
        Returns (mkPoller
                   (GetUpdatesParams.setOffset (wrap64 (Update.UpdateID last + 1))
                      (params st2))
                   (world st2) (handler st2) (delivered st2))
  end.

(** [repeater.StartRepeater(0, f)] calls [f] again and again until [stop]
    is called: a polling session is [n] consecutive cycles, [n] being the
    number of cycles started before the stop. *)
Fixpoint StartReceivingUpdatesWithParams (n : nat) (fuel : nat) (api : API T) (st : Poller T H)
  : outcome (Poller T H) :=
  match n with
  | O => Returns st
  | S n' =>
      st1 <~ pollCycle fuel api st;
      StartReceivingUpdatesWithParams n' fuel api st1
  end.

End UpdatePoller.

(** ** tools/replyKeyboards.go: keyboards with handlers *)

Module KeyboardButtonPollType.
Record t : Type := mk { Type_ : string }.
End KeyboardButtonPollType.

Module WebAppInfo.
Record t : Type := mk { URL : string }.
End WebAppInfo.

Module KeyboardButton.
Record t : Type := mk {
  Text : string;
  RequestContact : bool;
  RequestLocation : bool;
  RequestPoll : option KeyboardButtonPollType.t;
  WebApp : option WebAppInfo.t
}.
End KeyboardButton.

Module ReplyKeyboardMarkup.
Record t : Type := mk {
  Keyboard : list (list KeyboardButton.t);
  ResizeKeyboard : bool;
  OneTimeKeyboard : bool;
  InputFieldPlaceholder : string;
  Selective : bool
}.
End ReplyKeyboardMarkup.

(** A button of a [ReplyKeyboardHandler]. Its [Handler] is a closure
    [func() error]: it acts on the state [S] of the caller's program; a
    nil function value is [None]. *)
Module ReplyKeyboardHandlerButton.
Record t (S : Type) : Type := mk {
  Text : string;
  Handler : option (S -> option error * S)
}.
Arguments mk {S} _ _.
Arguments Text {S} _.
Arguments Handler {S} _.
End ReplyKeyboardHandlerButton.

Section ReplyKeyboardHandler.

Context {S : Type}.

(** [type ReplyKeyboardHandler [][]ReplyKeyboardHandlerButton] *)
Definition ReplyKeyboardHandler : Type := list (list (ReplyKeyboardHandlerButton.t S)).

(** The inner loop of ReplyMarkupWithOptions: a row of the keyboard. *)
Definition keyboardRowOf (row : list (ReplyKeyboardHandlerButton.t S))
  : list KeyboardButton.t :=
  foldl (fun keyboardRow button =>
           keyboardRow
           ++ [KeyboardButton.mk (ReplyKeyboardHandlerButton.Text button)
                 false false None None])
    [] row.

(** The result is the [*ReplyKeyboardMarkup] returned as a [ReplyMarkup]. *)
Definition ReplyMarkupWithOptions (rkh : ReplyKeyboardHandler)
    (options : ReplyKeyboardMarkup.t) : ReplyKeyboardMarkup.t :=
  let keyboard :=
    foldl (fun keyboard row => keyboard ++ [keyboardRowOf row]) [] rkh in
  ReplyKeyboardMarkup.mk keyboard
    (ReplyKeyboardMarkup.ResizeKeyboard options)
    (ReplyKeyboardMarkup.OneTimeKeyboard options)
    (ReplyKeyboardMarkup.InputFieldPlaceholder options)
    (ReplyKeyboardMarkup.Selective options).

Definition ReplyMarkup (rkh : ReplyKeyboardHandler) : ReplyKeyboardMarkup.t :=
  ReplyMarkupWithOptions rkh (ReplyKeyboardMarkup.mk [] true false "" true).

(** The inner loop of HandleMessageKeyboardButton; [None] when the row is
    finished without a [return]. *)
Fixpoint handleRow (row : list (ReplyKeyboardHandlerButton.t S)) (text : string)
    (s : S) : option (outcome ((bool * option error) * S)) :=
  match row with
  | [] => None
  | button :: rest =>
      if decide (ReplyKeyboardHandlerButton.Text button = text) then
        Some (match ReplyKeyboardHandlerButton.Handler button with
              | Some h => let '(err, s') := h s in Returns ((true, err), s')
              | None => Panics "invalid memory address or nil pointer dereference"
              end)
      else handleRow rest text s
  end.

(** The outer loop. *)
Fixpoint handleRows (rkh : ReplyKeyboardHandler) (text : string) (s : S)
  : option (outcome ((bool * option error) * S)) :=
  match rkh with
  | [] => None
  | row :: rest =>
      match handleRow row text s with
      | Some r => Some r
      | None => handleRows rest text s
      end
  end.

(** [msg] is a pointer that may be nil. *)
Definition HandleMessageKeyboardButton (rkh : ReplyKeyboardHandler)
    (msg : option Message.t) (s : S) : outcome ((bool * option error) * S) :=
  match msg with
  | None => Returns ((false, None), s)
  | Some m =>
      if decide (Message.Text m = "") then Returns ((false, None), s)
      else
        let text := Message.Text m in
        match handleRows rkh text s with
        | Some r => r
        | None => Returns ((false, None), s)
        end
  end.

End ReplyKeyboardHandler.
Arguments ReplyKeyboardHandler S : clear implicits.

(** ** stickers.go: UploadStickerFile *)

Module File.
Record t : Type := mk {
  FileID : string;
  FileUniqueID : string;
  FileSize : Z;
  FilePath : string
}.
Definition zero : t := mk "" "" 0 "".
End File.

(** [PNGSticker] is an [InputFile] interface value, nil when unset. *)
Module UploadStickerFileParams.
Record t : Type := mk {
  UserID : Z;
  PNGSticker : option InputFile
}.
End UploadStickerFileParams.

Section Stickers.

Context {T : Type}.
Variable jsonFields : string -> list (string * string).
Context {MUpload : Marshaler UploadStickerFileParams.t} {UFile : Unmarshaler File.t}.

Definition UploadStickerFile (fuel : nat) (api : API T)
    (params : UploadStickerFileParams.t) (w : World T)
  : outcome ((option File.t * option error) * World T) :=
  let file := File.zero in
  called <~ makeAPICall jsonFields fuel api "answerPreCheckoutQuery" params
              (Some [UploadStickerFileParams.PNGSticker params]) file w;
  let '((_, err), file1, w1) := called in
  match err with
  | Some e => Returns ((None, Some (Errorf "AnswerPreCheckoutQuery: " e)), w1)
  | None => Returns ((Some file1, None), w1)
  end.

End Stickers.

(** * Notions used to state the properties *)

(** The first entity the loop of ParseMessageCommand does not skip: a bot
    command that starts at offset 0. *)
Fixpoint firstBotCommand (textEntities : list MessageEntity.t)
  : option MessageEntity.t :=
  match textEntities with
  | [] => None
  | entity :: rest =>
      if decide (MessageEntity.Type_ entity = MessageEntityTypeBotCommand
                 /\ MessageEntity.Offset entity = 0)
      then Some entity
      else firstBotCommand rest
  end.

(** The part of a command before its ['@'], all of it when there is none. *)
Fixpoint beforeAt (s : string) : string :=
  match s with
  | EmptyString => EmptyString
  | String c s' => if decide (c = "@"%char) then EmptyString else String c (beforeAt s')
  end.

(** The transport answers the request [(url, ct, body)] with a failure
    envelope that carries a non-zero retry-after and no migration, once for
    each element of the list, which collects the retry-after values. The
    relation follows the transport state and the result destination. *)
Inductive retries {T R : Type} {UR : Unmarshaler R} (api : API T)
    (url ct : string) (body : Body) : T -> R -> list Z -> T -> R -> Prop :=
| retries_nil (t : T) (d : R) : retries api url ct body t d [] t d
| retries_cons (t t1 t' : T) (d d1 d' : R) (respBody : string)
    (apiResp : Response.t) (p : ResponseParameters.t) (rs : list Z) :
    HttpDoRequest api "POST" url {[ "Content-Type" := ct ]} body t
      = (Ok respBody, t1) ->
    jsonUnmarshal respBody d = (Ok apiResp, d1) ->
    Response.OK apiResp = false ->
    Response.Parameters apiResp = Some p ->
    ResponseParameters.MigrateToChatID p = 0 ->
    ResponseParameters.RetryAfter p <> 0 ->
    retries api url ct body t1 d1 rs t' d' ->
    retries api url ct body t d (ResponseParameters.RetryAfter p :: rs) t' d'.

(** What a call that is retried after each of [rs] and then answered does
    to the world: a request and a sleep per retry, then the last request. *)
Definition retryTrace (url ct : string) (body : Body) (rs : list Z) : list Event :=
  let request := EvRequest "POST" url {[ "Content-Type" := ct ]} body in
  concat ((fun r => [request; EvSleep (seconds r)]) <$> rs) ++ [request].

(** A file reference that filterInputFilesNeedingUpload keeps: a
    [FileReader] whose [Reader] is not nil. *)
Definition needsUpload (st : Store) (f : InputFile) : bool :=
  match f with
  | FileReaderRef p =>
      match FileReader.Reader (heap st !!! p) with
      | Some _ => true
      | None => false
      end
  | _ => false
  end.

(** The references of a file list that need upload, in order. *)
Definition uploadsOf (st : Store) (inputFiles : option (list (option InputFile)))
  : list InputFile :=
  filter (fun f => needsUpload st f) (omap id (sliceElems inputFiles)).

(** The file list holds a nil [*FileReader]: an entry that is not the nil
    interface, with nothing behind it. *)
Definition holdsNilReader (inputFiles : option (list (option InputFile))) : Prop :=
  Some FileReaderNil ∈ sliceElems inputFiles.

(** The reference is a reader whose stream can be read to its end. *)
Definition readable (h : gmap nat FileReader.t) (f : InputFile) : Prop :=
  exists (p : nat) (content : string),
    f = FileReaderRef p /\
    FileReader.Reader (h !!! p) = Some (mkReader content None).

(** How the encoder may change the file readers: names stay, a field name
    that is set stays, and a reader is either untouched or drained. *)
Definition evolves (h h' : gmap nat FileReader.t) : Prop :=
  forall q : nat,
    FileReader.Name (h' !!! q) = FileReader.Name (h !!! q)
    /\ (FileReader.fieldname (h !!! q) <> "" ->
        FileReader.fieldname (h' !!! q) = FileReader.fieldname (h !!! q))
    /\ (FileReader.Reader (h' !!! q) = FileReader.Reader (h !!! q)
        \/ exists (content : string) (failure : option error),
             FileReader.Reader (h !!! q) = Some (mkReader content failure) /\
             FileReader.Reader (h' !!! q) = Some (mkReader "" failure)).

(** The uses a call makes of one file reader. *)
Inductive FileUse : Type :=
| UseMarshalJSON
| UseMultipartFormFile
| UseCopy.

Inductive UseOutput : Type :=
| JSONOutput (json : string)
| FormOutput (fieldname filename : string) (reader : option io_Reader)
| CopyOutput (content : string) (failure : option error).

Definition runUse (p : nat) (u : FileUse) (st : Store) : UseOutput * Store :=
  match u with
  | UseMarshalJSON =>
      let '((json, _), st1) := MarshalJSON p st in (JSONOutput json, st1)
  | UseMultipartFormFile =>
      let '((fieldname, filename, reader), st1) :=
        FileReader_multipartFormFile p st in
      (FormOutput fieldname filename reader, st1)
  | UseCopy =>
      match FileReader.Reader (heap st !!! p) with
      | Some r =>
          let '((content, failure), st1) := io_Copy (FileReaderRef p) r st in
          (CopyOutput content failure, st1)
      | None => (CopyOutput "" None, st)
      end
  end.

Fixpoint runUses (us : list (nat * FileUse)) (st : Store)
  : list (nat * UseOutput) * Store :=
  match us with
  | [] => ([], st)
  | (p, u) :: rest =>
      let '(out, st1) := runUse p u st in
      let '(outs, st2) := runUses rest st1 in
      ((p, out) :: outs, st2)
  end.

(** The name a use shows: the field name of the form file, or the
    [<name>] of the JSON string ["attach://<name>"]. *)
Definition carriesName (name : string) (out : UseOutput) : Prop :=
  match out with
  | JSONOutput json => json = dquote +:+ "attach://" +:+ name +:+ dquote
  | FormOutput fieldname _ _ => fieldname = name
  | CopyOutput _ _ => True
  end.

(** Projections of an outcome, to state what a call returned or did. *)
Definition encodingOf (o : outcome (result (string * Body) * Store))
  : option (result (string * Body)) :=
  match o with
  | Returns (r, _) => Some r
  | _ => None
  end.

Definition returnedBy {T R X : Type} (o : outcome (X * R * World T)) : option (X * R) :=
  match o with
  | Returns (x, d, _) => Some (x, d)
  | _ => None
  end.

Definition traceOf {T R X : Type} (o : outcome (X * R * World T)) : option (list Event) :=
  match o with
  | Returns (_, _, w) => Some (trace w)
  | _ => None
  end.

(** The cursor of a poller, and the cursor a cycle leaves. *)
Definition cursor {T H : Type} (st : Poller T H) : Z :=
  GetUpdatesParams.Offset (params st).

Definition cursorAfter {T H : Type} (o : outcome (Poller T H)) : option Z :=
  match o with
  | Returns st => Some (cursor st)
  | _ => None
  end.

Definition deliveredBy {T H : Type} (o : outcome (Poller T H))
  : option (list (option Update.t * option error)) :=
  match o with
  | Returns st => Some (delivered st)
  | _ => None
  end.

(** Ascending order of the sequence identifiers, as [Less] decides it. *)
Definition ascending (updates : list Update.t) : Prop :=
  StronglySorted (fun a b => updatesLess b a = false) updates.

(** The provider answered the fetch of [st] with a batch that reaches the
    cursor: one of its identifiers is at least the cursor minus one, and
    all of them are below the largest [int]. *)
Definition reachesCursor {T H : Type} (st : Poller T H) (updates : list Update.t)
  : Prop :=
  (exists u, u ∈ updates /\ cursor st - 1 <= Update.UpdateID u)
  /\ Forall (fun u => minInt <= Update.UpdateID u < maxInt) updates.

(** * Test doubles for the external collaborators *)

Module Fixtures.

(** A transport that plays back a script of responses. *)
Definition scriptedTransport (method url : string) (headers : gmap string string)
    (body : Body) (script : list (result string))
  : result string * list (result string) :=
  match script with
  | [] => (Err "connection refused", [])
  | r :: rest => (r, rest)
  end.

Definition api : API (list (result string)) :=
  mkAPI "TOKEN" "https://api.telegram.org/bot" scriptedTransport.

Fixpoint lookupBody {V : Type} (tbl : list (string * V)) (body : string) : option V :=
  match tbl with
  | [] => None
  | (k, v) :: rest => if decide (k = body) then Some v else lookupBody rest body
  end.

(** A decoder given by a table from response bodies to envelopes and
    decoded results; other bodies are malformed. *)
Definition tableUnmarshal {R : Type} (tbl : list (string * (Response.t * option R)))
  : Unmarshaler R :=
  fun body dest =>
    match lookupBody tbl body with
    | Some (resp, Some r) => (Ok resp, r)
    | Some (resp, None) => (Ok resp, dest)
    | None => (Err "unexpected end of JSON input", dest)
    end.

(** Request data that already is its JSON text. *)
Definition textMarshal : Marshaler string := fun s st => (Ok s, st).

(** A bare file reference as request data: a reader serializes itself
    through MarshalJSON, a nil reader as null, the other two as JSON
    strings. *)
Definition fileMarshal : Marshaler InputFile :=
  fun f st =>
    match f with
    | FileID id => (Ok (dquote +:+ id +:+ dquote), st)
    | FileURL url => (Ok (dquote +:+ url +:+ dquote), st)
    | FileReaderRef p =>
        let '((json, _), st1) := MarshalJSON p st in (Ok json, st1)
    | FileReaderNil => (Ok "null", st)
    end.

Definition sendMessageMarshal : Marshaler SendMessageParams.t :=
  fun p st => (Ok (SendMessageParams.Text p), st).

Definition getUpdatesMarshal : Marshaler GetUpdatesParams.t :=
  fun p st => (Ok "{}", st).

Definition noFields : string -> list (string * string) := fun _ => [].
Definition photoField : string -> list (string * string) :=
  fun json => [("photo", json)].

Definition store : Store :=
  mkStore ∅ (fun n => ascii_of_nat (37 * n + 11)) 0 (fun n => "b0undary") 0.

(** A store with one reader at address 0, its field name not yet set. *)
Definition photoStore : Store :=
  setHeap {[ 0%nat := FileReader.mk "photo.png" (Some (mkReader "PNG" None)) "" ]}
    store.

(** The same reader with no stream behind it. *)
Definition emptyPhotoStore : Store :=
  setHeap {[ 0%nat := FileReader.mk "photo.png" None "" ]} store.

(** The same reader with a stream that breaks after 2 bytes. *)
Definition brokenPhotoStore : Store :=
  setHeap {[ 0%nat := FileReader.mk "photo.png"
                        (Some (mkReader "PN" (Some "unexpected EOF"))) "" ]}
    store.

Definition world (script : list (result string)) : World (list (result string)) :=
  mkWorld store script [].

Definition failure (description : string) (migrate retry : Z) : Response.t :=
  Response.mk false 400 description (Some (ResponseParameters.mk migrate retry)).

Definition success : Response.t := Response.mk true 0 "" None.

Definition hello : Message.t := Message.mk "hello" [] "" [].

(** The responses the message tests decode. *)
Definition messageTable : list (string * (Response.t * option Message.t)) :=
  [ ("migrated", (failure "group migrated" 123 0, None));
    ("migrated+flood", (failure "group migrated" 123 7, None));
    ("flood2", (failure "Too Many Requests" 0 2, None));
    ("flood5", (failure "Too Many Requests" 0 5, None));
    ("sent", (success, Some hello)) ].

Definition sendParams : SendMessageParams.t :=
  SendMessageParams.mk (ChatID 1) "hi" "" [] false false false 0 false.

Definition update (id : Z) : Update.t := Update.mk id None.

Definition updatesTable : list (string * (Response.t * option (list Update.t))) :=
  [ ("534", (success, Some [update 5; update 3; update 4]));
    ("3", (success, Some [update 3]));
    ("none", (success, Some [])) ].

(** A sorting routine to run the poller with: merge sort. *)
Definition sort : forall A : Type, (A -> A -> bool) -> list A -> list A :=
  fun A less =>
    @merge_sort A (fun a b => less b a = false)
      (fun a b => decide (less b a = false)).

(** A handler that counts its invocations. *)
Definition countingReceiver : option Update.t -> option error -> nat -> nat :=
  fun _ _ n => S n.

Definition poller (offset : Z) (script : list (result string))
  : Poller (list (result string)) nat :=
  mkPoller (GetUpdatesParams.mk offset 0 2 ["message"]) (world script) 0%nat [].

(** [/start@mybot hello] with its entities, and the same message with a
    wrong entity length. *)
Definition commandEntities (n : Z) : list MessageEntity.t :=
  [ MessageEntity.mk MessageEntityTypeMention 6 6;
    MessageEntity.mk MessageEntityTypeBotCommand 0 n ].

Definition startMessage (n : Z) : Message.t :=
  Message.mk "/start@mybot hello" (commandEntities n) "" [].

(** The same command as the caption of a message without text. *)
Definition captionedMessage (n : Z) : Message.t :=
  Message.mk "" [] "/start@mybot hello" (commandEntities n).

End Fixtures.

(** * Further notions used to state properties *)

(** The reader at [p] has a stream that ends in the read error [err]. *)
Definition failing (h : gmap nat FileReader.t) (p : nat) (err : error) : Prop :=
  exists content : string,
    FileReader.Reader (h !!! p) = Some (mkReader content (Some err)).

(** The buttons of a keyboard handler in the order the loops visit them. *)
Definition buttonsOf {S : Type} (rkh : ReplyKeyboardHandler S)
  : list (ReplyKeyboardHandlerButton.t S) := concat rkh.

(** No button of the list has the text. *)
Definition noButton {S : Type} (text : string)
    (buttons : list (ReplyKeyboardHandlerButton.t S)) : Prop :=
  Forall (fun b => ReplyKeyboardHandlerButton.Text b <> text) buttons.

(** A message that consists of a text. *)
Definition textMessage (text : string) : Message.t := Message.mk text [] "" [].

(** The updates among handler invocations, in order. *)
Definition updatesDelivered (ds : list (option Update.t * option error))
  : list Update.t :=
  omap fst ds.

(** The URL of an event, when it is a transport call. *)
Definition requestURL (e : Event) : option string :=
  match e with
  | EvRequest _ url _ _ => Some url
  | EvSleep _ => None
  end.

(** The file list holds the reader at [p]. *)
Definition holdsReader (inputFiles : option (list (option InputFile))) (p : nat)
  : Prop :=
  Some (FileReaderRef p) ∈ sliceElems inputFiles.

(** * More test doubles *)

Module MoreFixtures.

(** Envelopes of hard failures, beside the ones of [Fixtures]. *)
Definition errorTable : list (string * (Response.t * option Message.t)) :=
  [ ("blocked", (Response.mk false 403 "Forbidden: bot was blocked by the user" None,
                 None));
    ("bad", (Fixtures.failure "Bad Request: chat not found" 0 0, None));
    ("flood2", (Fixtures.failure "Too Many Requests" 0 2, None));
    ("sent", (Fixtures.success, Some Fixtures.hello)) ].

(** Request data that cannot be marshalled. *)
Definition failingMarshal : Marshaler string :=
  fun _ st => (Err "unsupported type", st).

(** The responses the update tests decode, with a rate limit. *)
Definition updatesTable : list (string * (Response.t * option (list Update.t))) :=
  [ ("flood2", (Fixtures.failure "Too Many Requests" 0 2, None));
    ("534", (Fixtures.success,
             Some [Fixtures.update 5; Fixtures.update 3; Fixtures.update 4])) ].

(** A keyboard whose handlers write to a log; the text [Yes] is on two
    buttons, and [No] answers with an error. *)
Definition logging (entry : string) (err : option error)
  : list string -> option error * list string :=
  fun log => (err, log ++ [entry]).

Definition keyboard : ReplyKeyboardHandler (list string) :=
  [ [ ReplyKeyboardHandlerButton.mk "Yes" (Some (logging "first yes" None));
      ReplyKeyboardHandlerButton.mk "No" (Some (logging "no" (Some "declined"))) ];
    [ ReplyKeyboardHandlerButton.mk "Yes" (Some (logging "second yes" None));
      ReplyKeyboardHandlerButton.mk "" (Some (logging "blank" None)) ] ].

Definition uploadMarshal : Marshaler UploadStickerFileParams.t :=
  fun p st =>
    match UploadStickerFileParams.PNGSticker p with
    | Some f => Fixtures.fileMarshal f st
    | None => (Ok "{}", st)
    end.

Definition fileTable : list (string * (Response.t * option File.t)) :=
  [ ("file", (Fixtures.success, Some (File.mk "AgAD" "AQAD" 512 "stickers/file_1.png")));
    ("rejected", (Response.mk false 400 "Bad Request: query is too old" None, None)) ].

End MoreFixtures.

(** * Properties *)

(** ** Strings *)

Module GoStringsFacts.
Import GoStrings.

Lemma app_cons (c : ascii) (s t : string) :
  String c s +:+ t = String c (s +:+ t).
Proof. reflexivity. Qed.

Lemma string_length_app (s t : string) :
  String.length (s +:+ t) = (String.length s + String.length t)%nat.
Proof. induction s as [|c s IH]; simpl; [done | by rewrite IH]. Qed.

Lemma takeS_app (s t : string) : takeS (String.length s) (s +:+ t) = s.
Proof. induction s as [|c s IH]; simpl; [by destruct t | by rewrite IH]. Qed.

Lemma dropS_app (s t : string) : dropS (String.length s) (s +:+ t) = t.
Proof. induction s as [|c s IH]; simpl; [by destruct t | done]. Qed.

Lemma takeS_all (s : string) : takeS (String.length s) s = s.
Proof. induction s as [|c s IH]; simpl; [done | by rewrite IH]. Qed.

Lemma takeS_all' (n : nat) (s : string) :
  (String.length s <= n)%nat -> takeS n s = s.
Proof.
  revert s; induction n as [|n IH]; intros [|c s]; simpl; intros Hn;
    try done; try lia.
  rewrite IH; [done | lia].
Qed.

Lemma takeS_length (n : nat) (s : string) :
  (n <= String.length s)%nat -> String.length (takeS n s) = n.
Proof.
  revert s; induction n as [|n IH]; intros [|c s]; simpl; intros Hn;
    try done; try lia.
  rewrite IH; [done | lia].
Qed.

Lemma dropS_length (n : nat) (s : string) :
  String.length (dropS n s) = (String.length s - n)%nat.
Proof.
  revert s; induction n as [|n IH]; intros [|c s]; simpl; try done; try lia.
Qed.

Lemma takeS_dropS (n : nat) (s : string) : takeS n s +:+ dropS n s = s.
Proof.
  revert s; induction n as [|n IH]; intros [|c s]; simpl; try done.
  rewrite app_cons. f_equal. apply IH.
Qed.

(** A one-byte separator that does not occur is not found. *)
Lemma indexNat_absent (c : ascii) (s : string) :
  c ∉ list_ascii_of_string s -> indexNat s (String c EmptyString) = None.
Proof.
  induction s as [|d s IH]; simpl; intros Hc; [done|].
  apply not_elem_of_cons in Hc as [Hne Hc].
  destruct (decide (c = d)) as [->|_]; [done|].
  by rewrite IH.
Qed.

(** It is found right after a prefix in which it does not occur. *)
Lemma indexNat_first (c : ascii) (s t : string) :
  c ∉ list_ascii_of_string s ->
  indexNat (s +:+ String c t) (String c EmptyString) = Some (String.length s).
Proof.
  induction s as [|d s IH]; simpl; intros Hc.
  - destruct (decide (c = c)); [by destruct t | done].
  - apply not_elem_of_cons in Hc as [Hne Hc].
    destruct (decide (c = d)) as [->|_]; [done|].
    by rewrite IH.
Qed.

(** What [indexNat] finds for a one-byte separator: the prefix before it
    is free of the separator, and the separator sits at that position. *)
Lemma indexNat_Some_inv (c : ascii) (s : string) (m : nat) :
  indexNat s (String c EmptyString) = Some m ->
  (c ∉ list_ascii_of_string (takeS m s)) /\
  s = takeS m s +:+ String c (dropS (S m) s).
Proof.
  revert m; induction s as [|d s IH]; simpl; intros m Hm; [done|].
  destruct (decide (c = d)) as [->|Hne].
  - destruct s; simplify_eq/=; split; (done || apply not_elem_of_nil).
  - destruct (indexNat s (String c EmptyString)) as [k|] eqn:Hk;
      simplify_eq/=.
    destruct (IH k eq_refl) as [Hnot Heq]. split.
    + apply not_elem_of_cons; done.
    + rewrite app_cons. f_equal. exact Heq.
Qed.

Lemma indexNat_None_inv (c : ascii) (s : string) :
  indexNat s (String c EmptyString) = None -> c ∉ list_ascii_of_string s.
Proof.
  induction s as [|d s IH]; simpl; intros Hm; [apply not_elem_of_nil|].
  destruct (decide (c = d)) as [->|Hne]; [by destruct s|].
  destruct (indexNat s (String c EmptyString)) eqn:Hk; simplify_eq/=.
  apply not_elem_of_cons; split; [done | by apply IH].
Qed.

Lemma slice_in_range (s : string) (lo hi : Z) :
  0 <= lo -> lo <= hi -> hi <= len s ->
  slice s lo hi = Returns (takeS (Z.to_nat (hi - lo)) (dropS (Z.to_nat lo) s)).
Proof. intros. unfold slice. by rewrite bool_decide_eq_true_2. Qed.

Lemma slice_out_of_range (s : string) (lo hi : Z) :
  hi > len s -> slice s lo hi = Panics "slice bounds out of range".
Proof. intros. unfold slice. rewrite bool_decide_eq_false_2; [done | lia]. Qed.

Lemma genSplit_loop_S (k : nat) (s sep : string) :
  genSplit_loop (S k) s sep =
  match indexNat s sep with
  | None => [s]
  | Some m => takeS m s :: genSplit_loop k (dropS (m + String.length sep) s) sep
  end.
Proof. reflexivity. Qed.

Lemma dropS_app_cons (c : ascii) (s t : string) (k : nat) :
  dropS (String.length s + S k) (s +:+ String c t) = dropS k t.
Proof. induction s as [|d s IH]; simpl; done. Qed.

(** One cut at a separator byte that does not occur before it. *)
Lemma genSplit_loop_cut (c : ascii) (s t : string) :
  c ∉ list_ascii_of_string s ->
  genSplit_loop 1 (s +:+ String c t) (String c EmptyString) = [s; t].
Proof.
  intros Hc. rewrite genSplit_loop_S, (indexNat_first _ _ _ Hc), takeS_app.
  simpl String.length. rewrite dropS_app_cons. done.
Qed.

(** With [n = 2] the string is cut at most once. *)
Lemma SplitN_two (s sep : string) :
  SplitN s sep 2 =
  match s with
  | EmptyString => [s]
  | String _ _ => genSplit_loop 1 s sep
  end.
Proof.
  unfold SplitN, len.
  destruct s as [|c s]; simpl String.length; repeat case_decide; try lia; done.
Qed.

End GoStringsFacts.

(** ** Callback data *)

Example CompileCbQryData_example :
  CompileCbQryData "buy" "42" = "buy" +:+ NUL +:+ "42" /\
  CompileCbQryData "buy" "" = "buy" /\
  DecompileCbQryData ("buy" +:+ NUL +:+ "4" +:+ NUL +:+ "2")
    = Returns ("buy", "4" +:+ NUL +:+ "2").
Proof. repeat split; vm_compute; reflexivity. Qed.

(** C9. For a [command] without the byte 0 and any [args], decompiling
    the compiled callback data returns exactly [(command, args)], without
    panic; this includes [args = ""], where the compiled data is the bare
    command. *)
Theorem CbQryData_roundtrip (command args : string) :
  Ascii.zero ∉ list_ascii_of_string command ->
  DecompileCbQryData (CompileCbQryData command args) = Returns (command, args)
  /\ (args = "" -> CompileCbQryData command args = command).
Proof.
  intros Hnul. split; [|intros ->; done].
  unfold CompileCbQryData, DecompileCbQryData, NUL.
  rewrite GoStringsFacts.SplitN_two.
  destruct (decide (args = "")) as [->|Hargs].
  - destruct command as [|c command]; [done|].
    rewrite GoStringsFacts.genSplit_loop_S.
    by rewrite (GoStringsFacts.indexNat_absent _ _ Hnul).
  - change (String Ascii.zero EmptyString +:+ args) with (String Ascii.zero args).
    destruct (command +:+ String Ascii.zero args) as [|c0 s0] eqn:Hs.
    { by destruct command. }
    rewrite <- Hs. clear Hs c0 s0.
    by rewrite (GoStringsFacts.genSplit_loop_cut _ _ _ Hnul).
Qed.

Lemma CbQryData_roundtrip_witness :
  (Ascii.zero ∉ list_ascii_of_string "page") /\
  DecompileCbQryData (CompileCbQryData "page" "2:next") = Returns ("page", "2:next").
Proof.
  assert (Hnul : Ascii.zero ∉ list_ascii_of_string "page").
  { simpl. rewrite !not_elem_of_cons. repeat split; try done.
    apply not_elem_of_nil. }
  split; [exact Hnul|].
  exact (proj1 (CbQryData_roundtrip "page" "2:next" Hnul)).
Defined.

(** ** ParseMessageCommand *)

Lemma indexNat_unfold (s substr : string) :
  GoStrings.indexNat s substr =
  if GoStrings.HasPrefix s substr then Some 0%nat
  else match s with
       | EmptyString => None
       | String _ s' => S <$> GoStrings.indexNat s' substr
       end.
Proof. by destruct s. Qed.

Lemma indexNat_bound (s sep : string) (m : nat) :
  GoStrings.indexNat s sep = Some m -> (m <= String.length s)%nat.
Proof.
  revert m; induction s as [|c s IH]; intros m; rewrite indexNat_unfold;
    destruct (GoStrings.HasPrefix _ sep); intros Hm; simplify_eq/=; try lia.
  destruct (GoStrings.indexNat s sep) as [k|]; simplify_eq/=.
  specialize (IH k eq_refl). lia.
Qed.

(** Cutting at [strings.Index(command, "@")] keeps the part before the
    first ['@']. *)
Lemma beforeAt_indexNat (s : string) :
  beforeAt s =
  match GoStrings.indexNat s "@" with
  | Some m => GoStrings.takeS m s
  | None => s
  end.
Proof.
  induction s as [|c s IH]; [done|].
  simpl. destruct (decide ("@"%char = c)) as [<-|Hne].
  - rewrite decide_True by done. by destruct s.
  - rewrite decide_False by done. rewrite IH.
    by destruct (GoStrings.indexNat s "@").
Qed.

Lemma beforeAt_no_at (s : string) : "@"%char ∉ list_ascii_of_string (beforeAt s).
Proof.
  induction s as [|c s IH]; simpl; [apply not_elem_of_nil|].
  destruct (decide (c = "@"%char)); simpl; [apply not_elem_of_nil|].
  apply not_elem_of_cons. by split.
Qed.

Section ParseMessageCommandFacts.

Variable TrimSpace : string -> string.

(** The loop acts on the first bot command at offset 0 and on nothing
    else. *)
Lemma commandLoop_first (text : string) (textEntities : list MessageEntity.t) :
  commandLoop TrimSpace text textEntities =
  match firstBotCommand textEntities with
  | None => Returns ("", "")
  | Some entity =>
      command <~ GoStrings.slice text 1 (MessageEntity.Length entity);
      tail <~ GoStrings.sliceFrom text (MessageEntity.Length entity);
      Returns (beforeAt command, TrimSpace tail)
  end.
Proof.
  induction textEntities as [|e rest IH]; [done|].
  simpl. destruct (decide (MessageEntity.Type_ e = MessageEntityTypeBotCommand
                           /\ MessageEntity.Offset e = 0)) as [[Ht Ho]|Hno].
  - rewrite decide_False by (intros [?|?]; done).
    destruct (GoStrings.slice text 1 (MessageEntity.Length e)) as [command| |] eqn:Hc;
      simpl; try done.
    rewrite beforeAt_indexNat. unfold GoStrings.Index.
    destruct (GoStrings.indexNat command "@") as [m|] eqn:Hm.
    + rewrite decide_True by lia.
      unfold GoStrings.sliceTo.
      rewrite GoStringsFacts.slice_in_range;
        [| lia | lia | apply indexNat_bound in Hm; unfold GoStrings.len; lia].
      simpl. by rewrite Z.sub_0_r, Nat2Z.id.
    + rewrite decide_False by lia. done.
  - rewrite decide_True; [exact IH|].
    destruct (decide (MessageEntity.Type_ e = MessageEntityTypeBotCommand));
      destruct (decide (MessageEntity.Offset e = 0)); tauto.
Qed.

(** C10. ParseMessageCommand slices the text of the message with its
    entities, or, for a message without text, the caption with the
    caption entities, by the declared [Length] of the first bot-command
    entity at offset 0, without checking it. When
    [1 <= Length <= len(text)] the call returns: the command is the text
    between the leading byte and [Length], cut before its ['@'] if it has
    one (and the arguments are the trimmed rest). When [Length] exceeds
    the length of the text the slice expression is out of range and the
    call panics. *)
Theorem ParseMessageCommand_bounds (msg : Message.t) (text : string)
    (textEntities : list MessageEntity.t) (entity : MessageEntity.t) :
  (Message.Text msg <> ""
   /\ text = Message.Text msg /\ textEntities = Message.Entities msg)
  \/ (Message.Text msg = "" /\ Message.Caption msg <> ""
      /\ text = Message.Caption msg
      /\ textEntities = Message.CaptionEntities msg) ->
  firstBotCommand textEntities = Some entity ->
  let n := MessageEntity.Length entity in
  (1 <= n <= GoStrings.len text ->
     ParseMessageCommand TrimSpace msg =
       Returns (beforeAt (GoStrings.takeS (Z.to_nat (n - 1)) (GoStrings.dropS 1 text)),
                TrimSpace (GoStrings.dropS (Z.to_nat n) text))
     /\ ("@"%char ∉ list_ascii_of_string
           (beforeAt (GoStrings.takeS (Z.to_nat (n - 1)) (GoStrings.dropS 1 text)))))
  /\ (n > GoStrings.len text ->
        GoStrings.slice text 1 n = Panics "slice bounds out of range"
        /\ GoStrings.sliceFrom text n = Panics "slice bounds out of range"
        /\ ParseMessageCommand TrimSpace msg = Panics "slice bounds out of range").
Proof.
  intros Hsource Hfirst n.
  assert (Htext : commandText msg = Some (text, textEntities)).
  { unfold commandText.
    destruct Hsource as [(Ht & -> & ->) | (Ht & Hc & -> & ->)].
    - by rewrite decide_True.
    - rewrite decide_False by (by intros ?). by rewrite decide_True. }
  unfold ParseMessageCommand.
  rewrite Htext, commandLoop_first, Hfirst. fold n. split.
  - intros [Hlo Hhi]. split; [|apply beforeAt_no_at].
    unfold GoStrings.sliceFrom.
    rewrite !GoStringsFacts.slice_in_range by lia. simpl.
    do 3 f_equal.
    rewrite GoStringsFacts.takeS_all'; [done|].
    rewrite GoStringsFacts.dropS_length. unfold GoStrings.len in *. lia.
  - intros Hbig.
    assert (Hs : GoStrings.slice text 1 n = Panics "slice bounds out of range")
      by (by apply GoStringsFacts.slice_out_of_range).
    assert (Hf : GoStrings.sliceFrom text n = Panics "slice bounds out of range").
    { unfold GoStrings.sliceFrom, GoStrings.slice.
      rewrite bool_decide_eq_false_2; [done | lia]. }
    by rewrite Hs.
Qed.

End ParseMessageCommandFacts.

Example ParseMessageCommand_example :
  ParseMessageCommand id (Fixtures.startMessage 12) = Returns ("start", " hello")
  /\ ParseMessageCommand id (Fixtures.startMessage 6) = Returns ("start", "@mybot hello")
  /\ ParseMessageCommand id (Fixtures.startMessage 0) = Panics "slice bounds out of range"
  /\ ParseMessageCommand id (Fixtures.startMessage 19) = Panics "slice bounds out of range"
  /\ ParseMessageCommand id Message.zero = Returns ("", "").
Proof. repeat split; vm_compute; reflexivity. Qed.

Lemma ParseMessageCommand_bounds_witness :
  ParseMessageCommand id (Fixtures.startMessage 12) = Returns ("start", " hello")
  /\ ParseMessageCommand id (Fixtures.startMessage 19)
     = Panics "slice bounds out of range"
  /\ ParseMessageCommand id (Fixtures.captionedMessage 12)
     = Returns ("start", " hello")
  /\ ParseMessageCommand id (Fixtures.captionedMessage 19)
     = Panics "slice bounds out of range".
Proof.
  assert (Htext : "/start@mybot hello" <> "") by discriminate.
  split; [|split; [|split]].
  - refine (proj1 (proj1 (ParseMessageCommand_bounds id (Fixtures.startMessage 12)
                    _ _ _ (or_introl (conj Htext (conj eq_refl eq_refl)))
                    eq_refl) _)).
    vm_compute. split; discriminate.
  - refine (proj2 (proj2 (proj2 (ParseMessageCommand_bounds id
                    (Fixtures.startMessage 19)
                    _ _ _ (or_introl (conj Htext (conj eq_refl eq_refl)))
                    eq_refl) _))).
    vm_compute. reflexivity.
  - refine (proj1 (proj1 (ParseMessageCommand_bounds id
                    (Fixtures.captionedMessage 12)
                    _ _ _
                    (or_intror (conj eq_refl (conj Htext (conj eq_refl eq_refl))))
                    eq_refl) _)).
    vm_compute. split; discriminate.
  - refine (proj2 (proj2 (proj2 (ParseMessageCommand_bounds id
                    (Fixtures.captionedMessage 19)
                    _ _ _
                    (or_intror (conj eq_refl (conj Htext (conj eq_refl eq_refl))))
                    eq_refl) _))).
    vm_compute. reflexivity.
Defined.

(** ** The dispatch loop *)

Lemma seconds_exact (r : Z) :
  -9223372036 <= r <= 9223372036 -> seconds r = r * Second.
Proof.
  intros Hr. unfold seconds, wrap64, Second.
  rewrite Z.mod_small by lia. lia.
Qed.

Lemma requestsOf_app (tr1 tr2 : list Event) :
  requestsOf (tr1 ++ tr2) = requestsOf tr1 ++ requestsOf tr2.
Proof. unfold requestsOf. apply filter_app. Qed.

Lemma requestsOf_retryTrace (url ct : string) (body : Body) (rs : list Z) :
  requestsOf (retryTrace url ct body rs)
  = replicate (S (length rs)) (EvRequest "POST" url {[ "Content-Type" := ct ]} body).
Proof.
  unfold retryTrace. rewrite requestsOf_app.
  induction rs as [|r rs IH]; [done|].
  rewrite fmap_cons. cbn [concat]. rewrite requestsOf_app.
  rewrite <- app_assoc, IH. done.
Qed.

Section DispatcherFacts.

Context {T R : Type} {UR : Unmarshaler R}.
Variable jsonFields : string -> list (string * string).

(** One iteration that receives a migration: the loop returns at once. *)
Lemma dispatchLoop_migration (fuel : nat) (api : API T) (url ct : string)
    (body : Body) (dest dest1 : R) (w : World T) (respBody : string) (t1 : T)
    (apiResp : Response.t) (p : ResponseParameters.t) :
  HttpDoRequest api "POST" url {[ "Content-Type" := ct ]} body (net w)
    = (Ok respBody, t1) ->
  jsonUnmarshal respBody dest = (Ok apiResp, dest1) ->
  Response.OK apiResp = false ->
  Response.Parameters apiResp = Some p ->
  ResponseParameters.MigrateToChatID p <> 0 ->
  dispatchLoop (S fuel) api url ct body dest w =
    Returns ((ResponseParameters.MigrateToChatID p, None), dest1,
             mkWorld (files w) t1
               (trace w ++ [EvRequest "POST" url {[ "Content-Type" := ct ]} body])).
Proof.
  intros Hsend Hdec Hok Hpar Hmig. simpl.
  rewrite Hsend, Hdec, Hok, Hpar. simpl.
  by rewrite decide_True.
Qed.

(** One iteration that receives a retry-after: sleep, then the same loop
    with the same request. *)
Lemma dispatchLoop_retry (fuel : nat) (api : API T) (url ct : string)
    (body : Body) (dest dest1 : R) (w : World T) (respBody : string) (t1 : T)
    (apiResp : Response.t) (p : ResponseParameters.t) :
  HttpDoRequest api "POST" url {[ "Content-Type" := ct ]} body (net w)
    = (Ok respBody, t1) ->
  jsonUnmarshal respBody dest = (Ok apiResp, dest1) ->
  Response.OK apiResp = false ->
  Response.Parameters apiResp = Some p ->
  ResponseParameters.MigrateToChatID p = 0 ->
  ResponseParameters.RetryAfter p <> 0 ->
  dispatchLoop (S fuel) api url ct body dest w =
    dispatchLoop fuel api url ct body dest1
      (mkWorld (files w) t1
         (trace w ++ [EvRequest "POST" url {[ "Content-Type" := ct ]} body;
                      EvSleep (seconds (ResponseParameters.RetryAfter p))])).
Proof.
  intros Hsend Hdec Hok Hpar Hmig Hretry. simpl.
  rewrite Hsend, Hdec, Hok, Hpar. simpl.
  rewrite decide_False by (by intros ?).
  rewrite decide_True by done.
  by rewrite <- app_assoc.
Qed.

(** One iteration that receives a success envelope. *)
Lemma dispatchLoop_success (fuel : nat) (api : API T) (url ct : string)
    (body : Body) (dest dest1 : R) (w : World T) (respBody : string) (t1 : T)
    (apiResp : Response.t) :
  HttpDoRequest api "POST" url {[ "Content-Type" := ct ]} body (net w)
    = (Ok respBody, t1) ->
  jsonUnmarshal respBody dest = (Ok apiResp, dest1) ->
  Response.OK apiResp = true ->
  dispatchLoop (S fuel) api url ct body dest w =
    Returns ((0, None), dest1,
             mkWorld (files w) t1
               (trace w ++ [EvRequest "POST" url {[ "Content-Type" := ct ]} body])).
Proof.
  intros Hsend Hdec Hok. simpl.
  by rewrite Hsend, Hdec, Hok.
Qed.

(** A run of retries followed by a success, from any world. *)
Lemma dispatchLoop_retries (api : API T) (url ct : string) (body : Body)
    (rs : list Z) (t t1 t2 : T) (d d1 d2 : R) (respBody : string)
    (apiResp : Response.t) :
  retries api url ct body t d rs t1 d1 ->
  HttpDoRequest api "POST" url {[ "Content-Type" := ct ]} body t1
    = (Ok respBody, t2) ->
  jsonUnmarshal respBody d1 = (Ok apiResp, d2) ->
  Response.OK apiResp = true ->
  forall (fuel : nat) (st : Store) (tr : list Event),
    (length rs < fuel)%nat ->
    dispatchLoop fuel api url ct body d (mkWorld st t tr) =
      Returns ((0, None), d2, mkWorld st t2 (tr ++ retryTrace url ct body rs)).
Proof.
  intros Hrun Hsend Hdec Hok.
  induction Hrun as [t d | t t1 t' d d1 d' rb resp p rs Hs Hd Ho Hp Hm Hr Hrun IH];
    intros fuel st tr Hfuel.
  - destruct fuel as [|fuel]; [simpl in Hfuel; lia|].
    by rewrite (dispatchLoop_success fuel api url ct body d d2 _ respBody t2 apiResp).
  - destruct fuel as [|fuel]; [simpl in Hfuel; lia|].
    rewrite (dispatchLoop_retry fuel api url ct body d d1 _ rb t1 resp p)
      by done.
    simpl files. simpl trace.
    rewrite (IH Hsend Hdec) by (simpl in Hfuel; lia).
    unfold retryTrace. simpl. by rewrite <- !app_assoc.
Qed.

Context {A : Type} {MA : Marshaler A}.

(** C1. When the response to the request is a failure envelope whose
    parameters carry a non-zero migrate-to-chat identifier (whatever its
    retry-after is, zero or not), makeAPICall returns that identifier with
    a nil error, after exactly one transport call and without sleeping. *)
Theorem makeAPICall_migration (fuel : nat) (api : API T) (method : string)
    (requestData : A) (inputFiles : option (list (option InputFile)))
    (resultDest dest1 : R) (w : World T) (ct : string) (body : Body)
    (st1 : Store) (respBody : string) (t1 : T) (apiResp : Response.t)
    (p : ResponseParameters.t) :
  let url := EndpointURL api +:+ Token api +:+ "/" +:+ method in
  let request := EvRequest "POST" url {[ "Content-Type" := ct ]} body in
  encodeRequest jsonFields requestData inputFiles (files w)
    = Returns (Ok (ct, body), st1) ->
  HttpDoRequest api "POST" url {[ "Content-Type" := ct ]} body (net w)
    = (Ok respBody, t1) ->
  jsonUnmarshal respBody resultDest = (Ok apiResp, dest1) ->
  Response.OK apiResp = false ->
  Response.Parameters apiResp = Some p ->
  ResponseParameters.MigrateToChatID p <> 0 ->
  makeAPICall jsonFields (S fuel) api method requestData inputFiles resultDest w
    = Returns ((ResponseParameters.MigrateToChatID p, None), dest1,
               mkWorld st1 t1 (trace w ++ [request]))
  /\ length (requestsOf (trace w ++ [request]))
     = S (length (requestsOf (trace w))).
Proof.
  intros url request Henc Hsend Hdec Hok Hpar Hmig. split.
  - unfold makeAPICall. rewrite Henc. simpl obind. fold url.
    apply (dispatchLoop_migration fuel api url ct body resultDest dest1
             (setFiles st1 w) respBody t1 apiResp p); done.
  - rewrite requestsOf_app, length_app. simpl. lia.
Qed.

(** C2. When the request is answered by failure envelopes without
    migration and with non-zero retry-after values [rs], and then by a
    success envelope, makeAPICall sleeps [time.Second * r] after each of
    them and sends the request again, with the content type and body that
    were encoded once before the loop; however long [rs] is, it then
    returns [(0, nil)] with the result decoded from the last response. *)
Theorem makeAPICall_retry_after (api : API T) (method : string)
    (requestData : A) (inputFiles : option (list (option InputFile)))
    (resultDest d1 d2 : R) (w : World T) (ct : string) (body : Body)
    (st1 : Store) (rs : list Z) (t1 t2 : T) (respBody : string)
    (apiResp : Response.t) :
  let url := EndpointURL api +:+ Token api +:+ "/" +:+ method in
  encodeRequest jsonFields requestData inputFiles (files w)
    = Returns (Ok (ct, body), st1) ->
  retries api url ct body (net w) resultDest rs t1 d1 ->
  HttpDoRequest api "POST" url {[ "Content-Type" := ct ]} body t1
    = (Ok respBody, t2) ->
  jsonUnmarshal respBody d1 = (Ok apiResp, d2) ->
  Response.OK apiResp = true ->
  forall fuel : nat,
    (length rs < fuel)%nat ->
    makeAPICall jsonFields fuel api method requestData inputFiles resultDest w
      = Returns ((0, None), d2,
                 mkWorld st1 t2 (trace w ++ retryTrace url ct body rs))
    /\ requestsOf (retryTrace url ct body rs)
       = replicate (S (length rs))
           (EvRequest "POST" url {[ "Content-Type" := ct ]} body)
    /\ (forall r, r ∈ rs -> -9223372036 <= r <= 9223372036 ->
          seconds r = r * Second).
Proof.
  intros url Henc Hrun Hsend Hdec Hok fuel Hfuel.
  split; [|split].
  - unfold makeAPICall. rewrite Henc. simpl obind. fold url.
    unfold setFiles.
    by apply (dispatchLoop_retries api url ct body rs (net w) t1 t2
                resultDest d1 d2 respBody apiResp).
  - apply requestsOf_retryTrace.
  - intros r _ Hr. by apply seconds_exact.
Qed.

End DispatcherFacts.

Lemma makeAPICall_migration_witness :
  makeAPICall (MA := Fixtures.textMarshal)
    (UR := Fixtures.tableUnmarshal Fixtures.messageTable)
    Fixtures.noFields 1 Fixtures.api "sendMessage" "{}" None Message.zero
    (Fixtures.world [Ok "migrated+flood"; Ok "sent"])
  = Returns ((123, None), Message.zero,
             mkWorld Fixtures.store [Ok "sent"]
               [EvRequest "POST" "https://api.telegram.org/botTOKEN/sendMessage"
                  {[ "Content-Type" := "application/json" ]} (RawBody "{}")]).
Proof.
  refine (proj1 (makeAPICall_migration
    (UR := Fixtures.tableUnmarshal Fixtures.messageTable)
    Fixtures.noFields (MA := Fixtures.textMarshal)
    0 Fixtures.api "sendMessage" "{}" None Message.zero Message.zero
    (Fixtures.world [Ok "migrated+flood"; Ok "sent"])
    "application/json" (RawBody "{}") Fixtures.store "migrated+flood"
    [Ok "sent"] (Fixtures.failure "group migrated" 123 7)
    (ResponseParameters.mk 123 7) _ _ _ _ _ _)).
  - reflexivity.
  - reflexivity.
  - reflexivity.
  - reflexivity.
  - reflexivity.
  - simpl. lia.
Defined.

(** The scripted run of the specification: retry-after 2, then success. *)
Lemma makeAPICall_retry_after_witness :
  makeAPICall (MA := Fixtures.textMarshal)
    (UR := Fixtures.tableUnmarshal Fixtures.messageTable)
    Fixtures.noFields 2 Fixtures.api "sendMessage" "{}" None Message.zero
    (Fixtures.world [Ok "flood2"; Ok "sent"])
  = Returns ((0, None), Fixtures.hello,
             mkWorld Fixtures.store []
               [EvRequest "POST" "https://api.telegram.org/botTOKEN/sendMessage"
                  {[ "Content-Type" := "application/json" ]} (RawBody "{}");
                EvSleep 2000000000;
                EvRequest "POST" "https://api.telegram.org/botTOKEN/sendMessage"
                  {[ "Content-Type" := "application/json" ]} (RawBody "{}")]).
Proof.
  refine (proj1 (makeAPICall_retry_after
    (UR := Fixtures.tableUnmarshal Fixtures.messageTable)
    Fixtures.noFields (MA := Fixtures.textMarshal)
    Fixtures.api "sendMessage" "{}" None Message.zero Message.zero Fixtures.hello
    (Fixtures.world [Ok "flood2"; Ok "sent"])
    "application/json" (RawBody "{}") Fixtures.store [2] [Ok "sent"] []
    "sent" Fixtures.success _ _ _ _ _ 2%nat _)).
  - reflexivity.
  - refine (retries_cons (UR := Fixtures.tableUnmarshal Fixtures.messageTable)
      Fixtures.api _ _ _ [Ok "flood2"; Ok "sent"] [Ok "sent"] [Ok "sent"]
      Message.zero Message.zero Message.zero "flood2"
      (Fixtures.failure "Too Many Requests" 0 2) (ResponseParameters.mk 0 2) []
      _ _ _ _ _ _ _); try reflexivity.
    + simpl. lia.
    + apply retries_nil.
  - reflexivity.
  - reflexivity.
  - reflexivity.
  - simpl. lia.
Defined.

(** ** The SendMessage wrapper *)

Section WrapperFacts.

Context {T : Type}.
Variable jsonFields : string -> list (string * string).

(** The loop never returns an error together with a migration. *)
Lemma dispatchLoop_error_zero {R : Type} {UR : Unmarshaler R} (fuel : nat)
    (api : API T) (url ct : string) (body : Body) (dest d' : R) (w w' : World T)
    (id : Z) (e : error) :
  dispatchLoop fuel api url ct body dest w = Returns ((id, Some e), d', w') ->
  id = 0.
Proof.
  revert dest w. induction fuel as [|fuel IH]; intros dest w; simpl; [done|].
  destruct (HttpDoRequest api "POST" url _ body (net w)) as [[respBody|err] net1];
    [|intros; by simplify_eq].
  destruct (jsonUnmarshal respBody dest) as [[apiResp|err] dest1];
    [|intros; by simplify_eq].
  destruct (Response.OK apiResp); simpl; [intros; by simplify_eq|].
  destruct (Response.Parameters apiResp) as [p|]; [|intros; by simplify_eq].
  destruct (decide (ResponseParameters.MigrateToChatID p <> 0));
    [intros; by simplify_eq|].
  destruct (decide (ResponseParameters.RetryAfter p <> 0));
    [apply IH | intros; by simplify_eq].
Qed.

Lemma makeAPICall_error_zero {A R : Type} {MA : Marshaler A} {UR : Unmarshaler R}
    (fuel : nat) (api : API T) (method : string) (requestData : A)
    (inputFiles : option (list (option InputFile))) (dest d' : R)
    (w w' : World T) (id : Z) (e : error) :
  makeAPICall jsonFields fuel api method requestData inputFiles dest w
    = Returns ((id, Some e), d', w') ->
  id = 0.
Proof.
  unfold makeAPICall.
  destruct (encodeRequest jsonFields requestData inputFiles (files w))
    as [[[[ct body]|err] st1]| |]; simpl; try done.
  - apply dispatchLoop_error_zero.
  - intros; by simplify_eq.
Qed.

Context {MSend : Marshaler SendMessageParams.t} {UMessage : Unmarshaler Message.t}.

(** The branch of SendMessage that reissues the call is never taken: it
    is guarded by [err != nil], and a migration comes with a nil error. *)
Lemma SendMessage_single_call (fuel : nat) (api : API T)
    (params : SendMessageParams.t) (w : World T) :
  SendMessage jsonFields fuel api params w =
  (first <~ makeAPICall jsonFields fuel api "sendMessage" params None Message.zero w;
   match first with
   | ((_, Some e), _, w1) => Returns ((None, Some (Errorf "SendMessage: " e)), params, w1)
   | ((_, None), msg1, w1) => Returns ((Some msg1, None), params, w1)
   end).
Proof.
  unfold SendMessage.
  destruct (makeAPICall jsonFields fuel api "sendMessage" params None Message.zero w)
    as [[[[id [e|]] msg1] w1]| |] eqn:Hcall; simpl; try done.
  apply makeAPICall_error_zero in Hcall as ->.
  by rewrite decide_False by (by intros ?).
Qed.

(** C3 (what the code does). When the response to sendMessage signals a
    migration, SendMessage returns the message as it stands after that
    response with a nil error: the parameters keep their chat identifier
    and the transport was called once; the call is not reissued. *)
Theorem SendMessage_migration_not_reissued (fuel : nat) (api : API T)
    (params : SendMessageParams.t) (w : World T) (ct : string) (body : Body)
    (st1 : Store) (respBody : string) (t1 : T) (apiResp : Response.t)
    (dest1 : Message.t) (p : ResponseParameters.t) :
  let url := EndpointURL api +:+ Token api +:+ "/" +:+ "sendMessage" in
  let request := EvRequest "POST" url {[ "Content-Type" := ct ]} body in
  encodeRequest jsonFields params None (files w) = Returns (Ok (ct, body), st1) ->
  HttpDoRequest api "POST" url {[ "Content-Type" := ct ]} body (net w)
    = (Ok respBody, t1) ->
  jsonUnmarshal respBody Message.zero = (Ok apiResp, dest1) ->
  Response.OK apiResp = false ->
  Response.Parameters apiResp = Some p ->
  ResponseParameters.MigrateToChatID p <> 0 ->
  SendMessage jsonFields (S fuel) api params w
    = Returns ((Some dest1, None), params, mkWorld st1 t1 (trace w ++ [request])).
Proof.
  intros url request Henc Hsend Hdec Hok Hpar Hmig.
  subst url request.
  rewrite SendMessage_single_call.
  unfold makeAPICall. rewrite Henc. cbn [obind].
  by rewrite (dispatchLoop_migration fuel api _ ct body Message.zero dest1
                (setFiles st1 w) respBody t1 apiResp p).
Qed.

End WrapperFacts.

(** The chat 1 has migrated to 123 and the provider would accept the
    message there: SendMessage stops after the first response. *)
Lemma SendMessage_migration_not_reissued_witness :
  SendMessage (MSend := Fixtures.sendMessageMarshal)
    (UMessage := Fixtures.tableUnmarshal Fixtures.messageTable)
    Fixtures.noFields 5 Fixtures.api Fixtures.sendParams
    (Fixtures.world [Ok "migrated"; Ok "sent"])
  = Returns ((Some Message.zero, None), Fixtures.sendParams,
             mkWorld Fixtures.store [Ok "sent"]
               [EvRequest "POST" "https://api.telegram.org/botTOKEN/sendMessage"
                  {[ "Content-Type" := "application/json" ]} (RawBody "hi")]).
Proof.
  refine (SendMessage_migration_not_reissued Fixtures.noFields
    (MSend := Fixtures.sendMessageMarshal)
    (UMessage := Fixtures.tableUnmarshal Fixtures.messageTable)
    4 Fixtures.api Fixtures.sendParams
    (Fixtures.world [Ok "migrated"; Ok "sent"])
    "application/json" (RawBody "hi") Fixtures.store "migrated" [Ok "sent"]
    (Fixtures.failure "group migrated" 123 0) Message.zero
    (ResponseParameters.mk 123 0) _ _ _ _ _ _); try reflexivity.
  simpl. lia.
Defined.

(** ** File readers and their field names *)

Lemma hex_EncodeToString_length (b : list ascii) :
  String.length (hex_EncodeToString b) = (2 * length b)%nat.
Proof. induction b as [|c b IH]; simpl; [done | rewrite IH; lia]. Qed.

Lemma rand_Read_length (n : nat) (st : Store) : length (rand_Read n st).1 = n.
Proof. unfold rand_Read. simpl. by rewrite length_fmap, length_seq. Qed.

Lemma generated_name_nonempty (st : Store) :
  hex_EncodeToString (rand_Read 6 st).1 <> "".
Proof.
  intros Heq. apply (f_equal String.length) in Heq.
  rewrite hex_EncodeToString_length, rand_Read_length in Heq. done.
Qed.

(** A field name that is set is left alone. *)
Lemma checkFieldname_set (p : nat) (st : Store) :
  FileReader.fieldname (heap st !!! p) <> "" -> checkFieldname p st = st.
Proof. intros Hset. unfold checkFieldname. by rewrite decide_True. Qed.

(** A field name that is not set is generated from 6 random bytes. *)
Lemma checkFieldname_unset (p : nat) (st : Store) :
  FileReader.fieldname (heap st !!! p) = "" ->
  FileReader.fieldname (heap (checkFieldname p st) !!! p)
    = hex_EncodeToString (rand_Read 6 st).1
  /\ randPos (checkFieldname p st) = (randPos st + 6)%nat.
Proof.
  intros Hunset. unfold checkFieldname.
  rewrite decide_False by (by intros ?). simpl.
  by rewrite lookup_total_insert_eq.
Qed.

Lemma checkFieldname_named (p : nat) (st : Store) :
  FileReader.fieldname (heap (checkFieldname p st) !!! p) <> "".
Proof.
  destruct (decide (FileReader.fieldname (heap st !!! p) = "")) as [He|Hne].
  - destruct (checkFieldname_unset p st He) as [-> _].
    apply generated_name_nonempty.
  - by rewrite checkFieldname_set.
Qed.

Lemma checkFieldname_frame (p : nat) (st : Store) :
  boundaryOf (checkFieldname p st) = boundaryOf st
  /\ writers (checkFieldname p st) = writers st
  /\ mathRand (checkFieldname p st) = mathRand st
  /\ forall q, FileReader.Reader (heap (checkFieldname p st) !!! q)
               = FileReader.Reader (heap st !!! q).
Proof.
  unfold checkFieldname.
  destruct (decide (FileReader.fieldname (heap st !!! p) <> "")); [done|].
  simpl. repeat split. intros q.
  destruct (decide (p = q)) as [->|Hne].
  - by rewrite lookup_total_insert_eq.
  - by rewrite lookup_total_insert_ne.
Qed.

Lemma evolves_refl (h : gmap nat FileReader.t) : evolves h h.
Proof. intros q. auto. Qed.

Lemma evolves_trans (h1 h2 h3 : gmap nat FileReader.t) :
  evolves h1 h2 -> evolves h2 h3 -> evolves h1 h3.
Proof.
  intros H12 H23 q.
  destruct (H12 q) as (Hn1 & Hf1 & Hr1), (H23 q) as (Hn2 & Hf2 & Hr2).
  split; [congruence|]. split.
  - intros Hset. rewrite Hf2; [by apply Hf1|]. rewrite Hf1; done.
  - destruct Hr1 as [Hr1|(c1 & f1 & Ha1 & Hb1)];
      destruct Hr2 as [Hr2|(c2 & f2 & Ha2 & Hb2)].
    + left. congruence.
    + right. exists c2, f2. split; congruence.
    + right. exists c1, f1. split; congruence.
    + right. exists c1, f1. split; [done|]. rewrite Hb2. congruence.
Qed.

Lemma checkFieldname_evolves (p : nat) (st : Store) :
  evolves (heap st) (heap (checkFieldname p st)).
Proof.
  intros q. unfold checkFieldname.
  destruct (decide (FileReader.fieldname (heap st !!! p) <> "")) as [|Hunset];
    [auto|].
  simpl. destruct (decide (p = q)) as [->|Hne].
  - rewrite lookup_total_insert_eq. simpl. split; [done|]. split; [|by left].
    intros Hset. by destruct Hunset.
  - rewrite lookup_total_insert_ne by done. auto.
Qed.

Lemma io_Copy_evolves (p : nat) (r : io_Reader) (st : Store) :
  FileReader.Reader (heap st !!! p) = Some r ->
  evolves (heap st) (heap (io_Copy (FileReaderRef p) r st).2).
Proof.
  intros Hr q. destruct r as [content failure]. simpl.
  destruct (decide (p = q)) as [->|Hne].
  - rewrite lookup_total_insert_eq. simpl. split; [done|]. split; [done|].
    right. by exists content, failure.
  - rewrite lookup_total_insert_ne by done. auto.
Qed.

Lemma runUse_evolves (p : nat) (u : FileUse) (st : Store) :
  evolves (heap st) (heap (runUse p u st).2).
Proof.
  destruct u; simpl.
  - apply checkFieldname_evolves.
  - apply checkFieldname_evolves.
  - destruct (FileReader.Reader (heap st !!! p)) as [r|] eqn:Hr;
      [|apply evolves_refl].
    pose proof (io_Copy_evolves p r st Hr) as Hev.
    by destruct (io_Copy (FileReaderRef p) r st) as [[content failure] st1].
Qed.

Lemma runUses_evolves (us : list (nat * FileUse)) (st : Store) :
  evolves (heap st) (heap (runUses us st).2).
Proof.
  revert st. induction us as [|[p u] us IH]; intros st; simpl;
    [apply evolves_refl|].
  pose proof (runUse_evolves p u st) as H1.
  destruct (runUse p u st) as [out st1]. simpl in H1.
  pose proof (IH st1) as H2.
  destruct (runUses us st1) as [outs st2]. simpl in *.
  by eapply evolves_trans.
Qed.

(** What one use shows is the field name the reader has afterwards, and
    that name is set. *)
Lemma runUse_name (p : nat) (u : FileUse) (st : Store) :
  carriesName (FileReader.fieldname (heap (runUse p u st).2 !!! p)) (runUse p u st).1
  /\ (u <> UseCopy -> FileReader.fieldname (heap (runUse p u st).2 !!! p) <> "").
Proof.
  destruct u; simpl.
  - split; [done|]. intros _. apply checkFieldname_named.
  - split; [done|]. intros _. apply checkFieldname_named.
  - split; [|done].
    destruct (FileReader.Reader (heap st !!! p)) as [r|]; [|done].
    by destruct (io_Copy (FileReaderRef p) r st) as [[content failure] st1].
Qed.

Lemma readable_evolves (h h' : gmap nat FileReader.t) (f : InputFile) :
  evolves h h' -> readable h f -> readable h' f.
Proof.
  intros Hev (p & content & -> & Hr).
  destruct (Hev p) as (_ & _ & [Hsame|(c & fl & Ha & Hb)]).
  - exists p, content. split; [done | congruence].
  - exists p, "". split; [done|]. rewrite Hb. congruence.
Qed.

(** The form-file parts written for the references to upload: one per
    reference, in order, under the field name the reader keeps. *)
Lemma writeFormFiles_parts (uploads : list InputFile) (parts parts' : list Part)
    (st st' : Store) :
  writeFormFiles uploads parts st = Returns (Ok parts', st') ->
  evolves (heap st) (heap st')
  /\ boundaryOf st' = boundaryOf st /\ writers st' = writers st
  /\ exists fileParts : list Part,
       parts' = parts ++ fileParts
       /\ Forall2 (fun f part =>
            exists (p : nat) (content : string),
              f = FileReaderRef p
              /\ part = FormFile (FileReader.fieldname (heap st' !!! p))
                          (FileReader.Name (heap st' !!! p)) content
              /\ FileReader.fieldname (heap st' !!! p) <> "")
          uploads fileParts.
Proof.
  revert parts st. induction uploads as [|f uploads IH]; intros parts st; simpl.
  - intros [= <- <-]. split; [apply evolves_refl|]. do 2 (split; [done|]).
    exists []. split; [by rewrite app_nil_r | constructor].
  - destruct f as [id|url|p|]; simpl; try done.
    destruct (FileReader.Reader (heap (checkFieldname p st) !!! p)) as [r|] eqn:Hr;
      [|done].
    pose proof (io_Copy_evolves p r (checkFieldname p st) Hr) as Hcopy.
    assert (Hframe : boundaryOf (io_Copy (FileReaderRef p) r (checkFieldname p st)).2
                     = boundaryOf st
                     /\ writers (io_Copy (FileReaderRef p) r (checkFieldname p st)).2
                        = writers st).
    { destruct r; simpl. destruct (checkFieldname_frame p st) as (-> & -> & _). done. }
    destruct (io_Copy (FileReaderRef p) r (checkFieldname p st))
      as [[content [err|]] st2]; [done|].
    simpl in Hcopy, Hframe. intros Hrest.
    destruct (IH _ _ Hrest) as (Hev & Hb & Hw & fileParts & -> & Hall).
    assert (Hev1 : evolves (heap (checkFieldname p st)) (heap st'))
      by (by eapply evolves_trans).
    split; [eapply evolves_trans; [apply checkFieldname_evolves | done]|].
    destruct Hframe as [Hb2 Hw2].
    split; [congruence|]. split; [congruence|].
    exists (FormFile (FileReader.fieldname (heap (checkFieldname p st) !!! p))
              (FileReader.Name (heap (checkFieldname p st) !!! p)) content
            :: fileParts).
    split; [by rewrite <- app_assoc|].
    constructor; [|done].
    exists p, content. destruct (Hev1 p) as (Hname & Hfield & _).
    pose proof (checkFieldname_named p st) as Hnamed.
    rewrite Hname, (Hfield Hnamed). done.
Qed.

(** When every reference to upload can be read, the parts are written. *)
Lemma writeFormFiles_readable (uploads : list InputFile) (parts : list Part)
    (st : Store) :
  Forall (readable (heap st)) uploads ->
  exists (parts' : list Part) (st' : Store),
    writeFormFiles uploads parts st = Returns (Ok parts', st').
Proof.
  revert parts st. induction uploads as [|f uploads IH]; intros parts st Hall;
    simpl; [by eexists _, _|].
  apply Forall_cons in Hall as [Hf Hall].
  destruct Hf as (p & content & -> & Hr). simpl.
  destruct (checkFieldname_frame p st) as (_ & _ & _ & Hsame).
  rewrite Hsame, Hr. simpl.
  apply IH.
  eapply Forall_impl; [exact Hall|]. intros f Hf.
  eapply readable_evolves; [|exact Hf].
  eapply evolves_trans; [apply checkFieldname_evolves|].
  apply (io_Copy_evolves p (mkReader content None)). by rewrite Hsame.
Qed.

(** C5. Whatever uses a call makes of its file readers, in whatever
    order (MarshalJSON while the parameters are serialized,
    multipartFormFile while the files are filtered and again when the
    parts are written, the copy of the stream), every use of a reader
    shows one and the same name, the field name memoized in the reader:
    the JSON is the string ["attach://<name>"] and the form file has the
    field name [<name>]. The name is generated on the first use, from 6
    random bytes as 12 hex digits, and later uses neither generate again
    nor change it; the form-file parts written by makeAPICall carry it. *)
Theorem FileReader_attach_name :
  (forall (us : list (nat * FileUse)) (st : Store) (p : nat) (out : UseOutput),
     (p, out) ∈ (runUses us st).1 ->
     carriesName (FileReader.fieldname (heap (runUses us st).2 !!! p)) out)
  /\ (forall (p : nat) (st : Store),
        let '((json, _), st1) := MarshalJSON p st in
        let '((fieldname, _, _), st2) := FileReader_multipartFormFile p st1 in
        json = dquote +:+ "attach://" +:+ fieldname +:+ dquote
        /\ fieldname <> "" /\ st2 = st1
        /\ multipartFormFile (FileReaderRef p) st1
           = Returns (FileReader_multipartFormFile p st1))
  /\ (forall (p : nat) (st : Store),
        FileReader.fieldname (heap st !!! p) = "" ->
        FileReader.fieldname (heap (checkFieldname p st) !!! p)
          = hex_EncodeToString (rand_Read 6 st).1
        /\ String.length (FileReader.fieldname (heap (checkFieldname p st) !!! p))
           = 12%nat
        /\ randPos (checkFieldname p st) = (randPos st + 6)%nat)
  /\ (forall (p : nat) (st : Store),
        FileReader.fieldname (heap st !!! p) <> "" -> checkFieldname p st = st)
  /\ (forall (uploads : list InputFile) (parts parts' : list Part) (st st' : Store),
        writeFormFiles uploads parts st = Returns (Ok parts', st') ->
        exists fileParts : list Part,
          parts' = parts ++ fileParts
          /\ Forall2 (fun f part =>
               exists (p : nat) (content : string),
                 f = FileReaderRef p
                 /\ part = FormFile (FileReader.fieldname (heap st' !!! p))
                             (FileReader.Name (heap st' !!! p)) content
                 /\ (MarshalJSON p st').1.1
                    = dquote +:+ "attach://"
                        +:+ FileReader.fieldname (heap st' !!! p) +:+ dquote)
             uploads fileParts).
Proof.
  split; [|split; [|split; [|split]]].
  - intros us. induction us as [|[q u] us IH]; intros st p out; simpl.
    { intros Hin. by apply elem_of_nil in Hin. }
    pose proof (runUse_name q u st) as [Hcarry Hset].
    destruct (runUse q u st) as [out1 st1] eqn:Hrun. simpl in Hcarry, Hset.
    pose proof (runUses_evolves us st1) as Hev.
    specialize (IH st1).
    destruct (runUses us st1) as [outs st2]. simpl in *.
    intros Hin. apply elem_of_cons in Hin as [[= -> ->]|Hin]; [|by apply IH].
    destruct (Hev q) as (_ & Hfield & _).
    destruct u; try (by rewrite (Hfield (Hset ltac:(done)))).
    simpl in Hrun.
    destruct (FileReader.Reader (heap st !!! q)) as [r|];
      [destruct (io_Copy (FileReaderRef q) r st) as [[c fl] st0]|];
      by simplify_eq.
  - intros p st. simpl.
    pose proof (checkFieldname_named p st) as Hnamed.
    rewrite (checkFieldname_set p (checkFieldname p st) Hnamed). done.
  - intros p st Hunset.
    destruct (checkFieldname_unset p st Hunset) as [Hname Hpos].
    split; [done|]. split; [|done].
    by rewrite Hname, hex_EncodeToString_length, rand_Read_length.
  - apply checkFieldname_set.
  - intros uploads parts parts' st st' Hwrite.
    destruct (writeFormFiles_parts _ _ _ _ _ Hwrite)
      as (_ & _ & _ & fileParts & -> & Hall).
    exists fileParts. split; [done|].
    eapply Forall2_impl; [exact Hall|].
    intros f part (p & content & -> & -> & Hnamed).
    exists p, content. split; [done|]. split; [done|].
    simpl. by rewrite (checkFieldname_set p st' Hnamed).
Qed.

(** ** The choice of the encoding *)

Lemma needsUpload_ext (st st' : Store) (f : InputFile) :
  (forall q, FileReader.Reader (heap st' !!! q) = FileReader.Reader (heap st !!! q)) ->
  needsUpload st' f = needsUpload st f.
Proof. intros Hsame. destruct f as [id|url|p|]; simpl; try done. by rewrite Hsame. Qed.

(** A call of the method on a reference that is not a nil reader returns:
    a reader gets its field name, nothing else changes. *)
Lemma multipartFormFile_returns (f : InputFile) (st : Store) :
  f <> FileReaderNil ->
  exists st1 : Store,
    multipartFormFile f st
      = Returns ((FileReader.fieldname
                    (match f with FileReaderRef p => heap st1 !!! p
                                | _ => FileReader.zero end),
                  FileReader.Name
                    (match f with FileReaderRef p => heap st1 !!! p
                                | _ => FileReader.zero end),
                  if needsUpload st f
                  then match f with
                       | FileReaderRef p => FileReader.Reader (heap st !!! p)
                       | _ => None
                       end
                  else None), st1)
    /\ evolves (heap st) (heap st1)
    /\ (forall q, FileReader.Reader (heap st1 !!! q)
                  = FileReader.Reader (heap st !!! q))
    /\ boundaryOf st1 = boundaryOf st /\ writers st1 = writers st.
Proof.
  intros Hlive. destruct f as [id|url|p|]; simpl; [| | |done].
  - exists st. split; [done|]. split; [apply evolves_refl | done].
  - exists st. split; [done|]. split; [apply evolves_refl | done].
  - exists (checkFieldname p st). unfold FileReader_multipartFormFile.
    destruct (checkFieldname_frame p st) as (Hb & Hw & _ & Hr).
    split; [|split; [apply checkFieldname_evolves | done]].
    rewrite Hr. by destruct (FileReader.Reader (heap st !!! p)).
Qed.

(** The filter keeps, in order, the non-nil entries that are readers with
    a stream; nil entries and the other references are skipped. On the
    way each reader met gets its field name; nothing else changes. This
    is for a list without a nil reader. *)
Lemma filterLoop_spec (l : list (option InputFile)) (acc : list InputFile)
    (st : Store) :
  Some FileReaderNil ∉ l ->
  exists st' : Store,
    filterLoop l acc st
      = Returns (acc ++ filter (fun f => needsUpload st f) (omap id l), st')
    /\ evolves (heap st) (heap st')
    /\ (forall q, FileReader.Reader (heap st' !!! q) = FileReader.Reader (heap st !!! q))
    /\ boundaryOf st' = boundaryOf st
    /\ writers st' = writers st.
Proof.
  revert acc st. induction l as [|[f|] l IH]; intros acc st Hlive.
  - exists st. simpl. rewrite app_nil_r. split; [done|].
    split; [apply evolves_refl | done].
  - apply not_elem_of_cons in Hlive as [Hf Hlive].
    destruct (multipartFormFile_returns f st) as (st1 & Hcall & Hev1 & Hr1 & Hb1 & Hw1);
      [congruence|].
    change (filterLoop (Some f :: l) acc st)
      with (called <~ multipartFormFile f st;
            let '((_, _, reader), st1) := called in
            match reader with
            | Some _ => filterLoop l (acc ++ [f]) st1
            | None => filterLoop l acc st1
            end).
    rewrite Hcall. cbn [obind].
    assert (Hfilter : filter (fun f => needsUpload st1 f) (omap id l)
                      = filter (fun f => needsUpload st f) (omap id l)).
    { apply list_filter_iff. intros g. by rewrite (needsUpload_ext st st1 g Hr1). }
    change (omap id (Some f :: l)) with (f :: omap id l).
    destruct (needsUpload st f) eqn:Hneed.
    + assert (Hsome : exists r, match f with
                                | FileReaderRef p => FileReader.Reader (heap st !!! p)
                                | _ => None
                                end = Some r).
      { destruct f as [id|url|p|]; simpl in Hneed; try done.
        destruct (FileReader.Reader (heap st !!! p)) as [r|]; [by exists r | done]. }
      destruct Hsome as [r ->].
      destruct (IH (acc ++ [f]) st1 Hlive) as (st' & Hloop & Hev & Hr & Hb & Hw).
      exists st'. rewrite Hloop, Hfilter.
      rewrite filter_cons_True by (cbv beta; by rewrite Hneed).
      split; [by rewrite <- app_assoc|].
      split; [by eapply evolves_trans|].
      split; [intros q; by rewrite Hr, Hr1|]. split; congruence.
    + destruct (IH acc st1 Hlive) as (st' & Hloop & Hev & Hr & Hb & Hw).
      exists st'. rewrite Hloop, Hfilter.
      rewrite filter_cons_False by (rewrite Hneed; simpl; tauto).
      split; [done|].
      split; [by eapply evolves_trans|].
      split; [intros q; by rewrite Hr, Hr1|]. split; congruence.
  - apply not_elem_of_cons in Hlive as [_ Hlive]. simpl. by apply IH.
Qed.

(** A nil reader in the list is not skipped: the loop calls its method,
    which dereferences the nil receiver. *)
Lemma filterLoop_nil_reader (l : list (option InputFile)) (acc : list InputFile)
    (st : Store) :
  Some FileReaderNil ∈ l ->
  filterLoop l acc st = Panics "invalid memory address or nil pointer dereference".
Proof.
  revert acc st. induction l as [|[f|] l IH]; intros acc st Hin.
  - by apply elem_of_nil in Hin.
  - assert (Hcase : f = FileReaderNil \/ f <> FileReaderNil)
      by (destruct f; [right; done..|by left]).
    destruct Hcase as [->|Hf]; [done|].
    apply elem_of_cons in Hin as [Heq|Hin]; [congruence|].
    destruct (multipartFormFile_returns f st Hf) as (st1 & Hcall & _).
    change (filterLoop (Some f :: l) acc st)
      with (called <~ multipartFormFile f st;
            let '((_, _, reader), st1) := called in
            match reader with
            | Some _ => filterLoop l (acc ++ [f]) st1
            | None => filterLoop l acc st1
            end).
    rewrite Hcall. cbn [obind].
    destruct (if needsUpload st f then _ else _); by apply IH.
  - apply elem_of_cons in Hin as [Heq|Hin]; [done|]. simpl. by apply IH.
Qed.

Lemma filterInputFilesNeedingUpload_spec
    (inputFiles : option (list (option InputFile))) (st : Store) :
  ~ holdsNilReader inputFiles ->
  exists (kept : option (list InputFile)) (st' : Store),
    filterInputFilesNeedingUpload inputFiles st = Returns (kept, st')
    /\ sliceElems kept = uploadsOf st inputFiles
    /\ sliceLen kept = length (uploadsOf st inputFiles)
    /\ evolves (heap st) (heap st')
    /\ (forall q, FileReader.Reader (heap st' !!! q) = FileReader.Reader (heap st !!! q))
    /\ boundaryOf st' = boundaryOf st
    /\ writers st' = writers st.
Proof.
  intros Hlive. destruct inputFiles as [l|]; simpl.
  - destruct (filterLoop_spec l [] st Hlive) as (st' & -> & Hev & Hr & Hb & Hw).
    exists (Some (filter (fun f => needsUpload st f) (omap id l))), st'.
    done.
  - exists None, st. unfold uploadsOf. simpl.
    split; [done|]. split; [done|]. split; [done|].
    split; [apply evolves_refl | done].
Qed.

Lemma filterInputFilesNeedingUpload_nil_reader
    (inputFiles : option (list (option InputFile))) (st : Store) :
  holdsNilReader inputFiles ->
  filterInputFilesNeedingUpload inputFiles st
  = Panics "invalid memory address or nil pointer dereference".
Proof.
  intros Hnil. destruct inputFiles as [l|]; simpl.
  - by rewrite (filterLoop_nil_reader l [] st Hnil).
  - by apply elem_of_nil in Hnil.
Qed.

(** Whenever the loop returns, the first thing it did was the transport
    call with the content type and the body it was given. *)
Lemma dispatchLoop_first_request {T R : Type} {UR : Unmarshaler R} (fuel : nat)
    (api : API T) (url ct : string) (body : Body) (dest d' : R) (w w' : World T)
    (r : Z * option error) :
  dispatchLoop fuel api url ct body dest w = Returns (r, d', w') ->
  exists tr : list Event,
    trace w' = trace w ++ EvRequest "POST" url {[ "Content-Type" := ct ]} body :: tr.
Proof.
  assert (Hany : forall fuel dest w,
            dispatchLoop fuel api url ct body dest w = Returns (r, d', w') ->
            exists tr, trace w' = trace w ++ tr).
  { clear fuel dest w. intros fuel.
    induction fuel as [|fuel IH]; intros dest w; simpl; [done|].
    destruct (HttpDoRequest api "POST" url _ body (net w)) as [[respBody|err] net1];
      [|intros [= <- <- <-]; by eexists].
    destruct (jsonUnmarshal respBody dest) as [[apiResp|err] dest1];
      [|intros [= <- <- <-]; by eexists].
    destruct (Response.OK apiResp); simpl; [intros [= <- <- <-]; by eexists|].
    destruct (Response.Parameters apiResp) as [p|];
      [|intros [= <- <- <-]; by eexists].
    destruct (decide (ResponseParameters.MigrateToChatID p <> 0));
      [intros [= <- <- <-]; by eexists|].
    destruct (decide (ResponseParameters.RetryAfter p <> 0));
      [|intros [= <- <- <-]; by eexists].
    intros Hrest. destruct (IH _ _ Hrest) as [tr ->]. simpl.
    rewrite <- !app_assoc. by eexists. }
  destruct fuel as [|fuel]; simpl; [done|].
  destruct (HttpDoRequest api "POST" url _ body (net w)) as [[respBody|err] net1];
    [|intros [= <- <- <-]; by exists []].
  destruct (jsonUnmarshal respBody dest) as [[apiResp|err] dest1];
    [|intros [= <- <- <-]; by exists []].
  destruct (Response.OK apiResp); simpl; [intros [= <- <- <-]; by exists []|].
  destruct (Response.Parameters apiResp) as [p|];
    [|intros [= <- <- <-]; by exists []].
  destruct (decide (ResponseParameters.MigrateToChatID p <> 0));
    [intros [= <- <- <-]; by exists []|].
  destruct (decide (ResponseParameters.RetryAfter p <> 0));
    [|intros [= <- <- <-]; by exists []].
  intros Hrest. destruct (Hany _ _ _ Hrest) as [tr ->]. simpl.
  rewrite <- !app_assoc. simpl. by eexists.
Qed.

Section EncodingFacts.

Context {T A R : Type} {MA : Marshaler A} {UR : Unmarshaler R}.
Variable jsonFields : string -> list (string * string).

(** C4 (as the code has it). Let the request data marshal to [json]
    without error, and call "to upload" the entries of the file list that
    are readers whose [Reader] is not nil. For a list that holds no nil
    [*FileReader]: if there is nothing to upload (the list is nil, or
    holds only nil interface entries, FileID, FileURL, or readers without
    a stream) the request goes out as application/json with [json]
    verbatim, and the nil interface entries are skipped without error; if
    there is at least one reference to upload and all of them can be read
    to their end, the request goes out as multipart/form-data: every JSON
    field as a form field, then one form file per reference to upload, in
    order, under the field name of its reader. In both cases the
    transport call is the first thing the loop does. A nil [*FileReader]
    in the list is not skipped: it is not the nil interface, the filter
    calls its method and the call panics before anything is sent. *)
Theorem encoding_choice (fuel : nat) (api : API T) (method : string)
    (requestData : A) (inputFiles : option (list (option InputFile)))
    (resultDest : R) (w : World T) (json : string) (st1 : Store) :
  jsonMarshal requestData (files w) = (Ok json, st1) ->
  let url := EndpointURL api +:+ Token api +:+ "/" +:+ method in
  let uploads := uploadsOf st1 inputFiles in
  (~ holdsNilReader inputFiles ->
   (uploads = [] ->
      exists st2 : Store,
        encodeRequest jsonFields requestData inputFiles (files w)
          = Returns (Ok ("application/json", RawBody json), st2)
        /\ makeAPICall jsonFields fuel api method requestData inputFiles resultDest w
           = dispatchLoop fuel api url "application/json" (RawBody json)
               resultDest (setFiles st2 w))
   /\ (uploads <> [] -> Forall (readable (heap st1)) uploads ->
       exists (st2 : Store) (fileParts : list Part),
         let boundary := boundaryOf st1 (writers st1) in
         let ct := "multipart/form-data; boundary=" +:+ boundary in
         let body := MultipartBody boundary
                       (((fun kv => FormField kv.1 kv.2) <$> jsonFields json)
                        ++ fileParts) in
         encodeRequest jsonFields requestData inputFiles (files w)
           = Returns (Ok (ct, body), st2)
         /\ Forall2 (fun f part =>
              exists (p : nat) (content : string),
                f = FileReaderRef p
                /\ part = FormFile (FileReader.fieldname (heap st2 !!! p))
                            (FileReader.Name (heap st1 !!! p)) content)
            uploads fileParts
         /\ makeAPICall jsonFields fuel api method requestData inputFiles resultDest w
            = dispatchLoop fuel api url ct body resultDest (setFiles st2 w)))
  /\ (holdsNilReader inputFiles ->
      makeAPICall jsonFields fuel api method requestData inputFiles resultDest w
      = Panics "invalid memory address or nil pointer dereference")
  /\ (forall (ct : string) (body : Body) (dest d' : R) (w0 w' : World T)
             (r : Z * option error),
        dispatchLoop fuel api url ct body dest w0 = Returns (r, d', w') ->
        exists tr : list Event,
          trace w' = trace w0
                     ++ EvRequest "POST" url {[ "Content-Type" := ct ]} body :: tr).
Proof.
  intros Hmarshal url uploads.
  split; [|split].
  2:{ intros Hnil. unfold makeAPICall, encodeRequest. rewrite Hmarshal.
      by rewrite (filterInputFilesNeedingUpload_nil_reader inputFiles st1 Hnil). }
  2:{ intros ct body dest d' w0 w' r. apply dispatchLoop_first_request. }
  intros Hlive.
  destruct (filterInputFilesNeedingUpload_spec inputFiles st1 Hlive)
    as (kept & st2 & Hfilter & Hkept & Hlen & Hev & Hreaders & Hb & Hw).
  fold uploads in Hkept, Hlen.
  split.
  - intros Hnone. exists st2.
    assert (Henc : encodeRequest jsonFields requestData inputFiles (files w)
                   = Returns (Ok ("application/json", RawBody json), st2)).
    { unfold encodeRequest. rewrite Hmarshal, Hfilter. cbn [obind].
      rewrite decide_True; [done|]. by rewrite Hlen, Hnone. }
    split; [exact Henc|]. unfold makeAPICall. by rewrite Henc.
  - intros Hsome Hreadable.
    assert (Hreadable3 : Forall (readable (heap (NewWriter st2).2)) uploads).
    { eapply Forall_impl; [exact Hreadable|]. intros f Hf.
      by apply (readable_evolves (heap st1)). }
    destruct (writeFormFiles_readable uploads
                ((fun kv => FormField kv.1 kv.2) <$> jsonFields json)
                (NewWriter st2).2 Hreadable3) as (parts' & st4 & Hwrite).
    destruct (writeFormFiles_parts _ _ _ _ _ Hwrite)
      as (Hev4 & _ & _ & fileParts & -> & Hall).
    exists st4, fileParts. cbv zeta.
    assert (Henc : encodeRequest jsonFields requestData inputFiles (files w)
                   = Returns (Ok ("multipart/form-data; boundary="
                                    +:+ boundaryOf st1 (writers st1),
                                  MultipartBody (boundaryOf st1 (writers st1))
                                    (((fun kv => FormField kv.1 kv.2)
                                        <$> jsonFields json) ++ fileParts)),
                              st4)).
    { unfold encodeRequest. rewrite Hmarshal, Hfilter. cbn [obind].
      rewrite decide_False.
      2:{ rewrite Hlen. by destruct uploads. }
      unfold NewWriter in *. simpl in Hwrite. rewrite Hkept, Hwrite. simpl.
      by rewrite Hb, Hw. }
    split; [exact Henc|]. split.
    + eapply Forall2_impl; [exact Hall|].
      intros f part (p & content & -> & -> & _).
      exists p, content. split; [done|].
      destruct (Hev4 p) as (Hname4 & _ & _), (Hev p) as (Hname2 & _ & _).
      simpl in Hname4. by rewrite Hname4, Hname2.
    + unfold makeAPICall. by rewrite Henc.
Qed.

End EncodingFacts.

(** A file list that holds a FileReader, and no multipart request: with a
    reader that has no stream the call goes out as application/json, and
    with a reader whose stream breaks the call returns the read error
    without any transport call. And a list without anything to upload
    that is not sent as JSON: its nil [*FileReader] entry is not skipped,
    the call panics. *)
Lemma encoding_choice_counterexample :
  traceOf (makeAPICall (MA := Fixtures.fileMarshal)
             (UR := Fixtures.tableUnmarshal Fixtures.messageTable)
             Fixtures.photoField 1 Fixtures.api "sendPhoto" (FileReaderRef 0)
             (Some [Some (FileReaderRef 0)]) Message.zero
             (mkWorld Fixtures.emptyPhotoStore [Ok "sent"] []))
  = Some [EvRequest "POST" "https://api.telegram.org/botTOKEN/sendPhoto"
            {[ "Content-Type" := "application/json" ]}
            (RawBody (dquote +:+ "attach://0b30557a9fc4" +:+ dquote))]
  /\ returnedBy (makeAPICall (MA := Fixtures.fileMarshal)
                   (UR := Fixtures.tableUnmarshal Fixtures.messageTable)
                   Fixtures.photoField 1 Fixtures.api "sendPhoto" (FileReaderRef 0)
                   (Some [Some (FileReaderRef 0)]) Message.zero
                   (mkWorld Fixtures.brokenPhotoStore [Ok "sent"] []))
     = Some ((0, Some "makeAPICall: unexpected EOF"), Message.zero)
  /\ traceOf (makeAPICall (MA := Fixtures.fileMarshal)
                (UR := Fixtures.tableUnmarshal Fixtures.messageTable)
                Fixtures.photoField 1 Fixtures.api "sendPhoto" (FileReaderRef 0)
                (Some [Some (FileReaderRef 0)]) Message.zero
                (mkWorld Fixtures.brokenPhotoStore [Ok "sent"] []))
     = Some []
  /\ makeAPICall (MA := Fixtures.fileMarshal)
       (UR := Fixtures.tableUnmarshal Fixtures.messageTable)
       Fixtures.photoField 1 Fixtures.api "sendPhoto" (FileID "AgAD")
       (Some [Some (FileID "AgAD"); Some FileReaderNil]) Message.zero
       (mkWorld Fixtures.photoStore [Ok "sent"] [])
     = Panics "invalid memory address or nil pointer dereference".
Proof. repeat split; vm_compute; reflexivity. Qed.

Example encoding_choice_example :
  encodingOf (encodeRequest (MA := Fixtures.fileMarshal) Fixtures.photoField
                (FileReaderRef 0)
                (Some [None; Some (FileReaderRef 0); Some (FileID "AgAD")])
                Fixtures.photoStore)
  = Some (Ok ("multipart/form-data; boundary=b0undary",
              MultipartBody "b0undary"
                [FormField "photo" (dquote +:+ "attach://0b30557a9fc4" +:+ dquote);
                 FormFile "0b30557a9fc4" "photo.png" "PNG"]))
  /\ encodingOf (encodeRequest (MA := Fixtures.fileMarshal) Fixtures.photoField
                   (FileID "AgAD")
                   (Some [None; Some (FileURL "https://t.me/p.png"); Some (FileID "AgAD")])
                   Fixtures.photoStore)
     = Some (Ok ("application/json", RawBody (dquote +:+ "AgAD" +:+ dquote)))
  /\ encodingOf (encodeRequest (MA := Fixtures.textMarshal) Fixtures.noFields
                   "{}" None Fixtures.photoStore)
     = Some (Ok ("application/json", RawBody "{}")).
Proof. repeat split; vm_compute; reflexivity. Qed.

(** ** The update poller *)

Lemma wrap64_in_range (z : Z) : minInt <= z <= maxInt -> wrap64 z = z.
Proof.
  unfold minInt, maxInt, wrap64. intros Hz.
  rewrite Z.mod_small by lia. lia.
Qed.

Lemma updatesLess_false (a b : Update.t) :
  updatesLess b a = false <-> Update.UpdateID a <= Update.UpdateID b.
Proof.
  unfold updatesLess. rewrite bool_decide_eq_false. lia.
Qed.

(** The last element of an ascending list has the largest identifier. *)
Lemma ascending_last (updates : list Update.t) (lastu u : Update.t) :
  ascending updates -> last updates = Some lastu -> u ∈ updates ->
  Update.UpdateID u <= Update.UpdateID lastu.
Proof.
  unfold ascending. induction 1 as [|a l Hsorted IH Hall]; intros Hlast Hin.
  { by apply elem_of_nil in Hin. }
  destruct l as [|b l].
  - simpl in Hlast. simplify_eq. apply list_elem_of_singleton in Hin as ->. lia.
  - assert (Hlast' : last (b :: l) = Some lastu) by done.
    apply elem_of_cons in Hin as [->|Hin]; [|by apply IH].
    rewrite Forall_forall in Hall.
    apply updatesLess_false, Hall.
    rewrite last_lookup in Hlast'. by eapply list_elem_of_lookup_2.
Qed.

Lemma indexAt_last {A : Type} (l : list A) :
  indexAt l (length l - 1) =
  match last l with
  | Some x => Returns x
  | None => Panics "index out of range"
  end.
Proof.
  unfold indexAt. rewrite last_lookup.
  by replace (length l - 1)%nat with (pred (length l)) by lia.
Qed.

Section PollerFacts.

Context {T H : Type}.
Variable jsonFields : string -> list (string * string).
Context {MGet : Marshaler GetUpdatesParams.t} {UUpdates : Unmarshaler (list Update.t)}.
Variable sort_Sort : forall A : Type, (A -> A -> bool) -> list A -> list A.
Variable receiver : option Update.t -> option error -> H -> H.

(** Delivering a list of updates: one handler invocation each, in the
    order of the list, and nothing else changes. *)
Lemma deliver_all (updates : list Update.t) (st : Poller T H) :
  foldl (fun s update => deliver receiver (Some update) None s) st updates
  = mkPoller (params st) (world st)
      (foldl (fun h update => receiver (Some update) None h) (handler st) updates)
      (delivered st ++ ((fun update => (Some update, None)) <$> updates)).
Proof.
  revert st. induction updates as [|u updates IH]; intros st; simpl.
  - rewrite app_nil_r. by destruct st.
  - rewrite IH. simpl. by rewrite <- app_assoc.
Qed.

(** A cycle whose fetch fails. *)
Lemma pollCycle_error (fuel : nat) (api : API T) (st : Poller T H)
    (updates : list Update.t) (e : error) (w1 : World T) :
  GetUpdates jsonFields fuel api (params st) (world st) = Returns ((updates, Some e), w1) ->
  pollCycle jsonFields sort_Sort receiver fuel api st
  = Returns (mkPoller (params st) w1 (receiver None (Some e) (handler st))
               (delivered st ++ [(None, Some e)])).
Proof. intros Hfetch. unfold pollCycle. by rewrite Hfetch. Qed.

(** A cycle whose fetch returns no update. *)
Lemma pollCycle_empty (fuel : nat) (api : API T) (st : Poller T H) (w1 : World T) :
  GetUpdates jsonFields fuel api (params st) (world st) = Returns (([], None), w1) ->
  pollCycle jsonFields sort_Sort receiver fuel api st = Returns (mkPoller (params st) w1 (handler st) (delivered st)).
Proof. intros Hfetch. unfold pollCycle. by rewrite Hfetch. Qed.

(** A cycle whose fetch returns a batch, for a sort that keeps the length. *)
Lemma pollCycle_batch (fuel : nat) (api : API T) (st : Poller T H)
    (updates : list Update.t) (w1 : World T) (lastu : Update.t) :
  GetUpdates jsonFields fuel api (params st) (world st) = Returns ((updates, None), w1) ->
  updates <> [] ->
  last (SortUpdates sort_Sort updates) = Some lastu ->
  pollCycle jsonFields sort_Sort receiver fuel api st
  = Returns (mkPoller
               (GetUpdatesParams.setOffset (wrap64 (Update.UpdateID lastu + 1))
                  (params st))
               w1
               (foldl (fun h update => receiver (Some update) None h) (handler st)
                  (SortUpdates sort_Sort updates))
               (delivered st
                ++ ((fun update => (Some update, None))
                      <$> SortUpdates sort_Sort updates))).
Proof.
  intros Hfetch Hne Hlast. unfold pollCycle. rewrite Hfetch. simpl.
  rewrite decide_False by (by destruct updates).
  rewrite indexAt_last, Hlast. simpl. by rewrite deliver_all.
Qed.

(** C7. A cycle whose fetch fails leaves the cursor where it was and
    hands the error to the handler as [(nil, err)], once. The session
    does not stop there: a session of one cycle ends in the state after
    the error, a session of two cycles ends in whatever the next cycle
    makes of that state (it fetches with the same parameters, in the
    world the failed fetch left), and in general the remaining cycles of
    the session run from that state. *)
Theorem pollCycle_fetch_error (n fuel : nat) (api : API T) (st : Poller T H)
    (updates : list Update.t) (e : error) (w1 : World T) :
  GetUpdates jsonFields fuel api (params st) (world st) = Returns ((updates, Some e), w1) ->
  exists st' : Poller T H,
    pollCycle jsonFields sort_Sort receiver fuel api st = Returns st'
    /\ cursor st' = cursor st
    /\ params st' = params st
    /\ world st' = w1
    /\ delivered st' = delivered st ++ [(None, Some e)]
    /\ handler st' = receiver None (Some e) (handler st)
    /\ StartReceivingUpdatesWithParams jsonFields sort_Sort receiver 1 fuel api st
       = Returns st'
    /\ (forall st'' : Poller T H,
          pollCycle jsonFields sort_Sort receiver fuel api st' = Returns st'' ->
          StartReceivingUpdatesWithParams jsonFields sort_Sort receiver 2 fuel api st
          = Returns st'')
    /\ StartReceivingUpdatesWithParams jsonFields sort_Sort receiver (S n) fuel api st
       = StartReceivingUpdatesWithParams jsonFields sort_Sort receiver n fuel api st'.
Proof.
  intros Hfetch.
  pose proof (pollCycle_error fuel api st updates e w1 Hfetch) as Hcycle.
  eexists. split; [exact Hcycle|].
  do 5 (split; [done|]).
  split; [|split].
  - simpl. by rewrite Hcycle.
  - intros st'' Hnext. simpl. rewrite Hcycle. cbn [obind]. by rewrite Hnext.
  - simpl. by rewrite Hcycle.
Qed.

(** What [sort.Sort] promises: the same elements, in ascending order of
    [Less]. *)
Hypothesis sort_permutation :
  forall updates, sort_Sort Update.t updatesLess updates ≡ₚ updates.
Hypothesis sort_ascending :
  forall updates, ascending (sort_Sort Update.t updatesLess updates).

(** With such a sort, a cycle that fetches a non-empty batch delivers the
    sorted batch and moves the cursor past its largest identifier. *)
Lemma pollCycle_batch_sorted (fuel : nat) (api : API T) (st : Poller T H)
    (updates : list Update.t) (w1 : World T) :
  GetUpdates jsonFields fuel api (params st) (world st)
    = Returns ((updates, None), w1) ->
  updates <> [] ->
  exists lastu : Update.t,
    last (SortUpdates sort_Sort updates) = Some lastu
    /\ lastu ∈ updates
    /\ (forall u, u ∈ updates -> Update.UpdateID u <= Update.UpdateID lastu)
    /\ pollCycle jsonFields sort_Sort receiver fuel api st
       = Returns (mkPoller
                    (GetUpdatesParams.setOffset
                       (wrap64 (Update.UpdateID lastu + 1)) (params st))
                    w1
                    (foldl (fun h update => receiver (Some update) None h)
                       (handler st) (SortUpdates sort_Sort updates))
                    (delivered st
                     ++ ((fun update => (Some update, None))
                           <$> SortUpdates sort_Sort updates))).
Proof.
  intros Hfetch Hne.
  pose proof (sort_permutation updates) as Hperm.
  pose proof (sort_ascending updates) as Hasc.
  destruct (last (SortUpdates sort_Sort updates)) as [lastu|] eqn:Hlast.
  2:{ apply last_None in Hlast. unfold SortUpdates in Hlast.
      rewrite Hlast in Hperm. symmetry in Hperm.
      by apply Permutation_nil_r in Hperm. }
  exists lastu. split; [done|]. split; [|split].
  - rewrite <- Hperm. rewrite last_lookup in Hlast.
    by eapply list_elem_of_lookup_2.
  - intros u Hu. apply (ascending_last (SortUpdates sort_Sort updates)); try done.
    unfold SortUpdates. by rewrite Hperm.
  - by apply pollCycle_batch.
Qed.

(** C6. A cycle that fetches a non-empty batch hands every update of the
    batch to the handler exactly once, in ascending order of the sequence
    identifiers, and then sets the cursor to the identifier of the last
    one delivered, the largest of the batch, plus one (the [int] addition
    of the source, which is the exact sum below the largest [int]). A
    cycle that fetches an empty batch invokes no handler and leaves the
    cursor. *)
Theorem pollCycle_delivers_sorted (fuel : nat) (api : API T) (st : Poller T H)
    (updates : list Update.t) (w1 : World T) :
  GetUpdates jsonFields fuel api (params st) (world st) = Returns ((updates, None), w1) ->
  (updates <> [] ->
     exists (sorted : list Update.t) (lastu : Update.t) (st' : Poller T H),
       pollCycle jsonFields sort_Sort receiver fuel api st = Returns st'
       /\ delivered st'
          = delivered st ++ ((fun update => (Some update, None)) <$> sorted)
       /\ handler st'
          = foldl (fun h update => receiver (Some update) None h) (handler st) sorted
       /\ sorted ≡ₚ updates
       /\ ascending sorted
       /\ last sorted = Some lastu
       /\ (forall u, u ∈ updates -> Update.UpdateID u <= Update.UpdateID lastu)
       /\ cursor st' = wrap64 (Update.UpdateID lastu + 1)
       /\ (minInt <= Update.UpdateID lastu < maxInt ->
           cursor st' = Update.UpdateID lastu + 1))
  /\ (updates = [] ->
      exists st' : Poller T H,
        pollCycle jsonFields sort_Sort receiver fuel api st = Returns st'
        /\ delivered st' = delivered st
        /\ handler st' = handler st
        /\ cursor st' = cursor st).
Proof.
  intros Hfetch. split.
  - intros Hne.
    destruct (pollCycle_batch_sorted fuel api st updates w1 Hfetch Hne)
      as (lastu & Hlast & _ & Hmax & Hcycle).
    exists (SortUpdates sort_Sort updates), lastu. eexists.
    split; [exact Hcycle|].
    split; [done|]. split; [done|]. split; [apply sort_permutation|].
    split; [apply sort_ascending|]. split; [done|]. split; [done|].
    split; [done|]. intros Hrange. unfold cursor. simpl.
    apply wrap64_in_range. unfold minInt, maxInt in *. lia.
  - intros ->. eexists. split; [by apply pollCycle_empty|]. done.
Qed.

(** One cycle does not move the cursor back when its batch reaches the
    cursor. *)
Lemma pollCycle_cursor (fuel : nat) (api : API T) (st st' : Poller T H) :
  (forall updates w1,
     GetUpdates jsonFields fuel api (params st) (world st)
       = Returns ((updates, None), w1) ->
     updates <> [] -> reachesCursor st updates) ->
  pollCycle jsonFields sort_Sort receiver fuel api st = Returns st' ->
  cursor st <= cursor st'.
Proof.
  intros Hreach Hcycle.
  destruct (GetUpdates jsonFields fuel api (params st) (world st))
    as [[[updates [e|]] w1]| |] eqn:Hfetch.
  - rewrite (pollCycle_error fuel api st updates e w1 Hfetch) in Hcycle.
    injection Hcycle as <-. done.
  - destruct (decide (updates = [])) as [->|Hne].
    + rewrite (pollCycle_empty fuel api st w1 Hfetch) in Hcycle.
      injection Hcycle as <-. done.
    + destruct (pollCycle_batch_sorted fuel api st updates w1 Hfetch Hne)
        as (lastu & _ & Hin & Hmax & Hc).
      rewrite Hc in Hcycle. injection Hcycle as <-.
      destruct (Hreach updates w1 eq_refl Hne) as [(u & Hu & Hlow) Hrange].
      pose proof (Hmax u Hu) as Hle.
      rewrite Forall_forall in Hrange. pose proof (Hrange lastu Hin) as Hlast.
      unfold cursor. simpl.
      rewrite wrap64_in_range by (unfold minInt, maxInt in *; lia).
      unfold cursor in Hlow. lia.
  - unfold pollCycle in Hcycle. by rewrite Hfetch in Hcycle.
  - unfold pollCycle in Hcycle. by rewrite Hfetch in Hcycle.
Qed.

(** C8 (as the code has it). The cursor is assigned, never compared: in
    a session it does not decrease as long as every non-empty batch
    reaches the cursor of the cycle that fetched it (what holds when the
    provider only returns updates at or after the offset it was asked
    for, with identifiers below the largest [int]). Then the cursor after
    each cycle is at least the cursor before it, and so is the cursor at
    the end of the session with respect to its start. *)
Theorem cursor_never_decreases (n fuel : nat) (api : API T) (st st' : Poller T H) :
  (forall (k : nat) (stk : Poller T H) (updates : list Update.t) (w1 : World T),
     (k < n)%nat ->
     StartReceivingUpdatesWithParams jsonFields sort_Sort receiver k fuel api st = Returns stk ->
     GetUpdates jsonFields fuel api (params stk) (world stk)
       = Returns ((updates, None), w1) ->
     updates <> [] -> reachesCursor stk updates) ->
  StartReceivingUpdatesWithParams jsonFields sort_Sort receiver n fuel api st = Returns st' ->
  cursor st <= cursor st'
  /\ (forall (k : nat) (stk stk' : Poller T H),
        (k < n)%nat ->
        StartReceivingUpdatesWithParams jsonFields sort_Sort receiver k fuel api st = Returns stk ->
        pollCycle jsonFields sort_Sort receiver fuel api stk = Returns stk' ->
        cursor stk <= cursor stk').
Proof.
  intros Hreach Hsession. split.
  - revert st Hreach Hsession. induction n as [|n IH]; intros st Hreach Hsession.
    { simpl in Hsession. injection Hsession as <-. done. }
    simpl in Hsession.
    destruct (pollCycle jsonFields sort_Sort receiver fuel api st)
      as [st1| |] eqn:Hcycle; try done.
    simpl in Hsession.
    assert (H1 : cursor st <= cursor st1).
    { apply (pollCycle_cursor fuel api st st1); [|done].
      intros updates w1 Hfetch Hne.
      apply (Hreach 0%nat st updates w1); [lia | done | done | done]. }
    assert (H2 : cursor st1 <= cursor st').
    { apply (IH st1); [|done].
      intros k stk updates w1 Hk Hprefix Hfetch Hne.
      apply (Hreach (S k) stk updates w1); [lia | | done | done].
      simpl. by rewrite Hcycle. }
    lia.
  - intros k stk stk' Hk Hprefix Hcycle.
    apply (pollCycle_cursor fuel api stk stk'); [|done].
    intros updates w1 Hfetch Hne. by apply (Hreach k stk updates w1).
Qed.

End PollerFacts.

(** The test sort meets the promise of [sort.Sort]. *)
Lemma fixture_sort_permutation (updates : list Update.t) :
  Fixtures.sort Update.t updatesLess updates ≡ₚ updates.
Proof. apply merge_sort_Permutation. Qed.

Lemma fixture_sort_ascending (updates : list Update.t) :
  ascending (Fixtures.sort Update.t updatesLess updates).
Proof.
  unfold ascending, Fixtures.sort.
  apply @StronglySorted_merge_sort.
  - intros a b c. rewrite !updatesLess_false. lia.
  - intros a b. rewrite !updatesLess_false. lia.
Qed.

(** The example of the specification: the batch [5, 3, 4] is delivered as
    3, 4, 5 and the cursor becomes 6. *)
Example pollCycle_example :
  deliveredBy (pollCycle (MGet := Fixtures.getUpdatesMarshal)
                 (UUpdates := Fixtures.tableUnmarshal Fixtures.updatesTable)
                 Fixtures.noFields Fixtures.sort Fixtures.countingReceiver
                 3 Fixtures.api (Fixtures.poller 0 [Ok "534"]))
  = Some [(Some (Fixtures.update 3), None); (Some (Fixtures.update 4), None);
          (Some (Fixtures.update 5), None)]
  /\ cursorAfter (pollCycle (MGet := Fixtures.getUpdatesMarshal)
                    (UUpdates := Fixtures.tableUnmarshal Fixtures.updatesTable)
                    Fixtures.noFields Fixtures.sort Fixtures.countingReceiver
                    3 Fixtures.api (Fixtures.poller 0 [Ok "534"]))
     = Some 6.
Proof. split; vm_compute; reflexivity. Qed.

(** A batch that lies below the cursor moves the cursor back: from 10,
    the batch [3] leaves it at 4. *)
Lemma cursor_never_decreases_counterexample :
  cursor (Fixtures.poller 10 [Ok "3"]) = 10
  /\ cursorAfter (pollCycle (MGet := Fixtures.getUpdatesMarshal)
                    (UUpdates := Fixtures.tableUnmarshal Fixtures.updatesTable)
                    Fixtures.noFields Fixtures.sort Fixtures.countingReceiver
                    3 Fixtures.api (Fixtures.poller 10 [Ok "3"]))
     = Some 4
  /\ 4 < 10.
Proof. repeat split; vm_compute; reflexivity. Qed.

Lemma pollCycle_fetch_error_witness :
  exists st'' : Poller (list (result string)) nat,
    StartReceivingUpdatesWithParams (MGet := Fixtures.getUpdatesMarshal)
      (UUpdates := Fixtures.tableUnmarshal Fixtures.updatesTable)
      Fixtures.noFields Fixtures.sort Fixtures.countingReceiver
      2 3 Fixtures.api (Fixtures.poller 10 [Err "timeout"; Ok "534"])
    = Returns st''
    /\ delivered st''
       = [(None, Some "GetUpdates: makeAPICall: timeout");
          (Some (Fixtures.update 3), None);
          (Some (Fixtures.update 4), None);
          (Some (Fixtures.update 5), None)]
    /\ handler st'' = 4%nat
    /\ cursor st'' = 6.
Proof.
  destruct (pollCycle_fetch_error (MGet := Fixtures.getUpdatesMarshal)
              (UUpdates := Fixtures.tableUnmarshal Fixtures.updatesTable)
              Fixtures.noFields Fixtures.sort Fixtures.countingReceiver
              1 3 Fixtures.api (Fixtures.poller 10 [Err "timeout"; Ok "534"])
              [] "GetUpdates: makeAPICall: timeout"
              (mkWorld Fixtures.store [Ok "534"]
                 [EvRequest "POST" "https://api.telegram.org/botTOKEN/getUpdates"
                    {[ "Content-Type" := "application/json" ]} (RawBody "{}")])
              eq_refl)
    as (st' & Hcycle & Hcursor & Hparams & Hworld & Hdelivered & Hhandler
        & Hone & Htwo & Hnext).
  destruct st' as [ps ws hs ds]. simpl in Hparams, Hworld, Hdelivered, Hhandler.
  subst ps ws hs ds.
  eexists. split; [apply Htwo; vm_compute; reflexivity|].
  repeat split.
Defined.

Lemma pollCycle_delivers_sorted_witness :
  exists (sorted : list Update.t) (lastu : Update.t)
         (st' : Poller (list (result string)) nat),
    pollCycle (MGet := Fixtures.getUpdatesMarshal)
      (UUpdates := Fixtures.tableUnmarshal Fixtures.updatesTable)
      Fixtures.noFields Fixtures.sort Fixtures.countingReceiver
      3 Fixtures.api (Fixtures.poller 0 [Ok "534"])
    = Returns st'
    /\ delivered st' = (fun update => (Some update, None)) <$> sorted
    /\ sorted ≡ₚ [Fixtures.update 5; Fixtures.update 3; Fixtures.update 4]
    /\ ascending sorted
    /\ last sorted = Some lastu
    /\ cursor st' = wrap64 (Update.UpdateID lastu + 1).
Proof.
  destruct (proj1 (pollCycle_delivers_sorted (MGet := Fixtures.getUpdatesMarshal)
              (UUpdates := Fixtures.tableUnmarshal Fixtures.updatesTable)
              Fixtures.noFields Fixtures.sort Fixtures.countingReceiver
              fixture_sort_permutation fixture_sort_ascending
              3 Fixtures.api (Fixtures.poller 0 [Ok "534"])
              [Fixtures.update 5; Fixtures.update 3; Fixtures.update 4]
              (mkWorld Fixtures.store []
                 [EvRequest "POST" "https://api.telegram.org/botTOKEN/getUpdates"
                    {[ "Content-Type" := "application/json" ]} (RawBody "{}")])
              eq_refl) ltac:(discriminate))
    as (sorted & lastu & st' & Hcycle & Hdelivered & _ & Hperm & Hasc & Hlast & _
        & Hcursor & _).
  exists sorted, lastu, st'. repeat split; assumption.
Defined.

(** A session of two cycles: the batch [5, 3, 4], then an empty one. *)
Lemma cursor_never_decreases_witness :
  match StartReceivingUpdatesWithParams (MGet := Fixtures.getUpdatesMarshal)
          (UUpdates := Fixtures.tableUnmarshal Fixtures.updatesTable)
          Fixtures.noFields Fixtures.sort Fixtures.countingReceiver
          2 3 Fixtures.api (Fixtures.poller 0 [Ok "534"; Ok "none"])
  with
  | Returns st' => cursor (Fixtures.poller 0 [Ok "534"; Ok "none"]) <= cursor st'
  | _ => False
  end.
Proof.
  destruct (StartReceivingUpdatesWithParams (MGet := Fixtures.getUpdatesMarshal)
              (UUpdates := Fixtures.tableUnmarshal Fixtures.updatesTable)
              Fixtures.noFields Fixtures.sort Fixtures.countingReceiver
              2 3 Fixtures.api (Fixtures.poller 0 [Ok "534"; Ok "none"]))
    as [st'| |] eqn:Hsession;
    [|vm_compute in Hsession; discriminate..].
  refine (proj1 (cursor_never_decreases (MGet := Fixtures.getUpdatesMarshal)
            (UUpdates := Fixtures.tableUnmarshal Fixtures.updatesTable)
            Fixtures.noFields Fixtures.sort Fixtures.countingReceiver
            fixture_sort_permutation fixture_sort_ascending
            2 3 Fixtures.api (Fixtures.poller 0 [Ok "534"; Ok "none"]) st'
            _ Hsession)).
  intros k stk updates w1 Hk Hprefix Hfetch Hne.
  destruct k as [|[|k]]; [| |lia].
  - injection Hprefix as <-.
    vm_compute in Hfetch. injection Hfetch as <- <-.
    split.
    + exists (Fixtures.update 5). split.
      * apply list_elem_of_here.
      * vm_compute. discriminate.
    + repeat constructor; vm_compute; (discriminate || reflexivity).
  - vm_compute in Hprefix. injection Hprefix as <-.
    vm_compute in Hfetch. injection Hfetch as <- <-.
    by destruct Hne.
Defined.

(** One reader, serialized, then asked for its form file twice with the
    copy of its stream in between. *)
Lemma FileReader_attach_name_witness :
  carriesName "0b30557a9fc4"
    (JSONOutput (dquote +:+ "attach://0b30557a9fc4" +:+ dquote))
  /\ carriesName "0b30557a9fc4"
       (FormOutput "0b30557a9fc4" "photo.png" (Some (mkReader "" None))).
Proof.
  split.
  - refine (proj1 FileReader_attach_name
      [(0%nat, UseMarshalJSON); (0%nat, UseMultipartFormFile);
       (0%nat, UseCopy); (0%nat, UseMultipartFormFile)]
      Fixtures.photoStore 0%nat
      (JSONOutput (dquote +:+ "attach://0b30557a9fc4" +:+ dquote)) _).
    vm_compute. apply list_elem_of_here.
  - refine (proj1 FileReader_attach_name
      [(0%nat, UseMarshalJSON); (0%nat, UseMultipartFormFile);
       (0%nat, UseCopy); (0%nat, UseMultipartFormFile)]
      Fixtures.photoStore 0%nat
      (FormOutput "0b30557a9fc4" "photo.png" (Some (mkReader "" None))) _).
    vm_compute. do 3 apply list_elem_of_further. apply list_elem_of_here.
Defined.

(** Decides that a given file list holds no nil reader. *)
Ltac no_nil_reader :=
  let H := fresh in
  unfold holdsNilReader; simpl; intros H;
  repeat (apply elem_of_cons in H as [H|H]; [discriminate|]);
  by apply elem_of_nil in H.

(** A list without a reader to upload, a list with one, and a list with
    a nil reader. *)
Lemma encoding_choice_witness :
  (exists st2 : Store,
     encodeRequest (MA := Fixtures.fileMarshal) Fixtures.photoField (FileID "AgAD")
       (Some [None; Some (FileURL "https://t.me/p.png"); Some (FileID "AgAD")])
       Fixtures.photoStore
     = Returns (Ok ("application/json", RawBody (dquote +:+ "AgAD" +:+ dquote)), st2))
  /\ (exists (st2 : Store) (fileParts : list Part),
        encodeRequest (MA := Fixtures.fileMarshal) Fixtures.photoField
          (FileReaderRef 0)
          (Some [None; Some (FileReaderRef 0); Some (FileID "AgAD")])
          Fixtures.photoStore
        = Returns (Ok ("multipart/form-data; boundary=b0undary",
                       MultipartBody "b0undary"
                         ([FormField "photo"
                             (dquote +:+ "attach://0b30557a9fc4" +:+ dquote)]
                          ++ fileParts)), st2)
        /\ length fileParts = 1%nat)
  /\ makeAPICall (MA := Fixtures.fileMarshal)
       (UR := Fixtures.tableUnmarshal Fixtures.messageTable)
       Fixtures.photoField 1 Fixtures.api "sendPhoto" (FileID "AgAD")
       (Some [None; Some (FileID "AgAD"); Some FileReaderNil])
       Message.zero (mkWorld Fixtures.photoStore [Ok "sent"] [])
     = Panics "invalid memory address or nil pointer dereference".
Proof.
  split; [|split].
  3:{ refine (proj1 (proj2 (encoding_choice (MA := Fixtures.fileMarshal)
                (UR := Fixtures.tableUnmarshal Fixtures.messageTable)
                Fixtures.photoField 1 Fixtures.api "sendPhoto" (FileID "AgAD")
                (Some [None; Some (FileID "AgAD"); Some FileReaderNil])
                Message.zero (mkWorld Fixtures.photoStore [Ok "sent"] [])
                (dquote +:+ "AgAD" +:+ dquote) Fixtures.photoStore eq_refl)) _).
      unfold holdsNilReader. simpl.
      do 2 apply list_elem_of_further. apply list_elem_of_here. }
  - destruct (proj1 (proj1 (encoding_choice (MA := Fixtures.fileMarshal)
                (UR := Fixtures.tableUnmarshal Fixtures.messageTable)
                Fixtures.photoField 1 Fixtures.api "sendPhoto" (FileID "AgAD")
                (Some [None; Some (FileURL "https://t.me/p.png"); Some (FileID "AgAD")])
                Message.zero (mkWorld Fixtures.photoStore [Ok "sent"] [])
                (dquote +:+ "AgAD" +:+ dquote) Fixtures.photoStore eq_refl)
                ltac:(no_nil_reader))
                eq_refl) as (st2 & Henc & _).
    exists st2. exact Henc.
  - assert (Hreadable :
      Forall (readable (heap (checkFieldname 0 Fixtures.photoStore)))
        (uploadsOf (checkFieldname 0 Fixtures.photoStore)
           (Some [None; Some (FileReaderRef 0); Some (FileID "AgAD")]))).
    { constructor; [|constructor]. exists 0%nat, "PNG". split; reflexivity. }
    destruct (proj2 (proj1 (encoding_choice (MA := Fixtures.fileMarshal)
                (UR := Fixtures.tableUnmarshal Fixtures.messageTable)
                Fixtures.photoField 1 Fixtures.api "sendPhoto" (FileReaderRef 0)
                (Some [None; Some (FileReaderRef 0); Some (FileID "AgAD")])
                Message.zero (mkWorld Fixtures.photoStore [Ok "sent"] [])
                (dquote +:+ "attach://0b30557a9fc4" +:+ dquote)
                (checkFieldname 0 Fixtures.photoStore) eq_refl)
                ltac:(no_nil_reader))
                ltac:(discriminate) Hreadable)
      as (st2 & fileParts & Henc & Hparts & _).
    exists st2, fileParts. split; [exact Henc|].
    apply Forall2_length in Hparts. rewrite <- Hparts. reflexivity.
Defined.

(** * Further properties of the dispatcher *)

Section DispatcherOutcomes.

Context {T R : Type} {UR : Unmarshaler R}.
Variable jsonFields : string -> list (string * string).

(** The retries are played first, whatever comes after them. *)
Lemma dispatchLoop_after_retries (api : API T) (url ct : string) (body : Body)
    (rs : list Z) (t t1 : T) (d d1 : R) :
  retries api url ct body t d rs t1 d1 ->
  forall (k : nat) (st : Store) (tr : list Event),
    dispatchLoop (length rs + k) api url ct body d (mkWorld st t tr)
    = dispatchLoop k api url ct body d1
        (mkWorld st t1
           (tr ++ concat ((fun r => [EvRequest "POST" url {[ "Content-Type" := ct ]} body;
                                     EvSleep (seconds r)]) <$> rs))).
Proof.
  induction 1 as [t d | t t1 t' d d1 d' rb resp p rs Hs Hd Ho Hp Hm Hr Hrun IH];
    intros k st tr.
  - simpl. by rewrite app_nil_r.
  - change (length (ResponseParameters.RetryAfter p :: rs) + k)%nat
      with (S (length rs + k)).
    rewrite (dispatchLoop_retry (length rs + k) api url ct body d d1 _ rb t1 resp p)
      by done.
    simpl files. simpl trace. rewrite IH.
    rewrite fmap_cons. cbn [concat]. by rewrite <- !app_assoc.
Qed.

Context {A : Type} {MA : Marshaler A}.

(** After any number of retries, a transport failure or a response that
    does not decode ends the call at once: its error is returned wrapped,
    with a zero chat identifier, and no further request is made. *)
Theorem makeAPICall_failure_not_retried (api : API T) (method : string)
    (requestData : A) (inputFiles : option (list (option InputFile)))
    (resultDest d1 : R) (w : World T) (ct : string) (body : Body)
    (st1 : Store) (rs : list Z) (t1 : T) (fuel : nat) :
  let url := EndpointURL api +:+ Token api +:+ "/" +:+ method in
  encodeRequest jsonFields requestData inputFiles (files w)
    = Returns (Ok (ct, body), st1) ->
  retries api url ct body (net w) resultDest rs t1 d1 ->
  (length rs < fuel)%nat ->
  (forall (err : error) (t2 : T),
     HttpDoRequest api "POST" url {[ "Content-Type" := ct ]} body t1 = (Err err, t2) ->
     makeAPICall jsonFields fuel api method requestData inputFiles resultDest w
     = Returns ((0, Some ("makeAPICall: " +:+ err)), d1,
                mkWorld st1 t2 (trace w ++ retryTrace url ct body rs)))
  /\ (forall (respBody : string) (err : error) (t2 : T) (d2 : R),
        HttpDoRequest api "POST" url {[ "Content-Type" := ct ]} body t1
          = (Ok respBody, t2) ->
        jsonUnmarshal respBody d1 = (Err err, d2) ->
        makeAPICall jsonFields fuel api method requestData inputFiles resultDest w
        = Returns ((0, Some ("makeAPICall: " +:+ err)), d2,
                   mkWorld st1 t2 (trace w ++ retryTrace url ct body rs))).
Proof.
  intros url Henc Hrun Hfuel.
  assert (Hcall : makeAPICall jsonFields fuel api method requestData inputFiles
                    resultDest w
                  = dispatchLoop (S (fuel - S (length rs))) api url ct body d1
                      (mkWorld st1 t1
                         (trace w ++ concat ((fun r =>
                            [EvRequest "POST" url {[ "Content-Type" := ct ]} body;
                             EvSleep (seconds r)]) <$> rs)))).
  { unfold makeAPICall. rewrite Henc. cbn [obind]. fold url. unfold setFiles.
    rewrite <- (dispatchLoop_after_retries api url ct body rs _ _ _ _ Hrun).
    f_equal. lia. }
  rewrite Hcall. unfold retryTrace. split.
  - intros err t2 Hsend. simpl. rewrite Hsend. by rewrite <- app_assoc.
  - intros respBody err t2 d2 Hsend Hdec. simpl. rewrite Hsend, Hdec.
    by rewrite <- app_assoc.
Qed.

(** After any number of retries, a failure envelope without parameters, or
    whose parameters hold neither a migration nor a retry-after, ends the
    call with an error made of the envelope's description (the error code
    is not reported); no further request is made. *)
Theorem makeAPICall_provider_error (api : API T) (method : string)
    (requestData : A) (inputFiles : option (list (option InputFile)))
    (resultDest d1 d2 : R) (w : World T) (ct : string) (body : Body)
    (st1 : Store) (rs : list Z) (t1 t2 : T) (fuel : nat) (respBody : string)
    (apiResp : Response.t) :
  let url := EndpointURL api +:+ Token api +:+ "/" +:+ method in
  encodeRequest jsonFields requestData inputFiles (files w)
    = Returns (Ok (ct, body), st1) ->
  retries api url ct body (net w) resultDest rs t1 d1 ->
  (length rs < fuel)%nat ->
  HttpDoRequest api "POST" url {[ "Content-Type" := ct ]} body t1
    = (Ok respBody, t2) ->
  jsonUnmarshal respBody d1 = (Ok apiResp, d2) ->
  Response.OK apiResp = false ->
  (Response.Parameters apiResp = None
   \/ Response.Parameters apiResp = Some (ResponseParameters.mk 0 0)) ->
  makeAPICall jsonFields fuel api method requestData inputFiles resultDest w
  = Returns ((0, Some ("makeAPICall - telegram bot api error: "
                         +:+ Response.Description apiResp)), d2,
             mkWorld st1 t2 (trace w ++ retryTrace url ct body rs)).
Proof.
  intros url Henc Hrun Hfuel Hsend Hdec Hok Hpar.
  unfold makeAPICall. rewrite Henc. cbn [obind]. fold url. unfold setFiles.
  replace fuel with (length rs + S (fuel - S (length rs)))%nat by lia.
  rewrite (dispatchLoop_after_retries api url ct body rs _ _ _ _ Hrun).
  unfold retryTrace. simpl. rewrite Hsend, Hdec, Hok. simpl.
  destruct Hpar as [-> | ->]; simpl; by rewrite <- app_assoc.
Qed.

End DispatcherOutcomes.

(** ** Failures while the request is encoded *)

Lemma failing_evolves (h h' : gmap nat FileReader.t) (p : nat) (err : error) :
  evolves h h' -> failing h p err -> failing h' p err.
Proof.
  intros Hev [content Hr].
  destruct (Hev p) as (_ & _ & [Hsame|(c & fl & Ha & Hb)]).
  - exists content. congruence.
  - exists "". rewrite Hb. congruence.
Qed.

(** The form-file loop stops at the first reader whose stream breaks. *)
Lemma writeFormFiles_read_error (pre post : list InputFile) (p : nat)
    (err : error) (parts : list Part) (st : Store) :
  Forall (readable (heap st)) pre ->
  failing (heap st) p err ->
  exists st' : Store,
    writeFormFiles (pre ++ FileReaderRef p :: post) parts st
    = Returns (Err ("makeAPICall: " +:+ err), st').
Proof.
  revert parts st. induction pre as [|f pre IH]; intros parts st Hpre Hfail.
  - simpl. destruct (checkFieldname_frame p st) as (_ & _ & _ & Hsame).
    destruct Hfail as [content Hr]. rewrite Hsame, Hr. simpl. by eexists.
  - apply Forall_cons in Hpre as [(q & content & -> & Hr) Hpre].
    simpl. destruct (checkFieldname_frame q st) as (_ & _ & _ & Hsame).
    rewrite Hsame, Hr. simpl.
    assert (Hev : evolves (heap st)
                    (heap (io_Copy (FileReaderRef q) (mkReader content None)
                             (checkFieldname q st)).2)).
    { eapply evolves_trans; [apply checkFieldname_evolves|].
      apply io_Copy_evolves. by rewrite Hsame. }
    simpl in Hev. apply IH.
    + eapply Forall_impl; [exact Hpre|]. intros f Hf.
      by eapply readable_evolves.
    + by eapply failing_evolves.
Qed.

Section EncodingFailures.

Context {T A R : Type} {MA : Marshaler A} {UR : Unmarshaler R}.
Variable jsonFields : string -> list (string * string).

(** When the request data does not marshal, or when the stream of one of
    the readers to upload breaks (the ones before it being readable, and
    the list holding no nil reader, with which the files are not read at
    all), makeAPICall returns that error wrapped and the transport is
    never called, whatever the fuel. *)
Theorem makeAPICall_encoding_error (fuel : nat) (api : API T) (method : string)
    (requestData : A) (inputFiles : option (list (option InputFile)))
    (resultDest : R) (w : World T) :
  (forall (e : error) (st1 : Store),
     jsonMarshal requestData (files w) = (Err e, st1) ->
     makeAPICall jsonFields fuel api method requestData inputFiles resultDest w
     = Returns ((0, Some ("makeAPICall: " +:+ e)), resultDest,
                mkWorld st1 (net w) (trace w)))
  /\ (forall (json : string) (st1 : Store) (pre post : list InputFile) (p : nat)
             (err : error),
        jsonMarshal requestData (files w) = (Ok json, st1) ->
        ~ holdsNilReader inputFiles ->
        uploadsOf st1 inputFiles = pre ++ FileReaderRef p :: post ->
        Forall (readable (heap st1)) pre ->
        failing (heap st1) p err ->
        exists st2 : Store,
          makeAPICall jsonFields fuel api method requestData inputFiles resultDest w
          = Returns ((0, Some ("makeAPICall: " +:+ err)), resultDest,
                     mkWorld st2 (net w) (trace w))).
Proof.
  split.
  - intros e st1 Hmarshal. unfold makeAPICall, encodeRequest.
    by rewrite Hmarshal.
  - intros json st1 pre post p err Hmarshal Hlive Huploads Hpre Hfail.
    destruct (filterInputFilesNeedingUpload_spec inputFiles st1 Hlive)
      as (kept & st2 & Hfilter & Hkept & Hlen & Hev & Hreaders & Hb & Hw).
    rewrite Huploads in Hkept, Hlen.
    destruct (writeFormFiles_read_error pre post p err
                ((fun kv => FormField kv.1 kv.2) <$> jsonFields json)
                (NewWriter st2).2) as [st4 Hwrite].
    { eapply Forall_impl; [exact Hpre|]. intros f Hf.
      by apply (readable_evolves (heap st1)). }
    { by apply (failing_evolves (heap st1)). }
    exists st4. unfold makeAPICall, encodeRequest.
    rewrite Hmarshal, Hfilter. cbn [obind].
    rewrite decide_False by (rewrite Hlen, length_app; simpl; lia).
    unfold NewWriter in *. simpl in Hwrite. rewrite Hkept, Hwrite. done.
Qed.

End EncodingFailures.

(** ** What a call does to the world *)

Section DispatcherShape.

Context {T R : Type} {UR : Unmarshaler R}.
Variable jsonFields : string -> list (string * string).

Lemma dispatchLoop_shape (fuel : nat) (api : API T) (url ct : string)
    (body : Body) (dest d' : R) (w w' : World T) (id : Z) (err : option error) :
  dispatchLoop fuel api url ct body dest w = Returns ((id, err), d', w') ->
  (id <> 0 -> err = None)
  /\ files w' = files w
  /\ exists rs : list Z,
       (length rs < fuel)%nat
       /\ Forall (fun r => r <> 0) rs
       /\ trace w' = trace w ++ retryTrace url ct body rs.
Proof.
  revert dest w. induction fuel as [|fuel IH]; intros dest w; simpl; [done|].
  assert (Hstop : forall (x : Z * option error) (d : R) (t : T),
            (x.1 <> 0 -> x.2 = None) ->
            Returns (x, d, mkWorld (files w) t
                             (trace w ++ [EvRequest "POST" url
                                            {[ "Content-Type" := ct ]} body]))
            = Returns ((id, err), d', w') ->
            (id <> 0 -> err = None)
            /\ files w' = files w
            /\ exists rs : list Z,
                 (length rs < S fuel)%nat
                 /\ Forall (fun r => r <> 0) rs
                 /\ trace w' = trace w ++ retryTrace url ct body rs).
  { intros x d t Hx [= -> <- <-]. split; [exact Hx|]. split; [done|].
    exists []. split; [simpl; lia|]. split; [constructor | done]. }
  destruct (HttpDoRequest api "POST" url _ body (net w)) as [[respBody|e] net1];
    [|by apply Hstop].
  destruct (jsonUnmarshal respBody dest) as [[apiResp|e] dest1];
    [|by apply Hstop].
  destruct (Response.OK apiResp); simpl; [by apply Hstop|].
  destruct (Response.Parameters apiResp) as [p|]; [|by apply Hstop].
  destruct (decide (ResponseParameters.MigrateToChatID p <> 0));
    [by apply Hstop|].
  destruct (decide (ResponseParameters.RetryAfter p <> 0)) as [Hretry|];
    [|by apply Hstop].
  intros Hrest. destruct (IH _ _ Hrest) as (Hid & Hfiles & rs & Hlen & Hall & Htrace).
  split; [done|]. split; [done|].
  exists (ResponseParameters.RetryAfter p :: rs).
  split; [simpl; lia|]. split; [by constructor|].
  rewrite Htrace. simpl. unfold retryTrace. rewrite fmap_cons. cbn [concat].
  by rewrite <- !app_assoc.
Qed.

Context {A : Type} {MA : Marshaler A}.

(** Whenever makeAPICall returns: a migration identifier never comes with
    an error; either the encoding failed and the transport was not called,
    or the world saw requests that all carry the one encoded content type
    and body, with exactly one sleep, for a non-zero retry-after, between
    two consecutive requests and none after the last; there are fewer
    retries than the fuel, and the store is the one the encoding left. *)
Theorem makeAPICall_trace_shape (fuel : nat) (api : API T) (method : string)
    (requestData : A) (inputFiles : option (list (option InputFile)))
    (resultDest d' : R) (w w' : World T) (id : Z) (err : option error) :
  let url := EndpointURL api +:+ Token api +:+ "/" +:+ method in
  makeAPICall jsonFields fuel api method requestData inputFiles resultDest w
    = Returns ((id, err), d', w') ->
  (id <> 0 -> err = None)
  /\ ((exists (e : error) (st1 : Store),
         encodeRequest jsonFields requestData inputFiles (files w)
           = Returns (Err e, st1)
         /\ id = 0 /\ err = Some e /\ d' = resultDest
         /\ w' = mkWorld st1 (net w) (trace w))
      \/ (exists (ct : string) (body : Body) (st1 : Store) (rs : list Z),
            encodeRequest jsonFields requestData inputFiles (files w)
              = Returns (Ok (ct, body), st1)
            /\ files w' = st1
            /\ (length rs < fuel)%nat
            /\ Forall (fun r => r <> 0) rs
            /\ trace w' = trace w ++ retryTrace url ct body rs
            /\ requestsOf (retryTrace url ct body rs)
               = replicate (S (length rs))
                   (EvRequest "POST" url {[ "Content-Type" := ct ]} body))).
Proof.
  intros url. unfold makeAPICall.
  destruct (encodeRequest jsonFields requestData inputFiles (files w))
    as [[[[ct body]|e] st1]| |] eqn:Henc; simpl; try done.
  - intros Hloop. fold url in Hloop.
    destruct (dispatchLoop_shape _ _ _ _ _ _ _ _ _ _ _ Hloop)
      as (Hid & Hfiles & rs & Hlen & Hall & Htrace).
    split; [done|]. right. exists ct, body, st1, rs.
    split; [done|]. split; [done|]. split; [done|]. split; [done|].
    split; [done|]. apply requestsOf_retryTrace.
  - intros [= <- <- <- <-]. split; [done|]. left. by exists e, st1.
Qed.

End DispatcherShape.

(** * Keyboards with handlers *)

Section ReplyKeyboardFacts.

Context {S : Type}.

Lemma keyboardRowOf_map (row : list (ReplyKeyboardHandlerButton.t S)) :
  keyboardRowOf row
  = (fun b => KeyboardButton.mk (ReplyKeyboardHandlerButton.Text b)
                false false None None) <$> row.
Proof.
  unfold keyboardRowOf.
  assert (Hacc : forall acc,
            foldl (fun keyboardRow button =>
                     keyboardRow
                     ++ [KeyboardButton.mk (ReplyKeyboardHandlerButton.Text button)
                           false false None None]) acc row
            = acc ++ ((fun b => KeyboardButton.mk (ReplyKeyboardHandlerButton.Text b)
                                  false false None None) <$> row)).
  { induction row as [|b row IH]; intros acc; simpl.
    - by rewrite app_nil_r.
    - rewrite IH. by rewrite <- app_assoc. }
  apply Hacc.
Qed.

Lemma keyboard_map (rkh : ReplyKeyboardHandler S) :
  foldl (fun keyboard row => keyboard ++ [keyboardRowOf row]) [] rkh
  = fmap (M := list) keyboardRowOf rkh.
Proof.
  assert (Hacc : forall acc,
            foldl (fun keyboard row => keyboard ++ [keyboardRowOf row]) acc rkh
            = acc ++ fmap (M := list) keyboardRowOf rkh).
  { induction rkh as [|row rkh IH]; intros acc; simpl.
    - by rewrite app_nil_r.
    - rewrite IH. by rewrite <- app_assoc. }
  apply Hacc.
Qed.

Lemma buttonsOf_elem (rkh : ReplyKeyboardHandler S)
    (row : list (ReplyKeyboardHandlerButton.t S)) (b : ReplyKeyboardHandlerButton.t S) :
  row ∈ (rkh : list _) -> b ∈ row -> b ∈ buttonsOf rkh.
Proof.
  unfold buttonsOf. induction rkh as [|r rkh IH]; intros Hrow Hb.
  - by apply elem_of_nil in Hrow.
  - simpl. apply elem_of_app. apply elem_of_cons in Hrow as [->|Hrow]; auto.
Qed.

(** The markup shows the texts of the handler's buttons, row by row and
    in order, as plain buttons (no contact, location, poll or web-app
    request); the flags and the placeholder are those of the options, and
    the keyboard passed in the options is ignored. *)
Theorem ReplyMarkupWithOptions_keyboard (rkh : ReplyKeyboardHandler S)
    (options : ReplyKeyboardMarkup.t) :
  let markup := ReplyMarkupWithOptions rkh options in
  fmap (M := list) (fmap (M := list) KeyboardButton.Text)
    (ReplyKeyboardMarkup.Keyboard markup)
  = fmap (M := list) (fmap (M := list) ReplyKeyboardHandlerButton.Text) rkh
  /\ Forall (Forall (fun kb =>
               kb = KeyboardButton.mk (KeyboardButton.Text kb) false false None None))
       (ReplyKeyboardMarkup.Keyboard markup)
  /\ ReplyKeyboardMarkup.ResizeKeyboard markup = ReplyKeyboardMarkup.ResizeKeyboard options
  /\ ReplyKeyboardMarkup.OneTimeKeyboard markup = ReplyKeyboardMarkup.OneTimeKeyboard options
  /\ ReplyKeyboardMarkup.InputFieldPlaceholder markup
     = ReplyKeyboardMarkup.InputFieldPlaceholder options
  /\ ReplyKeyboardMarkup.Selective markup = ReplyKeyboardMarkup.Selective options
  /\ (forall keyboard' : list (list KeyboardButton.t),
        ReplyMarkupWithOptions rkh
          (ReplyKeyboardMarkup.mk keyboard'
             (ReplyKeyboardMarkup.ResizeKeyboard options)
             (ReplyKeyboardMarkup.OneTimeKeyboard options)
             (ReplyKeyboardMarkup.InputFieldPlaceholder options)
             (ReplyKeyboardMarkup.Selective options))
        = markup).
Proof.
  cbv zeta. unfold ReplyMarkupWithOptions. simpl. rewrite keyboard_map.
  split; [|split]; [| |done].
  - rewrite <- list_fmap_compose. apply list_fmap_ext. intros _ row _. simpl.
    rewrite keyboardRowOf_map, <- list_fmap_compose. by apply list_fmap_ext.
  - apply Forall_fmap, Forall_true. intros row. simpl.
    rewrite keyboardRowOf_map. apply Forall_fmap, Forall_true. done.
Qed.

(** The loops return at the first button, in reading order, whose text is
    the one looked for. *)
Lemma handleRow_spec (row : list (ReplyKeyboardHandlerButton.t S)) (text : string)
    (s : S) :
  (noButton text row /\ handleRow row text s = None)
  \/ (exists pre b post,
        row = pre ++ b :: post /\ noButton text pre
        /\ ReplyKeyboardHandlerButton.Text b = text
        /\ handleRow row text s
           = Some (match ReplyKeyboardHandlerButton.Handler b with
                   | Some h => let '(err, s') := h s in Returns ((true, err), s')
                   | None => Panics "invalid memory address or nil pointer dereference"
                   end)).
Proof.
  induction row as [|b row IH]; simpl.
  - left. split; [constructor | done].
  - destruct (decide (ReplyKeyboardHandlerButton.Text b = text)) as [Hb|Hb].
    + right. exists [], b, row. split; [done|]. split; [constructor | done].
    + destruct IH as [[Hno Hnone]|(pre & b' & post & -> & Hno & Hb' & Hrun)].
      * left. split; [by constructor | done].
      * right. exists (b :: pre), b', post. split; [done|].
        split; [by constructor | done].
Qed.

Lemma handleRows_spec (rkh : ReplyKeyboardHandler S) (text : string) (s : S) :
  (noButton text (buttonsOf rkh) /\ handleRows rkh text s = None)
  \/ (exists pre b post,
        buttonsOf rkh = pre ++ b :: post /\ noButton text pre
        /\ ReplyKeyboardHandlerButton.Text b = text
        /\ handleRows rkh text s
           = Some (match ReplyKeyboardHandlerButton.Handler b with
                   | Some h => let '(err, s') := h s in Returns ((true, err), s')
                   | None => Panics "invalid memory address or nil pointer dereference"
                   end)).
Proof.
  unfold buttonsOf. induction rkh as [|row rkh IH]; simpl.
  - left. split; [constructor | done].
  - destruct (handleRow_spec row text s)
      as [[Hno Hnone]|(pre & b & post & -> & Hno & Hb & Hrun)].
    + rewrite Hnone.
      destruct IH as [[Hno' Hnone']|(pre & b & post & Heq & Hno' & Hb & Hrun)].
      * left. split; [by apply Forall_app | done].
      * right. exists (row ++ pre), b, post. rewrite Heq.
        split; [by rewrite <- app_assoc|].
        split; [by apply Forall_app | done].
    + rewrite Hrun. right. exists pre, b, (post ++ concat rkh).
      split; [by rewrite <- app_assoc|]. done.
Qed.

(** For a message with a non-empty text, the handler that runs is the one
    of the first button, in reading order, that has this text, and it is
    the only one: the call returns handled = true with whatever error that
    handler returns, and the state that handler leaves. A nil handler on
    that button makes the call panic. *)
Theorem HandleMessageKeyboardButton_first_match (rkh : ReplyKeyboardHandler S)
    (m : Message.t) (s : S) (pre post : list (ReplyKeyboardHandlerButton.t S))
    (b : ReplyKeyboardHandlerButton.t S) :
  Message.Text m <> "" ->
  buttonsOf rkh = pre ++ b :: post ->
  noButton (Message.Text m) pre ->
  ReplyKeyboardHandlerButton.Text b = Message.Text m ->
  HandleMessageKeyboardButton rkh (Some m) s
  = match ReplyKeyboardHandlerButton.Handler b with
    | Some h => Returns ((true, (h s).1), (h s).2)
    | None => Panics "invalid memory address or nil pointer dereference"
    end.
Proof.
  intros Htext Hsplit Hpre Hb. unfold HandleMessageKeyboardButton.
  rewrite decide_False by done.
  destruct (handleRows_spec rkh (Message.Text m) s)
    as [[Hno _]|(pre' & b' & post' & Hsplit' & Hpre' & Hb' & ->)].
  - rewrite Hsplit in Hno. apply Forall_app in Hno as [_ Hno].
    apply Forall_cons in Hno as [Hno _]. done.
  - assert (Hsame : pre' = pre /\ b' = b).
    { rewrite Hsplit in Hsplit'. clear -Hsplit' Hpre Hpre' Hb Hb'.
      revert pre' Hsplit' Hpre'. induction pre as [|x pre IH]; intros pre' Heq Hpre'.
      - destruct pre' as [|y pre']; simplify_eq/=; [done|].
        apply Forall_cons in Hpre' as [Hy _]. done.
      - destruct pre' as [|y pre']; simplify_eq/=.
        + apply Forall_cons in Hpre as [Hx _]. done.
        + apply Forall_cons in Hpre as [_ Hpre].
          apply Forall_cons in Hpre' as [_ Hpre'].
          destruct (IH Hpre pre' ltac:(done) Hpre') as [-> ->]. done. }
    destruct Hsame as [-> ->].
    destruct (ReplyKeyboardHandlerButton.Handler b) as [h|]; [|done].
    by destruct (h s).
Qed.

(** The call reports handled = false exactly when the message is nil, has
    an empty text, or has a text that no button has; then no handler has
    run: the error is nil and the state is untouched. In particular a
    button whose text is empty is never handled. *)
Theorem HandleMessageKeyboardButton_unhandled (rkh : ReplyKeyboardHandler S)
    (msg : option Message.t) (s : S) :
  ((msg = None
    \/ (exists m, msg = Some m
                  /\ (Message.Text m = ""
                      \/ noButton (Message.Text m) (buttonsOf rkh)))) ->
   HandleMessageKeyboardButton rkh msg s = Returns ((false, None), s))
  /\ (forall (err : option error) (s' : S),
        HandleMessageKeyboardButton rkh msg s = Returns ((false, err), s') ->
        err = None /\ s' = s
        /\ (msg = None
            \/ exists m, msg = Some m
                         /\ (Message.Text m = ""
                             \/ noButton (Message.Text m) (buttonsOf rkh)))).
Proof.
  unfold HandleMessageKeyboardButton. split.
  - intros [-> | (m & -> & [Hempty | Hno])]; [done | by rewrite decide_True|].
    destruct (decide (Message.Text m = "")); [done|].
    destruct (handleRows_spec rkh (Message.Text m) s)
      as [[_ ->]|(pre & b & post & Hsplit & _ & Hb & _)]; [done|].
    rewrite Hsplit in Hno. apply Forall_app in Hno as [_ Hno].
    apply Forall_cons in Hno as [Hno _]. done.
  - intros err s'. destruct msg as [m|]; [|intros [= <- <-]; auto].
    destruct (decide (Message.Text m = "")) as [Hempty|Htext].
    { intros [= <- <-]. split; [done|]. split; [done|]. right. eauto. }
    destruct (handleRows_spec rkh (Message.Text m) s)
      as [[Hno ->]|(pre & b & post & Hsplit & _ & Hb & ->)].
    + intros [= <- <-]. split; [done|]. split; [done|]. right. eauto.
    + destruct (ReplyKeyboardHandlerButton.Handler b) as [h|]; [|done].
      by destruct (h s).
Qed.

(** Every button that the markup shows with a non-empty text is handled
    when its text comes back as a message, provided the buttons have
    handlers: the keyboard that is displayed and the dispatch agree. *)
Theorem ReplyMarkup_buttons_handled (rkh : ReplyKeyboardHandler S)
    (row : list KeyboardButton.t) (kb : KeyboardButton.t) (s : S) :
  Forall (fun b => ReplyKeyboardHandlerButton.Handler b <> None) (buttonsOf rkh) ->
  row ∈ ReplyKeyboardMarkup.Keyboard (ReplyMarkup rkh) ->
  kb ∈ row ->
  KeyboardButton.Text kb <> "" ->
  exists (err : option error) (s' : S),
    HandleMessageKeyboardButton rkh (Some (textMessage (KeyboardButton.Text kb))) s
    = Returns ((true, err), s').
Proof.
  intros Hhandlers Hrow Hkb Htext.
  unfold ReplyMarkup, ReplyMarkupWithOptions in Hrow. simpl in Hrow.
  rewrite keyboard_map in Hrow.
  apply list_elem_of_fmap in Hrow as (hrow & -> & Hhrow).
  rewrite keyboardRowOf_map in Hkb.
  apply list_elem_of_fmap in Hkb as (hb & -> & Hhb). simpl in *.
  unfold HandleMessageKeyboardButton. simpl. rewrite decide_False by done.
  destruct (handleRows_spec rkh (ReplyKeyboardHandlerButton.Text hb) s)
    as [[Hno _]|(pre & b & post & Hsplit & _ & Hb & ->)].
  - exfalso. unfold noButton in Hno. rewrite Forall_forall in Hno.
    apply (Hno hb); [|done]. by apply (buttonsOf_elem rkh hrow).
  - rewrite Forall_forall in Hhandlers.
    assert (Hin : b ∈ buttonsOf rkh).
    { rewrite Hsplit. apply elem_of_app. right. apply list_elem_of_here. }
    specialize (Hhandlers b Hin).
    destruct (ReplyKeyboardHandlerButton.Handler b) as [h|]; [|done].
    destruct (h s) as [err s']. by exists err, s'.
Qed.

End ReplyKeyboardFacts.

(** * Callback data, in both directions *)

(** What DecompileCbQryData returns on any string. *)
Lemma DecompileCbQryData_spec (s : string) :
  ((Ascii.zero ∉ list_ascii_of_string s)
   /\ DecompileCbQryData s = Returns (s, ""))
  \/ (exists command args : string,
        (Ascii.zero ∉ list_ascii_of_string command)
        /\ s = command +:+ NUL +:+ args
        /\ DecompileCbQryData s = Returns (command, args)).
Proof.
  unfold DecompileCbQryData, NUL. rewrite GoStringsFacts.SplitN_two.
  destruct s as [|c s]; [left; split; [apply not_elem_of_nil | done]|].
  rewrite GoStringsFacts.genSplit_loop_S.
  destruct (GoStrings.indexNat (String c s) (String Ascii.zero EmptyString))
    as [m|] eqn:Hm.
  - right. apply GoStringsFacts.indexNat_Some_inv in Hm as [Hfree Heq].
    exists (GoStrings.takeS m (String c s)), (GoStrings.dropS (S m) (String c s)).
    split; [done|]. split; [exact Heq|].
    simpl String.length. by replace (m + 1)%nat with (S m) by lia.
  - left. apply GoStringsFacts.indexNat_None_inv in Hm. done.
Qed.

Lemma string_app_inj_r (s t u : string) : s +:+ t = s +:+ u -> t = u.
Proof. induction s as [|c s IH]; simpl; intros Heq; [done|]. apply IH. by simplify_eq. Qed.

(** Decompiling any string returns, without panic, a command free of the
    byte 0 and the arguments after the first byte 0, if there is one; and
    compiling them again gives the string back, except for a string that
    ends with its only byte 0, whose separator is lost. *)
Theorem CompileCbQryData_after_Decompile (s : string) :
  exists command args : string,
    DecompileCbQryData s = Returns (command, args)
    /\ (Ascii.zero ∉ list_ascii_of_string command)
    /\ ((s = command /\ args = "") \/ s = command +:+ NUL +:+ args)
    /\ (CompileCbQryData command args = s <-> s <> command +:+ NUL).
Proof.
  destruct (DecompileCbQryData_spec s)
    as [[Hfree Hdec]|(command & args & Hfree & Heq & Hdec)].
  - exists s, "". split; [done|]. split; [done|]. split; [by left|].
    unfold CompileCbQryData. simpl. split; [|done].
    intros _ Heq. apply (f_equal String.length) in Heq.
    rewrite GoStringsFacts.string_length_app in Heq. simpl in Heq. lia.
  - exists command, args. split; [done|]. split; [done|]. split; [by right|].
    unfold CompileCbQryData. destruct (decide (args = "")) as [->|Hargs].
    + change (NUL +:+ "") with NUL in Heq. rewrite Heq. split.
      * intros Hbad _. apply (f_equal String.length) in Hbad.
        rewrite GoStringsFacts.string_length_app in Hbad. simpl in Hbad. lia.
      * intros Hne. by destruct Hne.
    + split; [|by rewrite Heq].
      intros _ Hbad. rewrite Heq in Hbad.
      apply string_app_inj_r in Hbad.
      change (String Ascii.zero args = String Ascii.zero EmptyString) in Hbad.
      by injection Hbad.
Qed.

(** The round trip needs a command free of the byte 0: with one in the
    command, decompiling the compiled data returns a shorter command. *)
Theorem CbQryData_roundtrip_needs_no_NUL (command args : string) :
  Ascii.zero ∈ list_ascii_of_string command ->
  DecompileCbQryData (CompileCbQryData command args) <> Returns (command, args).
Proof.
  intros Hnul Hround.
  destruct (DecompileCbQryData_spec (CompileCbQryData command args))
    as [[Hfree Hdec]|(c & a & Hfree & _ & Hdec)];
    rewrite Hdec in Hround; simplify_eq.
  - unfold CompileCbQryData in Hfree. rewrite decide_True in Hfree by done. done.
  - done.
Qed.

Lemma CbQryData_roundtrip_needs_no_NUL_witness :
  DecompileCbQryData (CompileCbQryData ("a" +:+ NUL +:+ "b") "c")
  <> Returns ("a" +:+ NUL +:+ "b", "c").
Proof.
  apply CbQryData_roundtrip_needs_no_NUL.
  simpl. apply list_elem_of_further, list_elem_of_here.
Defined.

(** * ParseMessageCommand: no command, and when it returns *)

Lemma firstBotCommand_None (textEntities : list MessageEntity.t) :
  Forall (fun e => MessageEntity.Type_ e <> MessageEntityTypeBotCommand
                   \/ MessageEntity.Offset e <> 0) textEntities ->
  firstBotCommand textEntities = None.
Proof.
  induction 1 as [|e rest He _ IH]; simpl; [done|].
  rewrite decide_False; [done|]. intros [? ?]. by destruct He.
Qed.

Section ParseMessageCommandEdges.

Variable TrimSpace : string -> string.

(** "If command not found, return nothing. If command is not placed at the
    start of a message, returns nothing": a message without text and
    caption, or whose entities hold no bot command at offset 0, gives two
    empty strings; and the caption and its entities are looked at only
    when the text is empty. *)
Theorem ParseMessageCommand_no_command (msg : Message.t) :
  (Message.Text msg = "" -> Message.Caption msg = "" ->
   ParseMessageCommand TrimSpace msg = Returns ("", ""))
  /\ (Message.Text msg <> "" ->
      Forall (fun e => MessageEntity.Type_ e <> MessageEntityTypeBotCommand
                       \/ MessageEntity.Offset e <> 0) (Message.Entities msg) ->
      ParseMessageCommand TrimSpace msg = Returns ("", ""))
  /\ (Message.Text msg = "" ->
      Forall (fun e => MessageEntity.Type_ e <> MessageEntityTypeBotCommand
                       \/ MessageEntity.Offset e <> 0) (Message.CaptionEntities msg) ->
      ParseMessageCommand TrimSpace msg = Returns ("", ""))
  /\ (Message.Text msg <> "" ->
      forall (caption : string) (captionEntities : list MessageEntity.t),
        ParseMessageCommand TrimSpace
          (Message.mk (Message.Text msg) (Message.Entities msg) caption captionEntities)
        = ParseMessageCommand TrimSpace msg).
Proof.
  unfold ParseMessageCommand, commandText. repeat split.
  - intros Ht Hc. rewrite decide_False by (by intros ?).
    by rewrite decide_False by (by intros ?).
  - intros Ht Hall. rewrite decide_True by done.
    by rewrite commandLoop_first, firstBotCommand_None.
  - intros Ht Hall. rewrite decide_False by (by intros ?).
    destruct (decide (Message.Caption msg <> "")); [|done].
    by rewrite commandLoop_first, firstBotCommand_None.
  - intros Ht caption captionEntities. simpl. by rewrite !decide_True by done.
Qed.

(** With a bot command at offset 0 among the entities of the text (or,
    for a message without text, among the caption entities), the call
    returns exactly when the declared length of the first one lies
    between 1 and the length of the text (of the caption); any other
    length, zero and negative ones included, makes it panic. *)
Theorem ParseMessageCommand_returns_iff (msg : Message.t) (text : string)
    (textEntities : list MessageEntity.t) (entity : MessageEntity.t) :
  (Message.Text msg <> ""
   /\ text = Message.Text msg /\ textEntities = Message.Entities msg)
  \/ (Message.Text msg = "" /\ Message.Caption msg <> ""
      /\ text = Message.Caption msg
      /\ textEntities = Message.CaptionEntities msg) ->
  firstBotCommand textEntities = Some entity ->
  ((exists r, ParseMessageCommand TrimSpace msg = Returns r)
   <-> 1 <= MessageEntity.Length entity <= GoStrings.len text)
  /\ (~ 1 <= MessageEntity.Length entity <= GoStrings.len text ->
      ParseMessageCommand TrimSpace msg = Panics "slice bounds out of range").
Proof.
  intros Hsource Hfirst.
  assert (Htext : commandText msg = Some (text, textEntities)).
  { unfold commandText.
    destruct Hsource as [(Ht & -> & ->) | (Ht & Hc & -> & ->)].
    - by rewrite decide_True.
    - rewrite decide_False by (by intros ?). by rewrite decide_True. }
  unfold ParseMessageCommand.
  rewrite Htext, commandLoop_first, Hfirst.
  destruct (decide (1 <= MessageEntity.Length entity <= GoStrings.len text))
    as [Hin|Hout].
  - split; [|done]. split; [done|]. intros _.
    unfold GoStrings.sliceFrom. rewrite !GoStringsFacts.slice_in_range by lia.
    simpl. by eexists.
  - assert (Hpanic : GoStrings.slice text 1 (MessageEntity.Length entity)
                     = Panics "slice bounds out of range").
    { unfold GoStrings.slice. rewrite bool_decide_eq_false_2; [done | lia]. }
    rewrite Hpanic. simpl. split; [|done]. split; [|done].
    intros [r Hr]. done.
Qed.

End ParseMessageCommandEdges.

Lemma ParseMessageCommand_no_command_witness :
  ParseMessageCommand id (Message.mk "hello @mybot" [MessageEntity.mk "mention" 6 6] "" [])
  = Returns ("", "").
Proof.
  refine (proj1 (proj2 (ParseMessageCommand_no_command id
            (Message.mk "hello @mybot" [MessageEntity.mk "mention" 6 6] "" []))) _ _).
  - simpl. discriminate.
  - constructor; [|constructor]. left. simpl. discriminate.
Defined.

Lemma ParseMessageCommand_returns_iff_witness :
  ParseMessageCommand id (Fixtures.startMessage 0) = Panics "slice bounds out of range"
  /\ ParseMessageCommand id (Fixtures.captionedMessage (-3))
     = Panics "slice bounds out of range"
  /\ exists r, ParseMessageCommand id (Fixtures.captionedMessage 6) = Returns r.
Proof.
  assert (Htext : "/start@mybot hello" <> "") by discriminate.
  split; [|split].
  - refine (proj2 (ParseMessageCommand_returns_iff id (Fixtures.startMessage 0)
              _ _ _ (or_introl (conj Htext (conj eq_refl eq_refl))) eq_refl) _).
    vm_compute. intros [H _]. by apply H.
  - refine (proj2 (ParseMessageCommand_returns_iff id
              (Fixtures.captionedMessage (-3)) _ _ _
              (or_intror (conj eq_refl (conj Htext (conj eq_refl eq_refl))))
              eq_refl) _).
    vm_compute. intros [H _]. by apply H.
  - refine (proj2 (proj1 (ParseMessageCommand_returns_iff id
              (Fixtures.captionedMessage 6) _ _ _
              (or_intror (conj eq_refl (conj Htext (conj eq_refl eq_refl))))
              eq_refl)) _).
    vm_compute. split; discriminate.
Defined.

(** * Polling sessions *)

Lemma setOffset_same (p : GetUpdatesParams.t) :
  GetUpdatesParams.setOffset (GetUpdatesParams.Offset p) p = p.
Proof. by destruct p. Qed.

Lemma updatesDelivered_updates (updates : list Update.t) :
  updatesDelivered ((fun update => (Some update, None)) <$> updates) = updates.
Proof.
  unfold updatesDelivered. induction updates as [|u updates IH]; [done|].
  rewrite fmap_cons. simpl. f_equal. exact IH.
Qed.

Lemma last_app_case {A : Type} (l1 l2 : list A) :
  last (l1 ++ l2) = match last l2 with Some x => Some x | None => last l1 end.
Proof.
  destruct l2 as [|x l2] using rev_ind.
  - by rewrite app_nil_r.
  - by rewrite app_assoc, !last_snoc.
Qed.

Lemma retryTrace_urls (url ct : string) (body : Body) (rs : list Z) :
  Forall (fun e => forall u, requestURL e = Some u -> u = url)
    (retryTrace url ct body rs).
Proof.
  unfold retryTrace. apply Forall_app. split.
  - induction rs as [|r rs IH]; [constructor|].
    rewrite fmap_cons. cbn [concat]. apply Forall_app. split; [|exact IH].
    repeat constructor; simpl; intros u [=]; done.
  - repeat constructor. simpl. intros u [=]. done.
Qed.

Section SessionFacts.

Context {T H : Type}.
Variable jsonFields : string -> list (string * string).
Context {MGet : Marshaler GetUpdatesParams.t} {UUpdates : Unmarshaler (list Update.t)}.
Variable sort_Sort : forall A : Type, (A -> A -> bool) -> list A -> list A.
Variable receiver : option Update.t -> option error -> H -> H.

(** The requests of one fetch all go to the getUpdates method. *)
Lemma GetUpdates_requests (fuel : nat) (api : API T) (p : GetUpdatesParams.t)
    (w w1 : World T) (r : list Update.t * option error) :
  GetUpdates jsonFields fuel api p w = Returns (r, w1) ->
  exists events : list Event,
    trace w1 = trace w ++ events
    /\ Forall (fun e => forall u, requestURL e = Some u ->
                 u = EndpointURL api +:+ Token api +:+ "/getUpdates")
         events.
Proof.
  unfold GetUpdates, makeAPICall.
  destruct (encodeRequest jsonFields p None (files w))
    as [[[[ct body]|e] st1]| |]; simpl; try done.
  - destruct (dispatchLoop fuel api _ ct body [] (setFiles st1 w))
      as [[[[id e] updates1] w2]| |] eqn:Hloop; simpl; try done.
    destruct (dispatchLoop_shape _ _ _ _ _ _ _ _ _ _ _ Hloop)
      as (_ & _ & rs & _ & _ & Htrace).
    simpl in Htrace.
    destruct e as [e|]; intros [= <- <-];
      (eexists; split; [exact Htrace | apply retryTrace_urls]).
  - intros [= <- <-]. exists []. simpl. rewrite app_nil_r.
    split; [done | constructor].
Qed.

(** What one cycle that returns has done. *)
Lemma pollCycle_step (fuel : nat) (api : API T) (st st' : Poller T H) :
  pollCycle jsonFields sort_Sort receiver fuel api st = Returns st' ->
  exists new : list (option Update.t * option error),
    delivered st' = delivered st ++ new
    /\ handler st' = foldl (fun h d => receiver d.1 d.2 h) (handler st) new
    /\ params st' = GetUpdatesParams.setOffset (cursor st') (params st)
    /\ cursor st' = match last (updatesDelivered new) with
                    | Some u => wrap64 (Update.UpdateID u + 1)
                    | None => cursor st
                    end.
Proof.
  unfold pollCycle.
  destruct (GetUpdates jsonFields fuel api (params st) (world st))
    as [[[updates [e|]] w1]| |]; simpl; try done.
  - intros [= <-]. exists [(None, Some e)]. simpl.
    split; [done|]. split; [done|].
    split; [|done]. unfold cursor. simpl. by rewrite setOffset_same.
  - destruct (decide (length updates = 0%nat)).
    + intros [= <-]. exists []. simpl. rewrite app_nil_r.
      split; [done|]. split; [done|].
      split; [|done]. unfold cursor. simpl. by rewrite setOffset_same.
    + rewrite indexAt_last.
      destruct (last (SortUpdates sort_Sort updates)) as [lastu|] eqn:Hlast;
        simpl; [|done].
      intros [= <-]. rewrite deliver_all. simpl.
      exists ((fun update => (Some update, None)) <$> SortUpdates sort_Sort updates).
      split; [done|].
      split; [by rewrite foldl_fmap|]. split; [by destruct (params st)|].
      unfold cursor. simpl. by rewrite updatesDelivered_updates, Hlast.
Qed.

(** The world a cycle leaves is the one its fetch left. *)
Lemma pollCycle_requests (fuel : nat) (api : API T) (st st' : Poller T H) :
  pollCycle jsonFields sort_Sort receiver fuel api st = Returns st' ->
  exists events : list Event,
    trace (world st') = trace (world st) ++ events
    /\ Forall (fun e => forall u, requestURL e = Some u ->
                 u = EndpointURL api +:+ Token api +:+ "/getUpdates")
         events.
Proof.
  unfold pollCycle.
  destruct (GetUpdates jsonFields fuel api (params st) (world st))
    as [[[updates err] w1]| |] eqn:Hfetch; simpl; try done.
  pose proof (GetUpdates_requests _ _ _ _ _ _ Hfetch) as Hreq.
  destruct err as [e|]; [by intros [= <-]|].
  destruct (decide (length updates = 0%nat)); [by intros [= <-]|].
  rewrite indexAt_last.
  destruct (last (SortUpdates sort_Sort updates)) as [lastu|]; simpl; [|done].
  intros [= <-]. by rewrite deliver_all.
Qed.

Lemma session_steps (n fuel : nat) (api : API T) (st st' : Poller T H) :
  StartReceivingUpdatesWithParams jsonFields sort_Sort receiver n fuel api st
    = Returns st' ->
  (exists new : list (option Update.t * option error),
     delivered st' = delivered st ++ new
     /\ handler st' = foldl (fun h d => receiver d.1 d.2 h) (handler st) new
     /\ params st' = GetUpdatesParams.setOffset (cursor st') (params st)
     /\ cursor st' = match last (updatesDelivered new) with
                     | Some u => wrap64 (Update.UpdateID u + 1)
                     | None => cursor st
                     end)
  /\ exists events : list Event,
       trace (world st') = trace (world st) ++ events
       /\ Forall (fun e => forall u, requestURL e = Some u ->
                    u = EndpointURL api +:+ Token api +:+ "/getUpdates")
            events.
Proof.
  revert st. induction n as [|n IH]; intros st; simpl.
  - intros [= <-]. split.
    + exists []. rewrite app_nil_r. simpl.
      split; [done|]. split; [done|].
      split; [|done]. unfold cursor. by rewrite setOffset_same.
    + exists []. rewrite app_nil_r. split; [done | constructor].
  - destruct (pollCycle jsonFields sort_Sort receiver fuel api st)
      as [st1| |] eqn:Hcycle; simpl; try done.
    intros Hrest.
    destruct (pollCycle_step _ _ _ _ Hcycle) as (new1 & Hd1 & Hh1 & Hp1 & Hc1).
    destruct (pollCycle_requests _ _ _ _ Hcycle) as (ev1 & Ht1 & Hu1).
    destruct (IH _ Hrest) as [(new2 & Hd2 & Hh2 & Hp2 & Hc2) (ev2 & Ht2 & Hu2)].
    split.
    + exists (new1 ++ new2).
      split; [by rewrite Hd2, Hd1, app_assoc|].
      split; [by rewrite foldl_app, <- Hh1|].
      split; [rewrite Hp2, Hp1; by destruct (params st)|].
      unfold updatesDelivered in *. rewrite omap_app, last_app_case.
      rewrite Hc2. destruct (last (omap fst new2)); [done | exact Hc1].
    + exists (ev1 ++ ev2). split; [by rewrite Ht2, Ht1, app_assoc|].
      by apply Forall_app.
Qed.

(** Whatever happens during a session, it talks to one method only and
    leaves the caller's choices alone: every request it makes goes to the
    URL of getUpdates, and of the parameters only the offset changes, so
    every fetch uses the limit, timeout and allowed updates the session
    was started with. *)
Theorem session_requests (n fuel : nat) (api : API T) (st st' : Poller T H) :
  StartReceivingUpdatesWithParams jsonFields sort_Sort receiver n fuel api st
    = Returns st' ->
  GetUpdatesParams.Limit (params st') = GetUpdatesParams.Limit (params st)
  /\ GetUpdatesParams.Timeout (params st') = GetUpdatesParams.Timeout (params st)
  /\ GetUpdatesParams.AllowedUpdates (params st')
     = GetUpdatesParams.AllowedUpdates (params st)
  /\ exists events : list Event,
       trace (world st') = trace (world st) ++ events
       /\ Forall (fun e => forall u, requestURL e = Some u ->
                    u = EndpointURL api +:+ Token api +:+ "/getUpdates")
            events.
Proof.
  intros Hsession.
  destruct (session_steps _ _ _ _ _ Hsession) as [(new & _ & _ & Hp & _) Hreq].
  rewrite Hp. done.
Qed.

(** At the end of a session the cursor is the identifier of the last
    update handed to the handler during the session, plus one (as [int]);
    it is the cursor of the start when no update was delivered, whatever
    errors were. No assumption on the sort is needed. *)
Theorem session_cursor_follows_deliveries (n fuel : nat) (api : API T)
    (st st' : Poller T H) :
  StartReceivingUpdatesWithParams jsonFields sort_Sort receiver n fuel api st
    = Returns st' ->
  exists new : list (option Update.t * option error),
    delivered st' = delivered st ++ new
    /\ cursor st' = match last (updatesDelivered new) with
                    | Some u => wrap64 (Update.UpdateID u + 1)
                    | None => cursor st
                    end.
Proof.
  intros Hsession.
  destruct (session_steps _ _ _ _ _ Hsession) as [(new & Hd & _ & _ & Hc) _].
  by exists new.
Qed.

End SessionFacts.

(** * The filter of the file list *)

Lemma filterLoop_unfold (f : InputFile) (l : list (option InputFile))
    (acc : list InputFile) (st : Store) :
  filterLoop (Some f :: l) acc st
  = (called <~ multipartFormFile f st;
     let '((_, _, reader), st1) := called in
     match reader with
     | Some _ => filterLoop l (acc ++ [f]) st1
     | None => filterLoop l acc st1
     end).
Proof. done. Qed.

Lemma filterLoop_names (l : list (option InputFile)) (acc kept : list InputFile)
    (st st' : Store) (p : nat) :
  Some FileReaderNil ∉ l ->
  filterLoop l acc st = Returns (kept, st') ->
  Some (FileReaderRef p) ∈ l ->
  FileReader.fieldname (heap st' !!! p) <> "".
Proof.
  revert acc st. induction l as [|[f|] l IH]; intros acc st Hlive Hloop Hin.
  - by apply elem_of_nil in Hin.
  - apply not_elem_of_cons in Hlive as [Hf Hlive].
    rewrite filterLoop_unfold in Hloop.
    apply elem_of_cons in Hin as [Hhead|Hin].
    + simplify_eq. simpl in Hloop. unfold FileReader_multipartFormFile in Hloop.
      assert (Hkeep : forall acc',
                filterLoop l acc' (checkFieldname p st) = Returns (kept, st') ->
                FileReader.fieldname (heap st' !!! p) <> "").
      { intros acc' Hrest.
        destruct (filterLoop_spec l acc' (checkFieldname p st) Hlive)
          as (st2 & Hspec & Hev & _).
        rewrite Hspec in Hrest. simplify_eq.
        destruct (Hev p) as (_ & Hfield & _).
        rewrite Hfield; apply checkFieldname_named. }
      destruct (FileReader.Reader (heap (checkFieldname p st) !!! p));
        by eapply Hkeep.
    + destruct (multipartFormFile_returns f st) as (st1 & Hcall & _);
        [congruence|].
      rewrite Hcall in Hloop. cbn [obind] in Hloop.
      destruct (if needsUpload st f then _ else _); by eapply IH.
  - apply not_elem_of_cons in Hlive as [_ Hlive].
    apply elem_of_cons in Hin as [Hhead|Hin]; [done|]. by eapply IH.
Qed.

Lemma filterLoop_fixed (l : list (option InputFile)) (acc kept : list InputFile)
    (st st' : Store) :
  (forall p, Some (FileReaderRef p) ∈ l ->
             FileReader.fieldname (heap st !!! p) <> "") ->
  filterLoop l acc st = Returns (kept, st') ->
  st' = st.
Proof.
  revert acc. induction l as [|[f|] l IH]; intros acc Hnamed Hloop.
  - simpl in Hloop. by simplify_eq.
  - assert (Hrest : forall p, Some (FileReaderRef p) ∈ l ->
                              FileReader.fieldname (heap st !!! p) <> "").
    { intros p Hp. apply Hnamed. by apply list_elem_of_further. }
    rewrite filterLoop_unfold in Hloop.
    destruct f as [id|url|p|]; simpl in Hloop; [by eapply IH..| |done].
    unfold FileReader_multipartFormFile in Hloop.
    rewrite (checkFieldname_set p st) in Hloop
      by (apply Hnamed, list_elem_of_here).
    destruct (FileReader.Reader (heap st !!! p)); by eapply IH.
  - eapply IH; [|exact Hloop].
    intros p Hp. apply Hnamed. by apply list_elem_of_further.
Qed.

Lemma omap_length_le {A : Type} (l : list (option A)) :
  (length (omap id l) <= length l)%nat.
Proof.
  induction l as [|[x|] l IH]; [done| |].
  - change (omap id (Some x :: l)) with (x :: omap id l). simpl. lia.
  - change (omap id (None :: l)) with (omap id l). simpl. lia.
Qed.

(** A nil [*FileReader] in the list makes the filter panic: it is not the
    nil interface, so its method is called. Without one the filter
    returns: nil for a nil list and a list otherwise; what it keeps are
    readers with a stream, at most as many as the list has entries; every
    reader of the list, kept or not, has its field name set afterwards;
    and filtering again, as every further call with the same list does,
    keeps the same references and changes nothing. *)
Theorem filterInputFilesNeedingUpload_again
    (inputFiles : option (list (option InputFile))) (st : Store) :
  (holdsNilReader inputFiles ->
   filterInputFilesNeedingUpload inputFiles st
   = Panics "invalid memory address or nil pointer dereference")
  /\ (~ holdsNilReader inputFiles ->
      exists (kept : option (list InputFile)) (st1 : Store),
        filterInputFilesNeedingUpload inputFiles st = Returns (kept, st1)
        /\ (kept = None <-> inputFiles = None)
        /\ Forall (fun f => needsUpload st f = true) (sliceElems kept)
        /\ (sliceLen kept <= sliceLen inputFiles)%nat
        /\ (forall p, holdsReader inputFiles p ->
                      FileReader.fieldname (heap st1 !!! p) <> "")
        /\ filterInputFilesNeedingUpload inputFiles st1 = Returns (kept, st1)).
Proof.
  split; [apply filterInputFilesNeedingUpload_nil_reader|].
  intros Hlive. destruct inputFiles as [l|]; simpl.
  2:{ exists None, st. split; [done|]. split; [done|]. split; [constructor|].
      split; [done|]. split; [|done].
      intros p Hp. by apply elem_of_nil in Hp. }
  destruct (filterLoop_spec l [] st Hlive) as (st1 & Hloop & Hev & Hreaders & _).
  pose proof (fun p => filterLoop_names l [] _ st st1 p Hlive Hloop) as Hnames.
  rewrite Hloop. cbn [obind].
  eexists _, st1. split; [done|]. split; [done|]. split; [|split; [|split]].
  - apply Forall_forall. intros f Hf.
    apply list_elem_of_filter in Hf as [Hf _]. by destruct (needsUpload st f).
  - simpl. etrans; [apply length_filter|]. apply omap_length_le.
  - intros p Hp. by apply Hnames.
  - destruct (filterLoop_spec l [] st1 Hlive) as (st2 & Hloop2 & _).
    pose proof (filterLoop_fixed l [] _ st1 st2 Hnames Hloop2) as ->.
    rewrite Hloop2. cbn [obind]. do 3 f_equal.
    apply list_filter_iff. intros f. by rewrite (needsUpload_ext st st1 f Hreaders).
Qed.

(** * Rate limiting inside a poll cycle *)

Section RateLimitedFetch.

Context {T H : Type}.
Variable jsonFields : string -> list (string * string).
Context {MGet : Marshaler GetUpdatesParams.t} {UUpdates : Unmarshaler (list Update.t)}.
Variable sort_Sort : forall A : Type, (A -> A -> bool) -> list A -> list A.
Variable receiver : option Update.t -> option error -> H -> H.

Hypothesis sort_permutation :
  forall updates, sort_Sort Update.t updatesLess updates ≡ₚ updates.
Hypothesis sort_ascending :
  forall updates, ascending (sort_Sort Update.t updatesLess updates).

(** A fetch that is told to retry, any number of times, before it gets its
    batch shows to the handler as the batch only: no error is delivered
    and no cycle is lost; the retries are seen in the world alone, as the
    repeated request and the sleeps. *)
Theorem pollCycle_rate_limited (fuel : nat) (api : API T) (st : Poller T H)
    (ct : string) (body : Body) (st1 : Store) (rs : list Z) (t1 t2 : T)
    (d1 updates : list Update.t) (respBody : string) (apiResp : Response.t) :
  let url := EndpointURL api +:+ Token api +:+ "/" +:+ "getUpdates" in
  encodeRequest jsonFields (params st) None (files (world st))
    = Returns (Ok (ct, body), st1) ->
  retries api url ct body (net (world st)) [] rs t1 d1 ->
  HttpDoRequest api "POST" url {[ "Content-Type" := ct ]} body t1
    = (Ok respBody, t2) ->
  jsonUnmarshal respBody d1 = (Ok apiResp, updates) ->
  Response.OK apiResp = true ->
  updates <> [] ->
  (length rs < fuel)%nat ->
  exists st' : Poller T H,
    pollCycle jsonFields sort_Sort receiver fuel api st = Returns st'
    /\ delivered st'
       = delivered st
         ++ ((fun update => (Some update, None)) <$> SortUpdates sort_Sort updates)
    /\ SortUpdates sort_Sort updates ≡ₚ updates
    /\ trace (world st')
       = trace (world st) ++ retryTrace url ct body rs.
Proof.
  intros url Henc Hrun Hsend Hdec Hok Hne Hfuel.
  assert (Hfetch : GetUpdates jsonFields fuel api (params st) (world st)
                   = Returns ((updates, None),
                              mkWorld st1 t2
                                (trace (world st) ++ retryTrace url ct body rs))).
  { unfold GetUpdates, makeAPICall. rewrite Henc. cbn [obind]. fold url.
    unfold setFiles.
    by rewrite (dispatchLoop_retries api url ct body rs _ t1 t2 [] d1 updates
                  respBody apiResp Hrun Hsend Hdec Hok fuel). }
  destruct (pollCycle_batch_sorted jsonFields sort_Sort receiver
              sort_permutation sort_ascending fuel api st updates _ Hfetch Hne)
    as (lastu & _ & _ & _ & Hcycle).
  eexists. split; [exact Hcycle|]. simpl.
  split; [done|]. split; [apply sort_permutation | done].
Qed.

End RateLimitedFetch.

(** * UploadStickerFile *)

Section StickerFacts.

Context {T : Type}.
Variable jsonFields : string -> list (string * string).
Context {MUpload : Marshaler UploadStickerFileParams.t} {UFile : Unmarshaler File.t}.

(** UploadStickerFile does not call the uploadStickerFile method: every
    request it makes goes to the URL of answerPreCheckoutQuery, and the
    error it returns is labelled with that name. It returns a file
    exactly when it returns no error. *)
Theorem UploadStickerFile_endpoint (fuel : nat) (api : API T)
    (params : UploadStickerFileParams.t) (w w' : World T)
    (file : option File.t) (err : option error) :
  UploadStickerFile jsonFields fuel api params w = Returns ((file, err), w') ->
  exists events : list Event,
    trace w' = trace w ++ events
    /\ Forall (fun e => forall u, requestURL e = Some u ->
                 u = EndpointURL api +:+ Token api +:+ "/answerPreCheckoutQuery")
         events
    /\ (forall e, err = Some e -> exists cause, e = "AnswerPreCheckoutQuery: " +:+ cause)
    /\ (file = None <-> err <> None).
Proof.
  unfold UploadStickerFile, makeAPICall.
  destruct (encodeRequest jsonFields params
              (Some [UploadStickerFileParams.PNGSticker params]) (files w))
    as [[[[ct body]|e] st1]| |]; simpl; try done.
  - destruct (dispatchLoop fuel api _ ct body File.zero (setFiles st1 w))
      as [[[[id e] file1] w1]| |] eqn:Hloop; simpl; try done.
    destruct (dispatchLoop_shape _ _ _ _ _ _ _ _ _ _ _ Hloop)
      as (_ & _ & rs & _ & _ & Htrace).
    simpl in Htrace.
    destruct e as [e|]; intros [= <- <- <-].
    + eexists. split; [exact Htrace|]. split; [apply retryTrace_urls|].
      split; [intros e' [= <-]; by eexists | done].
    + eexists. split; [exact Htrace|]. split; [apply retryTrace_urls|].
      split; [done|]. split; [done|]. intros Hbad. by destruct Hbad.
  - intros [= <- <- <-]. exists []. simpl. rewrite app_nil_r.
    split; [done|]. split; [constructor|].
    split; [intros e' [= <-]; by eexists | done].
Qed.

End StickerFacts.

(** * When the call panics, and when it does not return *)

Lemma needsUpload_evolves (st st' : Store) (f : InputFile) :
  evolves (heap st) (heap st') -> needsUpload st f = true -> needsUpload st' f = true.
Proof.
  intros Hev. destruct f as [id|url|p|]; simpl; [done..| |done].
  destruct (Hev p) as (_ & _ & [-> | (c & fl & -> & ->)]); done.
Qed.

(** The form-file loop finds a reader behind every reference the filter
    kept. *)
Lemma writeFormFiles_total (uploads : list InputFile) (parts : list Part)
    (st : Store) :
  Forall (fun f => needsUpload st f = true) uploads ->
  exists (r : result (list Part)) (st' : Store),
    writeFormFiles uploads parts st = Returns (r, st').
Proof.
  revert parts st. induction uploads as [|f uploads IH]; intros parts st Hall;
    simpl; [by eexists _, _|].
  apply Forall_cons in Hall as [Hf Hall].
  destruct f as [id|url|p|]; simpl in Hf; try done. simpl.
  destruct (checkFieldname_frame p st) as (_ & _ & _ & Hsame). rewrite Hsame.
  destruct (FileReader.Reader (heap st !!! p)) as [[content failure]|] eqn:Hr;
    [|done].
  simpl. destruct failure as [err|]; [by eexists _, _|].
  apply IH. eapply Forall_impl; [exact Hall|]. intros f Hf'.
  eapply needsUpload_evolves; [|exact Hf'].
  eapply evolves_trans; [apply checkFieldname_evolves|].
  apply (io_Copy_evolves p (mkReader content None)). by rewrite Hsame.
Qed.

Section DispatcherSafety.

Context {T A R : Type} {MA : Marshaler A} {UR : Unmarshaler R}.
Variable jsonFields : string -> list (string * string).

Lemma holdsNilReader_dec (inputFiles : option (list (option InputFile))) :
  holdsNilReader inputFiles \/ ~ holdsNilReader inputFiles.
Proof.
  unfold holdsNilReader. destruct inputFiles as [l|]; simpl.
  - induction l as [|[f|] l [IH|IH]].
    + right. apply not_elem_of_nil.
    + left. by apply list_elem_of_further.
    + destruct f as [id|url|p|].
      * right. apply not_elem_of_cons. by split.
      * right. apply not_elem_of_cons. by split.
      * right. apply not_elem_of_cons. by split.
      * left. apply list_elem_of_here.
    + left. by apply list_elem_of_further.
    + right. apply not_elem_of_cons. by split.
  - right. apply not_elem_of_nil.
Qed.

(** The encoding returns, with the request or with an error, unless the
    request data marshals and the list holds a nil reader. *)
Lemma encodeRequest_outcome (requestData : A)
    (inputFiles : option (list (option InputFile))) (st : Store) :
  (exists (r : result (string * Body)) (st' : Store),
     encodeRequest jsonFields requestData inputFiles st = Returns (r, st')
     /\ ((exists e st1, jsonMarshal requestData st = (Err e, st1))
         \/ ~ holdsNilReader inputFiles))
  \/ (encodeRequest jsonFields requestData inputFiles st
      = Panics "invalid memory address or nil pointer dereference"
      /\ holdsNilReader inputFiles
      /\ exists json st1, jsonMarshal requestData st = (Ok json, st1)).
Proof.
  unfold encodeRequest.
  destruct (jsonMarshal requestData st) as [[json|e] st1];
    [|left; eexists _, _; split; [done|]; left; by eexists _, _].
  destruct (holdsNilReader_dec inputFiles) as [Hnil|Hlive].
  { right. rewrite (filterInputFilesNeedingUpload_nil_reader inputFiles st1 Hnil).
    split; [done|]. split; [done|]. by eexists _, _. }
  left.
  destruct (filterInputFilesNeedingUpload_spec inputFiles st1 Hlive)
    as (kept & st2 & -> & Hkept & _ & Hev & _).
  cbn [obind].
  destruct (decide (sliceLen kept = 0%nat));
    [eexists _, _; split; [done|]; by right|].
  destruct (writeFormFiles_total (sliceElems kept)
              ((fun kv => FormField kv.1 kv.2) <$> jsonFields json)
              (NewWriter st2).2) as (r & st4 & Hwrite).
  { rewrite Hkept. apply Forall_forall. intros f Hf.
    apply list_elem_of_filter in Hf as [Hf _].
    apply (needsUpload_evolves st1); [done|]. by destruct (needsUpload st1 f). }
  unfold NewWriter in *. simpl in Hwrite. rewrite Hwrite. simpl.
  destruct r; eexists _, _; (split; [done|]); by right.
Qed.

Lemma dispatchLoop_no_panic (fuel : nat) (api : API T) (url ct : string)
    (body : Body) (dest : R) (w : World T) (msg : string) :
  dispatchLoop fuel api url ct body dest w <> Panics msg.
Proof.
  revert dest w. induction fuel as [|fuel IH]; intros dest w; simpl; [done|].
  destruct (HttpDoRequest api "POST" url _ body (net w)) as [[respBody|e] net1];
    [|done].
  destruct (jsonUnmarshal respBody dest) as [[apiResp|e] dest1]; [|done].
  destruct (Response.OK apiResp); simpl; [done|].
  destruct (Response.Parameters apiResp) as [p|]; [|done].
  destruct (decide (ResponseParameters.MigrateToChatID p <> 0)); [done|].
  destruct (decide (ResponseParameters.RetryAfter p <> 0)); [apply IH | done].
Qed.

Lemma dispatchLoop_unfinished (fuel : nat) (api : API T) (url ct : string)
    (body : Body) (dest : R) (w : World T) :
  dispatchLoop fuel api url ct body dest w = Unfinished ->
  exists (rs : list Z) (t1 : T) (d1 : R),
    retries api url ct body (net w) dest rs t1 d1 /\ length rs = fuel.
Proof.
  revert dest w. induction fuel as [|fuel IH]; intros dest w; simpl.
  - intros _. exists [], (net w), dest. split; [constructor | done].
  - destruct (HttpDoRequest api "POST" url _ body (net w))
      as [[respBody|e] net1] eqn:Hsend; [|done].
    destruct (jsonUnmarshal respBody dest) as [[apiResp|e] dest1] eqn:Hdec; [|done].
    destruct (Response.OK apiResp) eqn:Hok; simpl; [done|].
    destruct (Response.Parameters apiResp) as [p|] eqn:Hpar; [|done].
    destruct (decide (ResponseParameters.MigrateToChatID p <> 0)) as [|Hmig];
      [done|].
    destruct (decide (ResponseParameters.RetryAfter p <> 0)) as [Hretry|]; [|done].
    intros Hrest. destruct (IH _ _ Hrest) as (rs & t1 & d1 & Hrun & Hlen).
    exists (ResponseParameters.RetryAfter p :: rs), t1, d1. simpl in Hrun.
    split; [|simpl; by rewrite Hlen].
    eapply retries_cons; try done.
    destruct (decide (ResponseParameters.MigrateToChatID p = 0)); [done|].
    by destruct Hmig.
Qed.

(** With a transport, encoders and streams that return, makeAPICall
    panics in exactly one case: the request data marshals and the file
    list holds a nil [*FileReader]; the panic is the nil dereference in
    checkFieldname, before anything is sent. The nil interface entries
    are skipped, and every reference that reaches the form-file loop has
    a reader to copy from, because the filter kept it for that reason. *)
Theorem makeAPICall_panics_iff (fuel : nat) (api : API T) (method : string)
    (requestData : A) (inputFiles : option (list (option InputFile)))
    (resultDest : R) (w : World T) :
  ((exists msg : string,
      makeAPICall jsonFields fuel api method requestData inputFiles resultDest w
      = Panics msg)
   <-> (holdsNilReader inputFiles
        /\ exists (json : string) (st1 : Store),
             jsonMarshal requestData (files w) = (Ok json, st1)))
  /\ (forall msg : string,
        makeAPICall jsonFields fuel api method requestData inputFiles resultDest w
        = Panics msg ->
        msg = "invalid memory address or nil pointer dereference").
Proof.
  unfold makeAPICall.
  destruct (encodeRequest_outcome requestData inputFiles (files w))
    as [(r & st' & -> & Hwhy) | (-> & Hnil & Hmarshal)]; cbn [obind].
  - assert (Hno : forall msg,
              match r with
              | Err e => Returns ((0, Some e), resultDest, setFiles st' w)
              | Ok (ct, body) =>
                  dispatchLoop fuel api
                    (EndpointURL api +:+ Token api +:+ "/" +:+ method) ct body
                    resultDest (setFiles st' w)
              end <> Panics msg).
    { intros msg. destruct r as [[ct body]|e]; [apply dispatchLoop_no_panic | done]. }
    split.
    + split.
      * intros [msg Hpanic]. by destruct (Hno msg).
      * intros [Hnil (json & st1 & Hmarshal)].
        destruct Hwhy as [(e & st2 & Herr) | Hlive]; [congruence | done].
    + intros msg Hpanic. by destruct (Hno msg).
  - split; [|by intros msg [= <-]].
    split; [done|]. intros _. by eexists.
Qed.

(** The only way the call does not return is rate limiting without end:
    when [fuel] iterations of the loop were not enough, the request was
    encoded and the transport answered each of them with a retry-after. *)
Theorem makeAPICall_unfinished (fuel : nat) (api : API T) (method : string)
    (requestData : A) (inputFiles : option (list (option InputFile)))
    (resultDest : R) (w : World T) :
  let url := EndpointURL api +:+ Token api +:+ "/" +:+ method in
  makeAPICall jsonFields fuel api method requestData inputFiles resultDest w
    = Unfinished ->
  exists (ct : string) (body : Body) (st1 : Store) (rs : list Z) (t1 : T) (d1 : R),
    encodeRequest jsonFields requestData inputFiles (files w)
      = Returns (Ok (ct, body), st1)
    /\ retries api url ct body (net w) resultDest rs t1 d1
    /\ length rs = fuel
    /\ Forall (fun r => r <> 0) rs.
Proof.
  intros url. unfold makeAPICall.
  destruct (encodeRequest_outcome requestData inputFiles (files w))
    as [(r & st' & Henc & _) | (Henc & _)]; rewrite Henc; [|done]. simpl.
  destruct r as [[ct body]|e]; [|done].
  intros Hloop. fold url in Hloop.
  destruct (dispatchLoop_unfinished _ _ _ _ _ _ _ Hloop) as (rs & t1 & d1 & Hrun & Hlen).
  exists ct, body, st', rs, t1, d1. split; [done|]. split; [done|].
  split; [done|]. clear -Hrun. induction Hrun; by constructor.
Qed.

End DispatcherSafety.

(** * The properties on the test doubles *)

(** One rate-limited answer of the scripted transport, whatever follows. *)
Lemma scripted_flood2 (rest : list (result string)) :
  retries (UR := Fixtures.tableUnmarshal MoreFixtures.errorTable) Fixtures.api
    "https://api.telegram.org/botTOKEN/sendMessage" "application/json"
    (RawBody "{}") (Ok "flood2" :: rest) Message.zero [2] rest Message.zero.
Proof.
  refine (retries_cons (UR := Fixtures.tableUnmarshal MoreFixtures.errorTable)
    Fixtures.api _ _ _ (Ok "flood2" :: rest) rest rest
    Message.zero Message.zero Message.zero "flood2"
    (Fixtures.failure "Too Many Requests" 0 2) (ResponseParameters.mk 0 2) []
    _ _ _ _ _ _ _); try reflexivity.
  - simpl. lia.
  - apply retries_nil.
Qed.

Lemma makeAPICall_failure_not_retried_witness :
  makeAPICall (MA := Fixtures.textMarshal)
    (UR := Fixtures.tableUnmarshal MoreFixtures.errorTable)
    Fixtures.noFields 5 Fixtures.api "sendMessage" "{}" None Message.zero
    (Fixtures.world [Ok "flood2"; Err "timeout"; Ok "sent"])
  = Returns ((0, Some "makeAPICall: timeout"), Message.zero,
             mkWorld Fixtures.store [Ok "sent"]
               [EvRequest "POST" "https://api.telegram.org/botTOKEN/sendMessage"
                  {[ "Content-Type" := "application/json" ]} (RawBody "{}");
                EvSleep 2000000000;
                EvRequest "POST" "https://api.telegram.org/botTOKEN/sendMessage"
                  {[ "Content-Type" := "application/json" ]} (RawBody "{}")]).
Proof.
  refine (proj1 (makeAPICall_failure_not_retried
    (UR := Fixtures.tableUnmarshal MoreFixtures.errorTable)
    Fixtures.noFields (MA := Fixtures.textMarshal)
    Fixtures.api "sendMessage" "{}" None Message.zero Message.zero
    (Fixtures.world [Ok "flood2"; Err "timeout"; Ok "sent"])
    "application/json" (RawBody "{}") Fixtures.store [2]
    [Err "timeout"; Ok "sent"] 5%nat _ _ _) "timeout" [Ok "sent"] _).
  - reflexivity.
  - apply scripted_flood2.
  - simpl. lia.
  - reflexivity.
Defined.

Lemma makeAPICall_provider_error_witness :
  makeAPICall (MA := Fixtures.textMarshal)
    (UR := Fixtures.tableUnmarshal MoreFixtures.errorTable)
    Fixtures.noFields 5 Fixtures.api "sendMessage" "{}" None Message.zero
    (Fixtures.world [Ok "flood2"; Ok "blocked"; Ok "sent"])
  = Returns ((0, Some "makeAPICall - telegram bot api error: Forbidden: bot was blocked by the user"),
             Message.zero,
             mkWorld Fixtures.store [Ok "sent"]
               [EvRequest "POST" "https://api.telegram.org/botTOKEN/sendMessage"
                  {[ "Content-Type" := "application/json" ]} (RawBody "{}");
                EvSleep 2000000000;
                EvRequest "POST" "https://api.telegram.org/botTOKEN/sendMessage"
                  {[ "Content-Type" := "application/json" ]} (RawBody "{}")]).
Proof.
  refine (makeAPICall_provider_error
    (UR := Fixtures.tableUnmarshal MoreFixtures.errorTable)
    Fixtures.noFields (MA := Fixtures.textMarshal)
    Fixtures.api "sendMessage" "{}" None Message.zero Message.zero Message.zero
    (Fixtures.world [Ok "flood2"; Ok "blocked"; Ok "sent"])
    "application/json" (RawBody "{}") Fixtures.store [2]
    [Ok "blocked"; Ok "sent"] [Ok "sent"] 5%nat "blocked"
    (Response.mk false 403 "Forbidden: bot was blocked by the user" None)
    _ _ _ _ _ _ _).
  - reflexivity.
  - apply scripted_flood2.
  - simpl. lia.
  - reflexivity.
  - reflexivity.
  - reflexivity.
  - left. reflexivity.
Defined.

Lemma makeAPICall_encoding_error_witness :
  makeAPICall (MA := MoreFixtures.failingMarshal)
    (UR := Fixtures.tableUnmarshal MoreFixtures.errorTable)
    Fixtures.noFields 3 Fixtures.api "sendMessage" "{}" None Message.zero
    (Fixtures.world [Ok "sent"])
  = Returns ((0, Some "makeAPICall: unsupported type"), Message.zero,
             Fixtures.world [Ok "sent"])
  /\ exists st2 : Store,
       makeAPICall (MA := Fixtures.fileMarshal)
         (UR := Fixtures.tableUnmarshal MoreFixtures.errorTable)
         Fixtures.photoField 3 Fixtures.api "sendPhoto" (FileReaderRef 0)
         (Some [Some (FileReaderRef 0)]) Message.zero
         (mkWorld Fixtures.brokenPhotoStore [Ok "sent"] [])
       = Returns ((0, Some "makeAPICall: unexpected EOF"), Message.zero,
                  mkWorld st2 [Ok "sent"] []).
Proof.
  split.
  - refine (proj1 (makeAPICall_encoding_error (MA := MoreFixtures.failingMarshal)
      (UR := Fixtures.tableUnmarshal MoreFixtures.errorTable)
      Fixtures.noFields 3 Fixtures.api "sendMessage" "{}" None Message.zero
      (Fixtures.world [Ok "sent"])) "unsupported type" Fixtures.store _).
    reflexivity.
  - refine (proj2 (makeAPICall_encoding_error (MA := Fixtures.fileMarshal)
      (UR := Fixtures.tableUnmarshal MoreFixtures.errorTable)
      Fixtures.photoField 3 Fixtures.api "sendPhoto" (FileReaderRef 0)
      (Some [Some (FileReaderRef 0)]) Message.zero
      (mkWorld Fixtures.brokenPhotoStore [Ok "sent"] []))
      (dquote +:+ "attach://0b30557a9fc4" +:+ dquote)
      (checkFieldname 0 Fixtures.brokenPhotoStore) [] [] 0%nat "unexpected EOF"
      _ _ _ _ _).
    + reflexivity.
    + no_nil_reader.
    + reflexivity.
    + constructor.
    + exists "PN". reflexivity.
Defined.

Lemma makeAPICall_trace_shape_witness :
  (123 <> 0 -> (None : option error) = None)
  /\ ((exists (e : error) (st1 : Store),
         encodeRequest (MA := Fixtures.textMarshal) Fixtures.noFields "{}" None
           Fixtures.store
           = Returns (Err e, st1)
         /\ 123 = 0 /\ (None : option error) = Some e
         /\ Message.zero = Message.zero
         /\ mkWorld Fixtures.store []
              [EvRequest "POST" "https://api.telegram.org/botTOKEN/sendMessage"
                 {[ "Content-Type" := "application/json" ]} (RawBody "{}");
               EvSleep 2000000000;
               EvRequest "POST" "https://api.telegram.org/botTOKEN/sendMessage"
                 {[ "Content-Type" := "application/json" ]} (RawBody "{}")]
            = mkWorld st1 [Ok "flood2"; Ok "migrated"] [])
      \/ (exists (ct : string) (body : Body) (st1 : Store) (rs : list Z),
            encodeRequest (MA := Fixtures.textMarshal) Fixtures.noFields "{}" None
              Fixtures.store
              = Returns (Ok (ct, body), st1)
            /\ Fixtures.store = st1
            /\ (length rs < 4)%nat
            /\ Forall (fun r => r <> 0) rs
            /\ [EvRequest "POST" "https://api.telegram.org/botTOKEN/sendMessage"
                  {[ "Content-Type" := "application/json" ]} (RawBody "{}");
                EvSleep 2000000000;
                EvRequest "POST" "https://api.telegram.org/botTOKEN/sendMessage"
                  {[ "Content-Type" := "application/json" ]} (RawBody "{}")]
               = [] ++ retryTrace "https://api.telegram.org/botTOKEN/sendMessage"
                         ct body rs
            /\ requestsOf
                 (retryTrace "https://api.telegram.org/botTOKEN/sendMessage"
                    ct body rs)
               = replicate (S (length rs))
                   (EvRequest "POST" "https://api.telegram.org/botTOKEN/sendMessage"
                      {[ "Content-Type" := ct ]} body))).
Proof.
  refine (makeAPICall_trace_shape
    (UR := Fixtures.tableUnmarshal Fixtures.messageTable)
    Fixtures.noFields (MA := Fixtures.textMarshal) 4 Fixtures.api "sendMessage"
    "{}" None Message.zero Message.zero
    (Fixtures.world [Ok "flood2"; Ok "migrated"])
    (mkWorld Fixtures.store []
       [EvRequest "POST" "https://api.telegram.org/botTOKEN/sendMessage"
          {[ "Content-Type" := "application/json" ]} (RawBody "{}");
        EvSleep 2000000000;
        EvRequest "POST" "https://api.telegram.org/botTOKEN/sendMessage"
          {[ "Content-Type" := "application/json" ]} (RawBody "{}")])
    123 None _).
  reflexivity.
Defined.

(** The text [Yes] is on two buttons: the first one answers. *)
Lemma HandleMessageKeyboardButton_first_match_witness :
  HandleMessageKeyboardButton MoreFixtures.keyboard (Some (textMessage "Yes")) []
  = Returns ((true, None), ["first yes"])
  /\ HandleMessageKeyboardButton MoreFixtures.keyboard (Some (textMessage "No")) []
     = Returns ((true, Some "declined"), ["no"]).
Proof.
  split.
  - refine (HandleMessageKeyboardButton_first_match MoreFixtures.keyboard
      (textMessage "Yes") [] []
      [ReplyKeyboardHandlerButton.mk "No"
         (Some (MoreFixtures.logging "no" (Some "declined")));
       ReplyKeyboardHandlerButton.mk "Yes"
         (Some (MoreFixtures.logging "second yes" None));
       ReplyKeyboardHandlerButton.mk ""
         (Some (MoreFixtures.logging "blank" None))]
      (ReplyKeyboardHandlerButton.mk "Yes"
         (Some (MoreFixtures.logging "first yes" None))) _ _ _ _).
    + simpl. discriminate.
    + reflexivity.
    + constructor.
    + reflexivity.
  - refine (HandleMessageKeyboardButton_first_match MoreFixtures.keyboard
      (textMessage "No") []
      [ReplyKeyboardHandlerButton.mk "Yes"
         (Some (MoreFixtures.logging "first yes" None))]
      [ReplyKeyboardHandlerButton.mk "Yes"
         (Some (MoreFixtures.logging "second yes" None));
       ReplyKeyboardHandlerButton.mk ""
         (Some (MoreFixtures.logging "blank" None))]
      (ReplyKeyboardHandlerButton.mk "No"
         (Some (MoreFixtures.logging "no" (Some "declined")))) _ _ _ _).
    + simpl. discriminate.
    + reflexivity.
    + constructor; [simpl; discriminate | constructor].
    + reflexivity.
Defined.

(** A text that is on no button, and the empty text, which is on one. *)
Lemma HandleMessageKeyboardButton_unhandled_witness :
  HandleMessageKeyboardButton MoreFixtures.keyboard (Some (textMessage "Maybe")) []
  = Returns ((false, None), [])
  /\ HandleMessageKeyboardButton MoreFixtures.keyboard (Some (textMessage "")) []
     = Returns ((false, None), []).
Proof.
  split.
  - refine (proj1 (HandleMessageKeyboardButton_unhandled MoreFixtures.keyboard
      (Some (textMessage "Maybe")) []) _).
    right. exists (textMessage "Maybe"). split; [reflexivity|]. right.
    repeat (constructor; [simpl; discriminate|]). constructor.
  - refine (proj1 (HandleMessageKeyboardButton_unhandled MoreFixtures.keyboard
      (Some (textMessage "")) []) _).
    right. exists (textMessage ""). split; [reflexivity|]. left. reflexivity.
Defined.

Lemma ReplyMarkup_buttons_handled_witness :
  exists (err : option error) (s' : list string),
    HandleMessageKeyboardButton MoreFixtures.keyboard (Some (textMessage "No")) []
    = Returns ((true, err), s').
Proof.
  refine (ReplyMarkup_buttons_handled MoreFixtures.keyboard
    [KeyboardButton.mk "Yes" false false None None;
     KeyboardButton.mk "No" false false None None]
    (KeyboardButton.mk "No" false false None None) [] _ _ _ _).
  - repeat (constructor; [simpl; discriminate|]). constructor.
  - apply list_elem_of_here.
  - apply list_elem_of_further, list_elem_of_here.
  - simpl. discriminate.
Defined.

(** A session of two cycles: a fetch that fails, then the batch [5, 3, 4]. *)
Lemma session_requests_witness :
  match StartReceivingUpdatesWithParams (MGet := Fixtures.getUpdatesMarshal)
          (UUpdates := Fixtures.tableUnmarshal Fixtures.updatesTable)
          Fixtures.noFields Fixtures.sort Fixtures.countingReceiver
          2 3 Fixtures.api (Fixtures.poller 0 [Err "timeout"; Ok "534"])
  with
  | Returns st' =>
      GetUpdatesParams.Limit (params st') = 0
      /\ GetUpdatesParams.Timeout (params st') = 2
      /\ GetUpdatesParams.AllowedUpdates (params st') = ["message"]
      /\ exists events : list Event,
           trace (world st') = [] ++ events
           /\ Forall (fun e => forall u, requestURL e = Some u ->
                        u = "https://api.telegram.org/botTOKEN/getUpdates")
                events
  | _ => False
  end.
Proof.
  destruct (StartReceivingUpdatesWithParams (MGet := Fixtures.getUpdatesMarshal)
              (UUpdates := Fixtures.tableUnmarshal Fixtures.updatesTable)
              Fixtures.noFields Fixtures.sort Fixtures.countingReceiver
              2 3 Fixtures.api (Fixtures.poller 0 [Err "timeout"; Ok "534"]))
    as [st'| |] eqn:Hsession;
    [|vm_compute in Hsession; discriminate..].
  exact (session_requests (MGet := Fixtures.getUpdatesMarshal)
           (UUpdates := Fixtures.tableUnmarshal Fixtures.updatesTable)
           Fixtures.noFields Fixtures.sort Fixtures.countingReceiver
           2 3 Fixtures.api (Fixtures.poller 0 [Err "timeout"; Ok "534"]) st'
           Hsession).
Defined.

(** A session of three cycles: the batch [5, 3, 4], a fetch that fails,
    an empty batch. *)
Lemma session_cursor_follows_deliveries_witness :
  match StartReceivingUpdatesWithParams (MGet := Fixtures.getUpdatesMarshal)
          (UUpdates := Fixtures.tableUnmarshal Fixtures.updatesTable)
          Fixtures.noFields Fixtures.sort Fixtures.countingReceiver
          3 3 Fixtures.api (Fixtures.poller 0 [Ok "534"; Err "timeout"; Ok "none"])
  with
  | Returns st' =>
      exists new : list (option Update.t * option error),
        delivered st' = [] ++ new
        /\ cursor st' = match last (updatesDelivered new) with
                        | Some u => wrap64 (Update.UpdateID u + 1)
                        | None => 0
                        end
  | _ => False
  end.
Proof.
  destruct (StartReceivingUpdatesWithParams (MGet := Fixtures.getUpdatesMarshal)
              (UUpdates := Fixtures.tableUnmarshal Fixtures.updatesTable)
              Fixtures.noFields Fixtures.sort Fixtures.countingReceiver
              3 3 Fixtures.api
              (Fixtures.poller 0 [Ok "534"; Err "timeout"; Ok "none"]))
    as [st'| |] eqn:Hsession;
    [|vm_compute in Hsession; discriminate..].
  exact (session_cursor_follows_deliveries (MGet := Fixtures.getUpdatesMarshal)
           (UUpdates := Fixtures.tableUnmarshal Fixtures.updatesTable)
           Fixtures.noFields Fixtures.sort Fixtures.countingReceiver
           3 3 Fixtures.api
           (Fixtures.poller 0 [Ok "534"; Err "timeout"; Ok "none"]) st'
           Hsession).
Defined.

(** A list with a nil entry, an identifier and the reader at address 0,
    and the same list with a nil reader in it. *)
Lemma filterInputFilesNeedingUpload_again_witness :
  filterInputFilesNeedingUpload
    (Some [None; Some FileReaderNil; Some (FileReaderRef 0)]) Fixtures.photoStore
  = Panics "invalid memory address or nil pointer dereference"
  /\ exists (kept : option (list InputFile)) (st1 : Store),
       filterInputFilesNeedingUpload
         (Some [None; Some (FileID "AgAD"); Some (FileReaderRef 0)])
         Fixtures.photoStore
       = Returns (kept, st1)
       /\ FileReader.fieldname (heap st1 !!! 0%nat) <> "".
Proof.
  split.
  - refine (proj1 (filterInputFilesNeedingUpload_again
      (Some [None; Some FileReaderNil; Some (FileReaderRef 0)])
      Fixtures.photoStore) _).
    unfold holdsNilReader. simpl. apply list_elem_of_further, list_elem_of_here.
  - destruct (proj2 (filterInputFilesNeedingUpload_again
      (Some [None; Some (FileID "AgAD"); Some (FileReaderRef 0)])
      Fixtures.photoStore) ltac:(no_nil_reader))
      as (kept & st1 & Hfilter & _ & _ & _ & Hnames & _).
    exists kept, st1. split; [exact Hfilter|]. apply Hnames.
    unfold holdsReader. simpl. do 2 apply list_elem_of_further.
    apply list_elem_of_here.
Defined.

(** A thumbnail slot filled with a nil reader. *)
Lemma makeAPICall_panics_iff_witness :
  exists msg : string,
    makeAPICall (MA := Fixtures.fileMarshal)
      (UR := Fixtures.tableUnmarshal Fixtures.messageTable)
      Fixtures.photoField 3 Fixtures.api "sendPhoto" (FileReaderRef 0)
      (Some [Some (FileReaderRef 0); Some FileReaderNil]) Message.zero
      (mkWorld Fixtures.photoStore [Ok "sent"] [])
    = Panics msg.
Proof.
  refine (proj2 (proj1 (makeAPICall_panics_iff (MA := Fixtures.fileMarshal)
    (UR := Fixtures.tableUnmarshal Fixtures.messageTable)
    Fixtures.photoField 3 Fixtures.api "sendPhoto" (FileReaderRef 0)
    (Some [Some (FileReaderRef 0); Some FileReaderNil]) Message.zero
    (mkWorld Fixtures.photoStore [Ok "sent"] []))) _).
  split.
  - unfold holdsNilReader. simpl. apply list_elem_of_further, list_elem_of_here.
  - eexists _, _. reflexivity.
Defined.

(** A fetch that is rate limited once before the batch [5, 3, 4]. *)
Lemma pollCycle_rate_limited_witness :
  exists st' : Poller (list (result string)) nat,
    pollCycle (MGet := Fixtures.getUpdatesMarshal)
      (UUpdates := Fixtures.tableUnmarshal MoreFixtures.updatesTable)
      Fixtures.noFields Fixtures.sort Fixtures.countingReceiver
      3 Fixtures.api (Fixtures.poller 0 [Ok "flood2"; Ok "534"])
    = Returns st'
    /\ delivered st'
       = [] ++ ((fun update => (Some update, None))
                  <$> SortUpdates Fixtures.sort
                        [Fixtures.update 5; Fixtures.update 3; Fixtures.update 4])
    /\ SortUpdates Fixtures.sort
         [Fixtures.update 5; Fixtures.update 3; Fixtures.update 4]
       ≡ₚ [Fixtures.update 5; Fixtures.update 3; Fixtures.update 4]
    /\ trace (world st')
       = [] ++ retryTrace "https://api.telegram.org/botTOKEN/getUpdates"
                 "application/json" (RawBody "{}") [2].
Proof.
  refine (pollCycle_rate_limited (MGet := Fixtures.getUpdatesMarshal)
    (UUpdates := Fixtures.tableUnmarshal MoreFixtures.updatesTable)
    Fixtures.noFields Fixtures.sort Fixtures.countingReceiver
    fixture_sort_permutation fixture_sort_ascending
    3 Fixtures.api (Fixtures.poller 0 [Ok "flood2"; Ok "534"])
    "application/json" (RawBody "{}") Fixtures.store [2] [Ok "534"] []
    [] [Fixtures.update 5; Fixtures.update 3; Fixtures.update 4] "534"
    Fixtures.success _ _ _ _ _ _ _).
  - reflexivity.
  - refine (retries_cons (UR := Fixtures.tableUnmarshal MoreFixtures.updatesTable)
      Fixtures.api _ _ _ [Ok "flood2"; Ok "534"] [Ok "534"] [Ok "534"]
      [] [] [] "flood2"
      (Fixtures.failure "Too Many Requests" 0 2) (ResponseParameters.mk 0 2) []
      _ _ _ _ _ _ _); try reflexivity.
    + simpl. lia.
    + apply retries_nil.
  - reflexivity.
  - reflexivity.
  - reflexivity.
  - discriminate.
  - simpl. lia.
Defined.

(** An upload that the provider rejects. *)
Lemma UploadStickerFile_endpoint_witness :
  exists events : list Event,
    [EvRequest "POST" "https://api.telegram.org/botTOKEN/answerPreCheckoutQuery"
       {[ "Content-Type" := "multipart/form-data; boundary=b0undary" ]}
       (MultipartBody "b0undary"
          [FormField "photo" (dquote +:+ "attach://0b30557a9fc4" +:+ dquote);
           FormFile "0b30557a9fc4" "photo.png" "PNG"])]
    = [] ++ events
    /\ Forall (fun e => forall u, requestURL e = Some u ->
                 u = "https://api.telegram.org/botTOKEN/answerPreCheckoutQuery")
         events
    /\ (forall e,
          Some "AnswerPreCheckoutQuery: makeAPICall - telegram bot api error: Bad Request: query is too old"
          = Some e ->
          exists cause, e = "AnswerPreCheckoutQuery: " +:+ cause)
    /\ ((None : option File.t) = None
        <-> Some "AnswerPreCheckoutQuery: makeAPICall - telegram bot api error: Bad Request: query is too old"
            <> (None : option error)).
Proof.
  refine (UploadStickerFile_endpoint (MUpload := MoreFixtures.uploadMarshal)
    (UFile := Fixtures.tableUnmarshal MoreFixtures.fileTable)
    Fixtures.photoField 3 Fixtures.api
    (UploadStickerFileParams.mk 7 (Some (FileReaderRef 0)))
    (mkWorld Fixtures.photoStore [Ok "rejected"] [])
    (mkWorld _ []
       [EvRequest "POST" "https://api.telegram.org/botTOKEN/answerPreCheckoutQuery"
          {[ "Content-Type" := "multipart/form-data; boundary=b0undary" ]}
          (MultipartBody "b0undary"
             [FormField "photo" (dquote +:+ "attach://0b30557a9fc4" +:+ dquote);
              FormFile "0b30557a9fc4" "photo.png" "PNG"])])
    None
    (Some "AnswerPreCheckoutQuery: makeAPICall - telegram bot api error: Bad Request: query is too old")
    _).
  vm_compute. reflexivity.
Defined.

(** One iteration is not enough for a call that is rate limited once. *)
Lemma makeAPICall_unfinished_witness :
  exists (ct : string) (body : Body) (st1 : Store) (rs : list Z)
         (t1 : list (result string)) (d1 : Message.t),
    encodeRequest (MA := Fixtures.textMarshal) Fixtures.noFields "{}" None
      Fixtures.store
      = Returns (Ok (ct, body), st1)
    /\ retries (UR := Fixtures.tableUnmarshal MoreFixtures.errorTable) Fixtures.api
         "https://api.telegram.org/botTOKEN/sendMessage" ct body
         [Ok "flood2"; Ok "sent"] Message.zero rs t1 d1
    /\ length rs = 1%nat
    /\ Forall (fun r => r <> 0) rs.
Proof.
  refine (makeAPICall_unfinished (MA := Fixtures.textMarshal)
    (UR := Fixtures.tableUnmarshal MoreFixtures.errorTable)
    Fixtures.noFields 1 Fixtures.api "sendMessage" "{}" None Message.zero
    (Fixtures.world [Ok "flood2"; Ok "sent"]) _).
  reflexivity.
Defined.
